(** * Textadept GTK platform layer: the child-process subsystem

    A shallow embedding of the process code of [src/textadept_gtk.c]
    ([struct Process], [read_channel], [new_channel], [cleanup_process],
    [proc_exited], [spawn], [wait_process], [read_process_output] and the small
    accessors), together with the properties of that code the specification
    talks about.

    The C code is stateful: it mutates a [struct Process] through a pointer,
    registers sources with the GLib main context, opens and closes
    descriptors and calls back into the editor core.  All of that is kept in
    one [World] record that the functions thread through a small state monad.
    What the operating system and GLib decide (whether a command line
    tokenizes, whether the child can be created, what a read on a pipe
    returns) is supplied by a [Host] record and by the scripts of replies
    stored in each channel. *)

From Stdlib Require Import ZArith Strings.Byte Ascii String.
From stdpp Require Import base gmap list strings.

Local Open Scope Z_scope.

(** ** Platform *)

(** The two arms of [#if !_WIN32 ... #else ... #endif]. *)
Inductive Platform := Posix | Win32.

(** ** Constants of the C library and of GLib *)

(** [BUFSIZ] of <stdio.h> (the glibc value; ISO C asks for at least 256). *)
Definition BUFSIZ : Z := 8192.

(** [size_t] is 64 bits wide. *)
Definition SIZE_MAX : Z := 2 ^ 64 - 1.
Definition size_t_wrap (n : Z) : Z := n mod (SIZE_MAX + 1).

(** [GIOCondition] bits. *)
Definition G_IO_IN : Z := 1.
Definition G_IO_HUP : Z := 16.

(** [GIOStatus]. *)
Inductive GIOStatus :=
| G_IO_STATUS_ERROR
| G_IO_STATUS_NORMAL
| G_IO_STATUS_EOF
| G_IO_STATUS_AGAIN.

Definition status_eqb (a b : GIOStatus) : bool :=
  match a, b with
  | G_IO_STATUS_ERROR, G_IO_STATUS_ERROR
  | G_IO_STATUS_NORMAL, G_IO_STATUS_NORMAL
  | G_IO_STATUS_EOF, G_IO_STATUS_EOF
  | G_IO_STATUS_AGAIN, G_IO_STATUS_AGAIN => true
  | _, _ => false
  end.

(** [GError]: the fields the code reads. *)
Record GError := mkGError { message : string; code : Z }.

Definition LF : byte := x0a.
Definition CR : byte := x0d.

(** ** Wait statuses (POSIX)

    [waitpid] and GLib's child watch both report the wait status of the
    child, not its exit code; <sys/wait.h> provides the macros that take it
    apart.  The encoding below is the one of Linux and the BSDs. *)
Module WaitStatus.

Inductive Outcome :=
| Exited (exit_code : Z)        (* the child called exit(exit_code) *)
| Signaled (signal : Z).        (* the child was killed by a signal *)

Definition encode (o : Outcome) : Z :=
  match o with
  | Exited c => Z.shiftl (Z.land c 255) 8
  | Signaled s => Z.land s 127
  end.

Definition WIFEXITED (status : Z) : bool := Z.land status 127 =? 0.
Definition WEXITSTATUS (status : Z) : Z := Z.land (Z.shiftr status 8) 255.

End WaitStatus.

(** ** Data model *)

(** [struct Process].  [pid] and [fstdin] are [int] on POSIX and [HANDLE] on
    Windows; both are numbers here, and 0 is the "no process" value that
    [is_process_running] tests.  [cstdout] and [cstderr] are the addresses of
    the two [GIOChannel] objects. *)
Record Process := mkProcess {
  pid : Z;
  fstdin : Z;
  fstdout : Z;
  fstderr : Z;
  exit_status : Z;
  cstdout : Z;
  cstderr : Z
}.

Definition zeroed : Process := mkProcess 0 0 0 0 0 0 0.

(** What one read call on a channel reports: the status, the bytes stored
    for the caller, the [GError] (set by GLib exactly when it reports an
    error), how many bytes stay behind in the channel's own buffer, and the
    byte that lies in memory just below the storage handed to the caller
    (owned by the allocator; the line-mode code can look at it, see
    [buf_at]). *)
Record Reply := mkReply {
  rp_status : GIOStatus;
  rp_data : list byte;
  rp_err : option GError;
  rp_left : Z;
  rp_below : byte
}.

(** The reply of a channel that has nothing more to say. *)
Definition eof_reply : Reply := mkReply G_IO_STATUS_EOF [] None 0 x00.

(** A [GIOChannel]: its descriptor, the buffering mode, the reference count,
    the number of bytes sitting in its read buffer, and the replies its next
    read calls will get from the pipe. *)
Record Channel := mkChannel {
  ch_fd : Z;
  ch_buffered : bool;
  ch_refs : nat;
  ch_pending : Z;
  ch_replies : list Reply
}.

Definition no_channel : Channel := mkChannel 0 false 0 0 [].

(** Sources attached to the default main context.  [src_data] is the
    [user_data] pointer given at registration: for every source this code
    creates it is the address of the [struct Process]. *)
Inductive SourceKind :=
| IOWatch (channel : Z)          (* g_io_add_watch(channel, G_IO_IN | G_IO_HUP, read_channel, proc) *)
| ChildWatch (child : Z).        (* g_child_watch_add(pid, proc_exited, proc) *)

Record Source := mkSource {
  src_id : Z;
  src_kind : SourceKind;
  src_data : Z
}.

(** The three read calls of GLib the code uses. *)
Inductive ReadCall :=
| ReadChars (count : Z)          (* g_io_channel_read_chars(ch, buf, count, &len, ...) *)
| ReadLine                       (* g_io_channel_read_line_string *)
| ReadToEnd.                     (* g_io_channel_read_to_end *)

(** Calls that leave the program, in the order they are made. *)
Inductive Event :=
| EvClosePid (child : Z)                                    (* g_spawn_close_pid *)
| EvClose (fd : Z)                                          (* close, _close *)
| EvCloseHandle (h : Z)                                     (* CloseHandle *)
| EvSetBuffered (channel : Z) (on : bool)                   (* g_io_channel_set_buffered *)
| EvRead (channel : Z) (call : ReadCall)                    (* one of the read calls *)
| EvOutput (proc : Z) (data : list byte) (is_stdout : bool) (* process_output *)
| EvExited (proc : Z) (status : Z).                         (* process_exited *)

(** The state the code runs in. *)
Record World := mkWorld {
  procs : gmap Z Process;       (* the struct Process objects, by address *)
  channels : gmap Z Channel;    (* the live GIOChannel objects, by address *)
  sources : list Source;        (* sources attached to the main context, in order *)
  open_fds : gset Z;            (* descriptors and handles open in this process *)
  next_id : Z;                  (* the next unused descriptor, handle, pid or address *)
  log : list Event
}.

(** What the operating system and GLib decide. *)
Record Host := mkHost {
  (* g_shell_parse_argv: the argument vector, or the message of the GError *)
  g_shell_parse_argv : string -> list string + string;
  (* g_spawn_async_with_pipes(cwd, argv, envp, ...): None when the child was
     created, otherwise the message of the GError *)
  g_spawn_error : option string -> list string -> option (list string) -> option string;
  (* CreateProcessA(NULL, cmd, ..., envp, cwd, ...): None when the child was
     created, otherwise the text FormatMessageA gives for GetLastError() *)
  CreateProcessA_error : string -> option string -> option (list string) -> option string;
  (* getenv("COMSPEC") *)
  COMSPEC : string;
  (* what reads on a freshly opened pipe descriptor will report *)
  incoming : Z -> list Reply
}.

(** ** The state monad *)

Definition M (A : Type) : Type := World -> A * World.

Definition ret {A} (a : A) : M A := fun w => (a, w).
Definition bind {A B} (m : M A) (k : A -> M B) : M B :=
  fun w => let (a, w') := m w in k a w'.

Notation "'let*' x ':=' m 'in' k" := (bind m (fun x => k))
  (at level 10, x name, m at level 100, k at level 200).
Notation "'let*' ' pat ':=' m 'in' k" :=
  (bind m (fun x => match x with pat => k end))
  (at level 10, pat pattern, m at level 100, k at level 200).
Notation "m ';;;' k" := (bind m (fun _ => k))
  (at level 100, k at level 200, right associativity).

Definition exec {A} (m : M A) (w : World) : World := snd (m w).
Definition eval {A} (m : M A) (w : World) : A := fst (m w).

Definition when (b : bool) (m : M unit) : M unit := if b then m else ret tt.

(** *** Primitive accesses *)

Definition set_procs (f : gmap Z Process -> gmap Z Process) (w : World) : World :=
  mkWorld (f (procs w)) (channels w) (sources w) (open_fds w) (next_id w) (log w).
Definition set_channels (f : gmap Z Channel -> gmap Z Channel) (w : World) : World :=
  mkWorld (procs w) (f (channels w)) (sources w) (open_fds w) (next_id w) (log w).
Definition set_sources (f : list Source -> list Source) (w : World) : World :=
  mkWorld (procs w) (channels w) (f (sources w)) (open_fds w) (next_id w) (log w).
Definition set_open_fds (f : gset Z -> gset Z) (w : World) : World :=
  mkWorld (procs w) (channels w) (sources w) (f (open_fds w)) (next_id w) (log w).
Definition set_next_id (f : Z -> Z) (w : World) : World :=
  mkWorld (procs w) (channels w) (sources w) (open_fds w) (f (next_id w)) (log w).
Definition set_log (f : list Event -> list Event) (w : World) : World :=
  mkWorld (procs w) (channels w) (sources w) (open_fds w) (next_id w) (f (log w)).

Definition modify (f : World -> World) : M unit := fun w => (tt, f w).
Definition emit (e : Event) : M unit := modify (set_log (fun l => l ++ [e])).

(** [*proc] as an rvalue; an address that holds no object reads as zeroes. *)
Definition proc_at (w : World) (p : Z) : Process := default zeroed (procs w !! p).
Definition load (p : Z) : M Process := fun w => (proc_at w p, w).
Definition store (p : Z) (f : Process -> Process) : M unit :=
  fun w => (tt, set_procs (fun m => <[p := f (proc_at w p)]> m) w).

Definition channel_at (w : World) (c : Z) : Channel := default no_channel (channels w !! c).

(** A fresh number: descriptors, handles, pids, object addresses and source
    ids are all taken from one counter, so they never collide. *)
Definition fresh : M Z := fun w => (next_id w, set_next_id Z.succ w).

(** ** Operating-system and GLib primitives *)

(** [close(fd)] and [_close(fd)]. *)
Definition close (fd : Z) : M unit :=
  emit (EvClose fd) ;;; modify (set_open_fds (fun s => s ∖ {[fd]})).

Definition CloseHandle (h : Z) : M unit :=
  emit (EvCloseHandle h) ;;; modify (set_open_fds (fun s => s ∖ {[h]})).

(** [g_spawn_close_pid]: does nothing on POSIX, closes the process handle on
    Windows. *)
Definition g_spawn_close_pid (plat : Platform) (child : Z) : M unit :=
  emit (EvClosePid child) ;;;
  match plat with
  | Posix => ret tt
  | Win32 => modify (set_open_fds (fun s => s ∖ {[child]}))
  end.

(** A new descriptor or handle, open from now on. *)
Definition open_new : M Z :=
  let* fd := fresh in
  modify (set_open_fds (fun s => {[fd]} ∪ s)) ;;; ret fd.

(** [CreatePipe(&read_end, &write_end, ...)]. *)
Definition CreatePipe : M (Z * Z) :=
  let* read_end := open_new in
  let* write_end := open_new in
  ret (read_end, write_end).

(** [_open_osfhandle(h, _O_RDONLY)]: a C run-time descriptor that takes over
    the handle. *)
Definition _open_osfhandle (h : Z) : M Z :=
  let* fd := fresh in
  modify (set_open_fds (fun s => {[fd]} ∪ (s ∖ {[h]}))) ;;; ret fd.

(** [g_io_channel_unix_new(fd)] and [g_io_channel_win32_new_fd(fd)]: a
    channel with one reference, buffered as GLib creates it. *)
Definition g_io_channel_new (fd : Z) (replies : list Reply) : M Z :=
  let* c := fresh in
  modify (set_channels (fun m => <[c := mkChannel fd true 1 0 replies]> m)) ;;; ret c.

Definition set_ch_buffered (on : bool) (ch : Channel) : Channel :=
  mkChannel (ch_fd ch) on (ch_refs ch) (ch_pending ch) (ch_replies ch).
Definition set_ch_refs (n : nat) (ch : Channel) : Channel :=
  mkChannel (ch_fd ch) (ch_buffered ch) n (ch_pending ch) (ch_replies ch).

Definition g_io_channel_get_buffered (c : Z) : M bool :=
  fun w => (ch_buffered (channel_at w c), w).

Definition g_io_channel_set_buffered (c : Z) (on : bool) : M unit :=
  emit (EvSetBuffered c on) ;;;
  modify (set_channels (fun m => alter (set_ch_buffered on) c m)).

(** [g_io_channel_get_buffer_condition]: [G_IO_IN] is set exactly when the
    channel's read buffer holds bytes. *)
Definition g_io_channel_get_buffer_condition (c : Z) : M Z :=
  fun w => (if 0 <? ch_pending (channel_at w c) then G_IO_IN else 0, w).

Definition g_io_channel_ref (c : Z) : M unit :=
  modify (set_channels (fun m => alter (fun ch => set_ch_refs (S (ch_refs ch)) ch) c m)).

(** Dropping the last reference frees the channel. *)
Definition g_io_channel_unref (c : Z) : M unit :=
  fun w =>
    match channels w !! c with
    | Some ch =>
        match ch_refs ch with
        | S (S n) => (tt, set_channels (fun m => <[c := set_ch_refs (S n) ch]> m) w)
        | _ => (tt, set_channels (fun m => delete c m) w)
        end
    | None => (tt, w)
    end.

(** A read call never stores more than it was asked for. *)
Definition clip (call : ReadCall) (r : Reply) : Reply :=
  match call with
  | ReadChars count =>
      mkReply (rp_status r) (take (Z.to_nat count) (rp_data r)) (rp_err r) (rp_left r) (rp_below r)
  | _ => r
  end.

Definition next_reply (ch : Channel) : Reply :=
  match ch_replies ch with
  | [] => eof_reply
  | r :: _ => r
  end.

Definition after_read (ch : Channel) : Channel :=
  mkChannel (ch_fd ch) (ch_buffered ch) (ch_refs ch) (rp_left (next_reply ch)) (tail (ch_replies ch)).

(** One of the three read calls on channel [c]: it takes the channel's next
    reply, or [eof_reply] when there is none left. *)
Definition channel_read (c : Z) (call : ReadCall) : M Reply :=
  emit (EvRead c call) ;;;
  fun w => (clip call (next_reply (channel_at w c)),
            set_channels (fun m => alter after_read c m) w).

(** Number of bytes of a reply, as the [size_t] the call stores. *)
Definition rp_len (r : Reply) : Z := Z.of_nat (length (rp_data r)).

(** *** Sources *)

Definition g_io_add_watch (c : Z) (user_data : Z) : M Z :=
  let* id := fresh in
  modify (set_sources (fun l => l ++ [mkSource id (IOWatch c) user_data])) ;;;
  g_io_channel_ref c ;;; ret id.

Definition g_child_watch_add (child : Z) (user_data : Z) : M Z :=
  let* id := fresh in
  modify (set_sources (fun l => l ++ [mkSource id (ChildWatch child) user_data])) ;;;
  ret id.

(** What destroying a source releases: a watch holds a reference to its
    channel. *)
Definition finalize_source (s : Source) : M unit :=
  match src_kind s with
  | IOWatch c => g_io_channel_unref c
  | ChildWatch _ => ret tt
  end.

(** The first source that satisfies [f], and the list without it. *)
Fixpoint take_source (f : Source -> bool) (l : list Source) : option Source * list Source :=
  match l with
  | [] => (None, [])
  | s :: rest =>
      if f s then (Some s, rest)
      else let (found, rest') := take_source f rest in (found, s :: rest')
  end.

Definition remove_source (f : Source -> bool) : M bool :=
  fun w =>
    match take_source f (sources w) with
    | (Some s, rest) => (true, exec (finalize_source s) (set_sources (fun _ => rest) w))
    | (None, _) => (false, w)
    end.

(** [g_source_remove_by_user_data]: "if multiple sources exist with the same
    user data, only one will be destroyed". *)
Definition g_source_remove_by_user_data (user_data : Z) : M bool :=
  remove_source (fun s => src_data s =? user_data).

(** What GLib does with a source whose callback returned false. *)
Definition g_source_destroy (id : Z) : M bool :=
  remove_source (fun s => src_id s =? id).

(** *** Calls into the editor core *)

(** Modelled from the spec: [process_output] and [process_exited] are
    declared in textadept.h and defined outside this file; they are the
    "output sink callback" and the "exit callback" of the specification, and
    are recorded as events. *)
Definition process_output (proc : Z) (data : list byte) (is_stdout : bool) : M unit :=
  emit (EvOutput proc data is_stdout).

Definition process_exited (proc : Z) (status : Z) : M unit :=
  emit (EvExited proc status).

(** ** The code of textadept_gtk.c *)

Definition set_pid (v : Z) (p : Process) : Process :=
  mkProcess v (fstdin p) (fstdout p) (fstderr p) (exit_status p) (cstdout p) (cstderr p).
Definition set_fstdin (v : Z) (p : Process) : Process :=
  mkProcess (pid p) v (fstdout p) (fstderr p) (exit_status p) (cstdout p) (cstderr p).
Definition set_fstdout (v : Z) (p : Process) : Process :=
  mkProcess (pid p) (fstdin p) v (fstderr p) (exit_status p) (cstdout p) (cstderr p).
Definition set_fstderr (v : Z) (p : Process) : Process :=
  mkProcess (pid p) (fstdin p) (fstdout p) v (exit_status p) (cstdout p) (cstderr p).
Definition set_exit_status (v : Z) (p : Process) : Process :=
  mkProcess (pid p) (fstdin p) (fstdout p) (fstderr p) v (cstdout p) (cstderr p).
Definition set_cstdout (v : Z) (p : Process) : Process :=
  mkProcess (pid p) (fstdin p) (fstdout p) (fstderr p) (exit_status p) v (cstderr p).
Definition set_cstderr (v : Z) (p : Process) : Process :=
  mkProcess (pid p) (fstdin p) (fstdout p) (fstderr p) (exit_status p) (cstdout p) v.

(** *** read_channel *)

(** The body of the [do ... while (len == BUFSIZ)] loop, once per reply.
    [script] is the list of replies the channel still holds when the loop is
    entered; a read past its end gets [eof_reply], whose length 0 is not
    [BUFSIZ], so the loop ends there. *)
Fixpoint read_channel_loop (script : list Reply) (source proc : Z) : M unit :=
  let* r := channel_read source (ReadChars BUFSIZ) in
  let* pr := load proc in
  when (status_eqb (rp_status r) G_IO_STATUS_NORMAL && (0 <? rp_len r))
       (process_output proc (rp_data r) (source =? cstdout pr)) ;;;
  match script with
  | [] => ret tt
  | _ :: rest =>
      if rp_len r =? BUFSIZ then read_channel_loop rest source proc else ret tt
  end.

Definition read_channel (source cond proc : Z) : M bool :=
  let* pr := load proc in
  if (pid pr =? 0) || (Z.land cond G_IO_IN =? 0) then ret false
  else
    let* script := (fun w => (ch_replies (channel_at w source), w)) in
    read_channel_loop script source proc ;;;
    let* pr := load proc in
    ret (negb (pid pr =? 0) && (Z.land cond G_IO_HUP =? 0)).

(** *** new_channel *)

Definition new_channel (host : Host) (fd proc : Z) (watch : bool) : M Z :=
  let* channel := g_io_channel_new fd (incoming host fd) in
  (* g_io_channel_set_encoding(channel, NULL, NULL): bytes are passed as they are *)
  g_io_channel_set_buffered channel false ;;;
  when watch (let* _ := g_io_add_watch channel proc in g_io_channel_unref channel) ;;;
  ret channel.

(** *** cleanup_process *)

Definition cleanup_process (plat : Platform) (proc status : Z) : M unit :=
  let* _ := g_source_remove_by_user_data proc in   (* disconnect stdout watch *)
  let* _ := g_source_remove_by_user_data proc in   (* disconnect stderr watch *)
  let* _ := g_source_remove_by_user_data proc in   (* disconnect child watch *)
  let* pr := load proc in
  g_spawn_close_pid plat (pid pr) ;;;
  store proc (set_pid 0) ;;;
  match plat with
  | Posix => close (fstdin pr) ;;; close (fstdout pr) ;;; close (fstderr pr)
  | Win32 => CloseHandle (fstdin pr) ;;; close (fstdout pr) ;;; close (fstderr pr)
  end ;;;
  store proc (set_exit_status status) ;;;
  process_exited proc status.

(** *** proc_exited *)

Definition proc_exited (plat : Platform) (status proc : Z) : M unit :=
  cleanup_process plat proc status.

(** *** spawn *)

(** [g_spawn_async_with_pipes(cwd, argv, envp, ..., &proc->pid, &proc->fstdin,
    &proc->fstdout, &proc->fstderr, &err)].  On failure GLib has closed the
    pipes it made and fills none of the four locations. *)
Definition g_spawn_async_with_pipes (host : Host) (cwd : option string) (argv : list string)
    (envp : option (list string)) (proc : Z) : M (option string) :=
  match g_spawn_error host cwd argv envp with
  | Some msg => ret (Some msg)
  | None =>
      let* child := fresh in
      let* fin := open_new in
      let* fout := open_new in
      let* ferr := open_new in
      store proc (set_pid child) ;;;
      store proc (set_fstdin fin) ;;;
      store proc (set_fstdout fout) ;;;
      store proc (set_fstderr ferr) ;;;
      ret None
  end.

(** [CreateProcessA(...)]: on success the process and thread handles of
    [PROCESS_INFORMATION], both open. *)
Definition CreateProcessA (host : Host) (cmd : string) (envp : option (list string))
    (cwd : option string) : M (Z * Z + string) :=
  match CreateProcessA_error host cmd cwd envp with
  | Some msg => ret (inr msg)
  | None =>
      let* hProcess := open_new in
      let* hThread := open_new in
      ret (inl (hProcess, hThread))
  end.

(** The part after [#endif]: "Monitor stdout, stderr, and the process
    itself". *)
Definition spawn_monitor (host : Host) (proc : Z) (monitor_stdout monitor_stderr : bool)
    : M (bool * option string) :=
  let* pr := load proc in
  let* c := new_channel host (fstdout pr) proc monitor_stdout in
  store proc (set_cstdout c) ;;;
  let* c := new_channel host (fstderr pr) proc monitor_stderr in
  store proc (set_cstderr c) ;;;
  let* pr := load proc in
  let* _ := g_child_watch_add (pid pr) proc in
  ret (true, None).

(** The POSIX arm of [spawn], up to [#else].  The result is the message
    stored in [*error] when the arm returns false, and [None] when control
    reaches the code after [#endif].  [envi] is the list of the entries of
    the Lua table at that stack index, [None] for index 0. *)
Definition spawn_posix (host : Host) (proc : Z) (cmd : string) (cwd : option string)
    (envi : option (list string)) : M (option string) :=
  (* Construct argv from cmd and envp from envi. *)
  match g_shell_parse_argv host cmd with
  | inr msg => ret (Some msg)
  | inl argv =>
      (* Spawn the process with pipes for stdin, stdout, and stderr. *)
      g_spawn_async_with_pipes host cwd argv envi proc
  end.

(** The Windows arm of [spawn], from [#else] to [#endif]. *)
Definition spawn_win32 (host : Host) (proc : Z) (cmd : string) (cwd : option string)
    (envi : option (list string)) : M (option string) :=
  (* Use "cmd.exe /c" for more versatility (e.g. spawning batch files). *)
  let cmd := (COMSPEC host ++ " /c " ++ cmd)%string in
  (* Redirect stdin. *)
  let* '(stdin_read, stdin_write) := CreatePipe in
  store proc (set_fstdin stdin_write) ;;;
  (* Redirect stdout. *)
  let* '(proc_stdout, stdout_write) := CreatePipe in
  (* Redirect stderr. *)
  let* '(proc_stderr, stderr_write) := CreatePipe in
  (* Spawn the process with pipes and no window. *)
  let* created := CreateProcessA host cmd envi cwd in
  match created with
  | inr msg => ret (Some msg)
  | inl (hProcess, hThread) =>
      store proc (set_pid hProcess) ;;;
      let* fd := _open_osfhandle proc_stdout in   (* transfers ownership *)
      store proc (set_fstdout fd) ;;;
      let* fd := _open_osfhandle proc_stderr in   (* transfers ownership *)
      store proc (set_fstderr fd) ;;;
      (* Close unneeded handles. *)
      CloseHandle hThread ;;;
      CloseHandle stdin_read ;;; CloseHandle stdout_write ;;; CloseHandle stderr_write ;;;
      ret None
  end.

(** [spawn] returns the [bool] of the C function together with what it
    stored in [*error] ([None]: nothing was stored). *)
Definition spawn (plat : Platform) (host : Host) (proc : Z) (cmd : string)
    (cwd : option string) (envi : option (list string))
    (monitor_stdout monitor_stderr : bool) : M (bool * option string) :=
  let* failed :=
    match plat with
    | Posix => spawn_posix host proc cmd cwd envi
    | Win32 => spawn_win32 host proc cmd cwd envi
    end in
  match failed with
  | Some msg => ret (false, Some msg)
  | None => spawn_monitor host proc monitor_stdout monitor_stderr
  end.

Definition is_process_running (proc : Z) : M bool :=
  let* pr := load proc in ret (negb (pid pr =? 0)).

Definition get_process_exit_status (proc : Z) : M Z :=
  let* pr := load proc in ret (exit_status pr).

(** *** wait_process *)

(** A [DWORD] passed for the [int] parameter of [cleanup_process]: the value
    modulo 2^32, read as a two's complement number, so that exit codes from
    2^31 on come out negative. *)
Definition int_of_DWORD (v : Z) : Z :=
  let m := v mod 2 ^ 32 in
  if m <? 2 ^ 31 then m else m - 2 ^ 32.

(** [reported] is what the operating system stores in [status]: the wait
    status from [waitpid] on POSIX, an [int]; the exit code from
    [GetExitCodeProcess] on Windows, a [DWORD]. *)
Definition wait_process (plat : Platform) (reported : Z) (proc : Z) : M unit :=
  let status :=
    match plat with
    | Posix =>
        if WaitStatus.WIFEXITED reported then WaitStatus.WEXITSTATUS reported else 1
    | Win32 => int_of_DWORD reported
    end in
  cleanup_process plat proc status.

(** *** read_process_output *)

(** The value of the local [char *buf]: never assigned, or the address of
    storage holding [data], with [below] the byte just under it. *)
Inductive Pointer :=
| Indeterminate
| Block (below : byte) (data : list byte).

(** [buf[i]] for a [size_t] index.  Index [SIZE_MAX] is what [*len - 1]
    becomes when [*len] is 0: the address wraps to the byte under the
    storage.  A [GString] is followed by a NUL. *)
Definition buf_at (buf : Pointer) (i : Z) : byte :=
  match buf with
  | Indeterminate => x00
  | Block below data =>
      if i =? SIZE_MAX then below else default x00 (data !! Z.to_nat i)
  end.

(** What the caller gets back: the returned pointer ([None] for NULL) and
    the final contents of [*len], [*error] and [*code]. *)
Record ReadResult := mkReadResult {
  r_buf : option Pointer;
  r_len : Z;
  r_error : option string;
  r_code : Z
}.

(** The two statements that decrement the length when the option is 'l' and
    the last byte is a line feed, and then when it is a carriage return: the
    new value of the length. *)
Definition strip_line_end (opt : ascii) (buf : Pointer) (len : Z) : Z :=
  let len :=
    if (opt =? "l")%char && Byte.eqb (buf_at buf (size_t_wrap (len - 1))) LF
    then size_t_wrap (len - 1) else len in
  if (opt =? "l")%char && Byte.eqb (buf_at buf (size_t_wrap (len - 1))) CR
  then size_t_wrap (len - 1) else len.

(** The last three statements.  The result is [None] when [err] is
    dereferenced while it is NULL: the status is neither normal nor
    end-of-file, and GLib has set no error. *)
Definition read_result (status : GIOStatus) (buf : Pointer) (len : Z) (err : option GError)
    (error : option string) (code : Z) : option ReadResult :=
  if status_eqb status G_IO_STATUS_EOF then Some (mkReadResult None len None code)
  else if negb (status_eqb status G_IO_STATUS_NORMAL) then
    match err with
    | Some (mkGError msg c) => Some (mkReadResult None len (Some msg) c)
    | None => None
    end
  else Some (mkReadResult (Some buf) len error code).

(** [opt] is the parameter [option] of the C function. *)
Definition read_process_output (proc : Z) (opt : ascii) (len : Z)
    (error : option string) (code : Z) : M (option ReadResult) :=
  let* pr := load proc in
  let* buffered := g_io_channel_get_buffered (cstdout pr) in
  when (negb buffered)
       (g_io_channel_set_buffered (cstdout pr) true) ;;; (* needed for manual read functions *)
  let* '(status, buf, len, err) :=
    if (opt =? "l")%char || (opt =? "L")%char then
      let* r := channel_read (cstdout pr) ReadLine in
      ret (rp_status r, Block (rp_below r) (rp_data r), rp_len r, rp_err r)
    else if (opt =? "a")%char then
      let* r := channel_read (cstdout pr) ReadToEnd in
      ret (if status_eqb (rp_status r) G_IO_STATUS_EOF then G_IO_STATUS_NORMAL
           else rp_status r,
           Block (rp_below r) (rp_data r), rp_len r, rp_err r)
    else if (opt =? "n")%char then
      let bytes := len in
      let* r := channel_read (cstdout pr) (ReadChars bytes) in
      ret (rp_status r, Block (rp_below r) (rp_data r), rp_len r, rp_err r)
    else ret (G_IO_STATUS_NORMAL, Indeterminate, len, None) in
  let* cond := g_io_channel_get_buffer_condition (cstdout pr) in
  when (Z.land cond G_IO_IN =? 0)
       (g_io_channel_set_buffered (cstdout pr) false) ;;; (* needed for stdout callback *)
  let len := strip_line_end opt buf len in
  ret (read_result status buf len err error code).

(** ** The host event loop

    One iteration of the GLib main context, as far as this code can see it:
    the sources found ready are dispatched one after the other, a source
    that was destroyed in the meantime is skipped, a watch whose callback
    returns false is destroyed, and a child watch is destroyed after it has
    fired once.  [rd_arg] is what GLib passes to the callback: the
    [GIOCondition] for a watch; for a child watch the status of the child,
    which is the wait status of [waitpid] on POSIX and the exit code on
    Windows. *)
Record Ready := mkReady { rd_id : Z; rd_arg : Z }.

Definition find_source (id : Z) : M (option Source) :=
  fun w => (List.find (fun s => src_id s =? id) (sources w), w).

Definition dispatch_one (plat : Platform) (r : Ready) : M unit :=
  let* found := find_source (rd_id r) in
  match found with
  | None => ret tt
  | Some s =>
      match src_kind s with
      | IOWatch c =>
          let* keep := read_channel c (rd_arg r) (src_data s) in
          when (negb keep) (let* _ := g_source_destroy (rd_id r) in ret tt)
      | ChildWatch _ =>
          proc_exited plat (rd_arg r) (src_data s) ;;;
          let* _ := g_source_destroy (rd_id r) in ret tt
      end
  end.

Fixpoint dispatch (plat : Platform) (ready : list Ready) : M unit :=
  match ready with
  | [] => ret tt
  | r :: rest => dispatch_one plat r ;;; dispatch plat rest
  end.

(** ** Observations on a world *)

(** How often the exit callback ran for [proc]. *)
Definition exits_of (proc : Z) (l : list Event) : nat :=
  length (List.filter (fun e => match e with EvExited p _ => p =? proc | _ => false end) l).

(** Sources registered with [proc] as their user data. *)
Definition sources_of (proc : Z) (l : list Source) : nat :=
  length (List.filter (fun s => src_data s =? proc) l).

(** What one pass of the [read_channel] loop shows to the outside: the read
    of [BUFSIZ] bytes and, for a non-empty chunk read with normal status, the
    call of the sink. *)
Definition chunk_events (source proc : Z) (is_stdout : bool) (r : Reply) : list Event :=
  EvRead source (ReadChars BUFSIZ) ::
  (if status_eqb (rp_status r) G_IO_STATUS_NORMAL && (0 <? rp_len r)
   then [EvOutput proc (rp_data r) is_stdout] else []).

(** The replies a drain of the channel consumes: every reply up to and
    including the first one shorter than [BUFSIZ] (the end-of-file reply when
    the script runs out). *)
Fixpoint reads_until_short (script : list Reply) : list Reply :=
  match script with
  | [] => [eof_reply]
  | r :: rest =>
      let r' := clip (ReadChars BUFSIZ) r in
      r' :: (if rp_len r' =? BUFSIZ then reads_until_short rest else [])
  end.


(** The read call a manual read makes for each mode, if any. *)
Definition read_call_of (opt : ascii) (len : Z) : option ReadCall :=
  if (opt =? "l")%char || (opt =? "L")%char then Some ReadLine
  else if (opt =? "a")%char then Some ReadToEnd
  else if (opt =? "n")%char then Some (ReadChars len)
  else None.

(** The status a manual read goes on with: read-to-end turns end-of-file
    into normal. *)
Definition reported_status (opt : ascii) (r : Reply) : GIOStatus :=
  if (opt =? "l")%char || (opt =? "L")%char then rp_status r
  else if (opt =? "a")%char then
    if status_eqb (rp_status r) G_IO_STATUS_EOF then G_IO_STATUS_NORMAL else rp_status r
  else rp_status r.

(** The line terminator at the end of a line, if it has one: a line feed,
    with the carriage return before it if there is one, or a lone carriage
    return. *)
Definition terminator (data : list byte) : list byte :=
  match rev data with
  | x :: before =>
      if Byte.eqb x LF then
        match before with
        | y :: _ => if Byte.eqb y CR then [CR; LF] else [LF]
        | [] => [LF]
        end
      else if Byte.eqb x CR then [CR]
      else []
  | [] => []
  end.

(** ** Concrete hosts and worlds

    Small closed inputs on which the code is run in the examples below. *)
Module Demo.

(** A host on which everything succeeds; the one command line it refuses
    to tokenize has an unbalanced quote. *)
Definition host : Host :=
  mkHost (fun cmd => if String.eqb cmd "echo 'hi" then inr "unbalanced quote"%string
                     else inl [cmd])
         (fun _ _ _ => None)
         (fun _ _ _ => None)
         "C:\Windows\system32\cmd.exe"
         (fun _ => []).

(** A host on which the child cannot be created. *)
Definition failing_host : Host :=
  mkHost (fun cmd => inl [cmd])
         (fun _ _ _ => Some "No such file or directory"%string)
         (fun _ _ _ => Some "The directory name is invalid."%string)
         "C:\Windows\system32\cmd.exe"
         (fun _ => []).

(** Descriptors 0, 1 and 2 are taken; the handle lives at address 100. *)
Definition w0 : World := mkWorld ∅ ∅ [] {[0; 1; 2]} 3 [].
Definition proc : Z := 100.

(** A full chunk of [BUFSIZ] bytes, a short one, and one that is not
    reached by the first drain. *)
Definition full_chunk : Reply :=
  mkReply G_IO_STATUS_NORMAL (replicate (Z.to_nat BUFSIZ) "A"%byte) None 0 x00.
Definition short_chunk : Reply :=
  mkReply G_IO_STATUS_NORMAL ["h"; "i"; LF]%byte None 0 x00.

(** A live handle whose stdout channel 7 has output waiting. *)
Definition busy : World :=
  mkWorld {[100 := mkProcess 3 4 5 6 0 7 9]}
          {[7 := mkChannel 5 false 1 0 [full_chunk; short_chunk; short_chunk];
            9 := mkChannel 6 false 1 0 []]}
          [mkSource 8 (IOWatch 7) 100; mkSource 10 (IOWatch 9) 100;
           mkSource 11 (ChildWatch 3) 100]
          {[0; 1; 2; 4; 5; 6]} 12 [].

(** A live handle whose stdout channel 7 will get [replies] on its next
    reads. *)
Definition reading (replies : list Reply) : World :=
  mkWorld {[100 := mkProcess 3 4 5 6 0 7 9]}
          {[7 := mkChannel 5 false 1 0 replies; 9 := mkChannel 6 false 1 0 []]}
          [mkSource 11 (ChildWatch 3) 100]
          {[0; 1; 2; 4; 5; 6]} 12 [].

(** A line read by [g_io_channel_read_line_string], with normal status. *)
Definition line (data : list byte) : Reply :=
  mkReply G_IO_STATUS_NORMAL data None 0 x00.

(** The same handle after [cleanup_process]. *)
Definition finished : World := exec (cleanup_process Posix proc 0) busy.

End Demo.

(** ** More of the process interface *)

(** *** close_process_input *)

Definition close_process_input (plat : Platform) (proc : Z) : M unit :=
  let* pr := load proc in
  match plat with
  | Posix => close (fstdin pr)
  | Win32 => CloseHandle (fstdin pr)
  end.

(** How often the write end of the stdin pipe, [h], was closed: with [close]
    on POSIX, with [CloseHandle] on Windows. *)
Definition stdin_closes (plat : Platform) (h : Z) (l : list Event) : nat :=
  length (List.filter (fun e => match plat, e with
                                | Posix, EvClose d => d =? h
                                | Win32, EvCloseHandle d => d =? h
                                | _, _ => false
                                end) l).

(** Whether a watch stays registered after [read_channel] has run for it:
    the handle is live, input was flagged, and no hang-up was. *)
Definition watch_stays (pr : Process) (cond : Z) : bool :=
  negb (pid pr =? 0) && negb (Z.land cond G_IO_IN =? 0) && (Z.land cond G_IO_HUP =? 0).

(** How often the output sink was called for [proc]. *)
Definition outputs_of (proc : Z) (l : list Event) : nat :=
  length (List.filter (fun e => match e with EvOutput p _ _ => p =? proc | _ => false end) l).

(** ** The find and replace history: [add_to_history]

    A [GtkListStore] with one string column is the list of its rows, the
    oldest first. *)
Definition add_to_history (store : list string) (text : string) : list string :=
  let n := Z.of_nat (length store) in
  (* keep 10 items *)
  let '(store, n) := if 9 <? n then (tail store, n - 1) else (store, n) in
  let last_text := if 0 <? n then store !! Z.to_nat (n - 1) else None in
  match last_text with
  | Some last_text => if String.eqb text last_text then store else store ++ [text]
  | None => store ++ [text]
  end.

(** No entry is followed by an equal one. *)
Fixpoint adjacent_distinct (l : list string) : Prop :=
  match l with
  | x :: (y :: _) as rest => x <> y /\ adjacent_distinct rest
  | _ => True
  end.

(** ** The search of the list dialog: [matches]

    A C string is given by the bytes that lie in memory from a pointer on:
    it ends before the first NUL, or where the list ends.  Moving a pointer
    forward drops bytes from the front. *)
Definition deref (p : list byte) : byte := hd x00 p.

Definition uchar (b : byte) : Z := Z.of_N (Byte.to_N b).

Definition SPACE : byte := " "%byte.

Section Matches.

(** [isupper(c) ? tolower(c) : c] in the locale in use. *)
Variable lower : byte -> byte.

(** GLib's [g_strncasecmp(s1, s2, n)]. *)
Fixpoint g_strncasecmp (s1 s2 : list byte) (n : nat) : Z :=
  match n with
  | O => 0
  | S n' =>
      let c1 := deref s1 in
      let c2 := deref s2 in
      if Byte.eqb c1 x00 || Byte.eqb c2 x00 then uchar c1 - uchar c2
      else if Byte.eqb (lower c1) (lower c2) then g_strncasecmp (tail s1) (tail s2) n'
      else uchar (lower c1) - uchar (lower c2)
  end.

(** [while ( *e && *e != ' ') e++;]: the pointer [e] after the loop. *)
Fixpoint word_end (e : list byte) : list byte :=
  match e with
  | c :: rest => if Byte.eqb c x00 || Byte.eqb c SPACE then e else word_end rest
  | [] => []
  end.

(** The inner [for] loop, which looks for the word of [n] bytes at [s] from
    [p] on: the new [match_pos] when it is found. *)
Fixpoint find_word (s : list byte) (n : nat) (p : list byte) : option (list byte) :=
  match p with
  | c :: rest =>
      if Byte.eqb c x00 then None
      else if g_strncasecmp s p n =? 0 then Some (drop n p)
      else find_word s n rest
  | [] => None
  end.

(** The outer [for (;;)] loop, one word of the key per pass; [fuel] bounds
    the number of passes. *)
Fixpoint matches_loop (fuel : nat) (s match_pos : list byte) : option Z :=
  match fuel with
  | O => None
  | S fuel' =>
      let e := word_end s in
      match find_word s (length s - length e) match_pos with
      | None => Some 1
      | Some match_pos' =>
          if Byte.eqb (deref e) x00 then Some 0
          else matches_loop fuel' (tail e) match_pos'
      end
  end.

(** [item] is the string [gtk_tree_model_get] fetches from the row.  A key
    has at most as many words as it has bytes, plus one. *)
Definition matches (key item : list byte) : option Z :=
  if Byte.eqb (deref key) x00 then Some 0 (* true *)
  else matches_loop (S (length key)) key item.

(** Two strings that differ in case only. *)
Definition same_fold (a b : list byte) : Prop := map lower a = map lower b.

(** The words of [ws] occur in [item] one after the other, without
    overlap; a word is looked for only where text is left. *)
Fixpoint in_order (ws : list (list byte)) (item : list byte) : Prop :=
  match ws with
  | [] => True
  | word :: ws' =>
      exists before found after,
        item = before ++ found ++ after
        /\ found ++ after <> []
        /\ same_fold found word
        /\ in_order ws' after
  end.

End Matches.

(** The pieces of [s] between the bytes [d]. *)
Fixpoint pieces (d : byte) (s : list byte) : list (list byte) :=
  match s with
  | [] => [[]]
  | c :: rest =>
      if Byte.eqb c d then [] :: pieces d rest
      else match pieces d rest with
           | piece :: ps => (c :: piece) :: ps
           | [] => [[c]]
           end
  end.

(** The words of a key. *)
Definition split_words (key : list byte) : list (list byte) := pieces SPACE key.

(** A proper C string holds no NUL. *)
Definition c_string (s : list byte) : Prop := Forall (fun c => c <> x00) s.

(** [isupper(c) ? tolower(c) : c] in the C locale: the letters A to Z go to
    a to z, every other byte stays. *)
Definition c_locale_lower (b : byte) : byte :=
  let n := Byte.to_N b in
  if ((65 <=? n) && (n <=? 90))%N then default b (Byte.of_N (n + 32)) else b.

(** ** Command lines of further instances: [process], [g_application_run]
    and [pipe_listener] *)

(** The bytes of the C string at a pointer. *)
Fixpoint c_str (p : list byte) : list byte :=
  match p with
  | c :: rest => if Byte.eqb c x00 then [] else c :: c_str rest
  | [] => []
  end.

(** A Lua table with integer keys and string values. *)
Definition LuaTable : Type := gmap Z (list byte).

(** [lua_pushstring(lua, s), lua_rawseti(lua, -2, k)]: a NULL pointer is
    pushed as nil, and storing nil clears the key. *)
Definition rawseti (k : Z) (s : option (list byte)) (t : LuaTable) : LuaTable :=
  match s with
  | Some v => <[k := v]> t
  | None => delete k t
  end.

(** [while (--argc) lua_pushstring(lua, argv[argc]), lua_rawseti(lua, -2, argc);]
    with [argc] the value of the variable when the loop is reached, which
    is more than 1 there. *)
Fixpoint store_arguments (argc : nat) (argv : list (list byte)) (t : LuaTable) : LuaTable :=
  match argc with
  | S argc' =>
      match argc' with
      | O => t
      | S _ => store_arguments argc' argv (rawseti (Z.of_nat argc') (argv !! argc') t)
      end
  | O => t
  end.

(** [g_strsplit(string, delimiter, 0)] for a delimiter of one byte: "the
    result of splitting the empty string is an empty vector". *)
Definition g_strsplit (string : list byte) (delimiter : byte) : list (list byte) :=
  match c_str string with
  | [] => []
  | s => pieces delimiter s
  end.

(** What GLib hands to the "command-line" handler on POSIX: the arguments
    of the other instance and its working directory, NULL when it is not
    known. *)
Record CommandLine := mkCommandLine {
  cl_arguments : list (list byte);
  cl_cwd : option (list byte)
}.

(** [process]: [lua] tells whether the Lua state exists, [line] is used on
    POSIX and [buf] on Windows.  The result is the table the "command_line"
    event is emitted with, if it is emitted, and whether the window is
    presented. *)
Definition process (plat : Platform) (lua : bool) (line : CommandLine) (buf : list byte)
    : option LuaTable * bool :=
  if negb lua then (None, false) (* only process argv for secondary/remote instances *)
  else
    let '(argv, cwd) :=
      match plat with
      | Posix => (cl_arguments line, cl_cwd line)
      | Win32 => let argv := g_strsplit buf LF in (argv, argv !! 0%nat)
      end in
    let argc := length argv in
    (if 1 <? Z.of_nat argc
     then Some (store_arguments argc argv (rawseti (-1) cwd ∅))
     else None,
     true).

(** The Windows replacement of [g_application_run]: the data of its
    [WriteFile] calls, in order.  [cwd] is what [GetCurrentDirectory]
    stored. *)
Definition g_application_run (cwd : list byte) (__argv : list (list byte))
    : list (list byte) :=
  (c_str cwd ++ [x00]) :: map (fun arg => c_str arg ++ [x00]) (drop 1 __argv).

(** The [ReadFile] loop of [pipe_listener].  [reads] lists what the
    successive calls find in the pipe; when it runs out the client has
    closed the pipe and [ReadFile] fails.  [room] is [buf + 65536 - 1 - p].
    The result is what lies between [buf] and [p] after the loop. *)
Fixpoint read_pipe (reads : list (list byte)) (room : nat) : list byte :=
  match reads with
  | [] => []
  | r :: rest =>
      match take room r with
      | [] => []
      | got => got ++ read_pipe rest (room - length got)
      end
  end.

Definition nul_to_newline (c : byte) : byte := if Byte.eqb c x00 then LF else c.

(** The buffer [pipe_listener] hands to [pipe_read], and so to [process].
    When nothing was read, [len = p - buf - 1] wraps around and the loop
    that follows runs far beyond the buffer: no result. *)
Definition pipe_listener (reads : list (list byte)) : option (list byte) :=
  match read_pipe reads (Z.to_nat 65535) with
  | [] => None
  | data =>
      let len := (length data - 1)%nat in
      (* but preserve trailing NUL *)
      Some (map nul_to_newline (take len data) ++ drop len data ++ [x00])
  end.

(** A host on which everything succeeds and whose child has written the
    line hi to each of its output pipes. *)
Definition talking_host : Host :=
  mkHost (fun cmd => inl [cmd])
         (fun _ _ _ => None)
         (fun _ _ _ => None)
         "C:\Windows\system32\cmd.exe"
         (fun _ => [Demo.line ["h"; "i"; LF]%byte]).
(** * Properties *)

(** ** Laws of the monad *)

Lemma exec_bind {A B} (m : M A) (k : A -> M B) (w : World) :
  exec (bind m k) w = exec (k (eval m w)) (exec m w).
Proof. unfold exec, eval, bind. destruct (m w); reflexivity. Qed.

Lemma eval_bind {A B} (m : M A) (k : A -> M B) (w : World) :
  eval (bind m k) w = eval (k (eval m w)) (exec m w).
Proof. unfold exec, eval, bind. destruct (m w); reflexivity. Qed.

Lemma run_eta {A} (m : M A) (w : World) : m w = (eval m w, exec m w).
Proof. unfold exec, eval. destruct (m w); reflexivity. Qed.

Lemma exec_ret {A} (a : A) (w : World) : exec (ret a) w = w.
Proof. reflexivity. Qed.

Lemma exec_when (b : bool) (m : M unit) (w : World) :
  exec (when b m) w = if b then exec m w else w.
Proof. destruct b; reflexivity. Qed.

Lemma log_emit (e : Event) (w : World) : log (exec (emit e) w) = log w ++ [e].
Proof. reflexivity. Qed.

Lemma BUFSIZ_pos : 0 < BUFSIZ.
Proof. reflexivity. Qed.

(** Exposes the fields of a world built by the setters. *)
Ltac world_simpl :=
  cbn [procs channels sources open_fds next_id log fst snd
       set_procs set_channels set_sources set_open_fds set_next_id set_log].

(** ** Channels *)

Lemma channel_at_alter (f : Channel -> Channel) (c : Z) (w : World) :
  f no_channel = no_channel ->
  channel_at (set_channels (fun m => alter f c m) w) c = f (channel_at w c).
Proof.
  intros Hf. unfold channel_at; simpl. rewrite lookup_alter_eq.
  destruct (channels w !! c); simpl; congruence.
Qed.


Lemma clip_len (count : Z) (r : Reply) :
  0 <= count -> rp_len (clip (ReadChars count) r) <= count.
Proof.
  intros H. unfold rp_len, clip; simpl. rewrite length_take. lia.
Qed.

Lemma channel_read_run (c : Z) (call : ReadCall) (w : World) :
  channel_read c call w =
  (clip call (next_reply (channel_at w c)),
   set_channels (fun m => alter after_read c m) (set_log (fun l => l ++ [EvRead c call]) w)).
Proof. reflexivity. Qed.

(** ** The Output Monitor: [read_channel] *)

Lemma reads_until_short_shape (script : list Reply) :
  exists front last,
    reads_until_short script = front ++ [last]
    /\ Forall (fun r => rp_len r = BUFSIZ) front
    /\ rp_len last < BUFSIZ.
Proof.
  induction script as [|r rest IH]; cbn [reads_until_short].
  - exists [], eof_reply. split; [reflexivity | split; [constructor | reflexivity]].
  - destruct (rp_len (clip (ReadChars BUFSIZ) r) =? BUFSIZ) eqn:E.
    + destruct IH as (front & last & -> & Hf & Hl).
      exists (clip (ReadChars BUFSIZ) r :: front), last.
      split; [reflexivity | split; [constructor; [lia | assumption] | assumption]].
    + exists [], (clip (ReadChars BUFSIZ) r).
      split; [reflexivity | split; [constructor |]].
      pose proof (clip_len BUFSIZ r ltac:(pose proof BUFSIZ_pos; lia)). lia.
Qed.

Lemma channel_read_effect (c : Z) (call : ReadCall) (w : World) :
  let w1 := exec (channel_read c call) w in
  eval (channel_read c call) w = clip call (next_reply (channel_at w c))
  /\ log w1 = log w ++ [EvRead c call]
  /\ procs w1 = procs w /\ sources w1 = sources w /\ open_fds w1 = open_fds w
  /\ channel_at w1 c = after_read (channel_at w c).
Proof.
  cbv zeta. unfold eval, exec. rewrite channel_read_run. cbn [fst snd].
  repeat (split; [reflexivity |]).
  rewrite channel_at_alter by reflexivity. reflexivity.
Qed.

(** One pass of the loop. *)
Lemma read_channel_loop_step (script : list Reply) (source proc : Z) (w : World) :
  let r := eval (channel_read source (ReadChars BUFSIZ)) w in
  let w1 := exec (channel_read source (ReadChars BUFSIZ)) w in
  let w2 := exec (when (status_eqb (rp_status r) G_IO_STATUS_NORMAL && (0 <? rp_len r))
                       (process_output proc (rp_data r) (source =? cstdout (proc_at w1 proc))))
                 w1 in
  read_channel_loop script source proc w =
  match script with
  | [] => (tt, w2)
  | _ :: rest =>
      if rp_len r =? BUFSIZ then read_channel_loop rest source proc w2 else (tt, w2)
  end.
Proof.
  cbv zeta. destruct script as [|r0 rest]; cbn [read_channel_loop]; unfold bind at 1;
    rewrite (run_eta (channel_read source (ReadChars BUFSIZ)) w);
    unfold bind at 1, load; unfold bind at 1;
    match goal with |- context [when ?b ?m ?w1] => rewrite (run_eta (when b m) w1) end;
    [reflexivity | destruct (_ =? BUFSIZ); reflexivity].
Qed.

Lemma reads_until_short_cons (r : Reply) (rest : list Reply) :
  reads_until_short (r :: rest) =
  clip (ReadChars BUFSIZ) r ::
  (if rp_len (clip (ReadChars BUFSIZ) r) =? BUFSIZ then reads_until_short rest else []).
Proof. reflexivity. Qed.

Lemma flat_map_one {A B} (f : A -> list B) (x : A) (l : list A) :
  flat_map f (x :: l) = f x ++ flat_map f l.
Proof. reflexivity. Qed.

Lemma read_channel_loop_run (script : list Reply) :
  forall (source proc : Z) (w : World),
    ch_replies (channel_at w source) = script ->
    let w' := exec (read_channel_loop script source proc) w in
    log w' = log w ++ flat_map (chunk_events source proc (source =? cstdout (proc_at w proc)))
                               (reads_until_short script)
    /\ procs w' = procs w /\ sources w' = sources w.
Proof.
  induction script as [|r rest IH]; intros source proc w Hs; cbv zeta;
    unfold exec at 1 2 3; rewrite read_channel_loop_step;
    destruct (channel_read_effect source (ReadChars BUFSIZ) w)
      as (Hr & Hl1 & Hp1 & Hs1 & _ & Hc1);
    rewrite Hr; unfold next_reply; rewrite Hs;
    set (w1 := exec (channel_read source (ReadChars BUFSIZ)) w) in *;
    assert (Hpr : proc_at w1 proc = proc_at w proc) by (unfold proc_at; rewrite Hp1; reflexivity);
    rewrite Hpr.
  - change (reads_until_short []) with [eof_reply].
    change (clip (ReadChars BUFSIZ) eof_reply) with eof_reply.
    rewrite flat_map_one. unfold chunk_events.
    cbn [rp_status rp_len rp_data eof_reply status_eqb andb when exec ret snd app flat_map].
    rewrite Hl1, Hp1, Hs1. rewrite ?app_nil_r. auto.
  - rewrite reads_until_short_cons, flat_map_one. unfold chunk_events at 1.
    set (r' := clip (ReadChars BUFSIZ) r).
    set (tag := source =? cstdout (proc_at w proc)).
    set (b := status_eqb (rp_status r') G_IO_STATUS_NORMAL && (0 <? rp_len r')).
    set (w2 := exec (when b (process_output proc (rp_data r') tag)) w1).
    assert (Hw2 : log w2 = log w ++ EvRead source (ReadChars BUFSIZ)
                               :: (if b then [EvOutput proc (rp_data r') tag] else [])
                  /\ procs w2 = procs w /\ sources w2 = sources w
                  /\ channel_at w2 source = channel_at w1 source).
    { subst w2. rewrite exec_when. destruct b.
      - unfold process_output. rewrite log_emit, Hl1, <- app_assoc.
        repeat (split; [first [reflexivity | assumption] |]). reflexivity.
      - rewrite Hl1. repeat (split; [first [reflexivity | assumption] |]). reflexivity. }
    destruct Hw2 as (Hl2 & Hp2 & Hs2 & Hc2).
    destruct (rp_len r' =? BUFSIZ).
    + assert (Hrest : ch_replies (channel_at w2 source) = rest).
      { rewrite Hc2, Hc1. unfold after_read. cbn [ch_replies]. rewrite Hs. reflexivity. }
      specialize (IH source proc w2 Hrest). cbv zeta in IH. unfold exec in IH.
      destruct IH as (IHl & IHp & IHs).
      assert (Hpr2 : proc_at w2 proc = proc_at w proc)
        by (unfold proc_at; rewrite Hp2; reflexivity).
      rewrite Hpr2 in IHl. fold tag in IHl.
      rewrite IHl, IHp, IHs, Hl2, Hp2, Hs2.
      split; [| auto]. rewrite <- app_assoc. reflexivity.
    + cbn [snd]. rewrite Hl2, Hp2, Hs2. change (flat_map _ []) with (@nil Event).
      rewrite app_nil_r. auto.
Qed.

(** C4.  On a readiness notification for input on a live handle,
    [read_channel] reads [BUFSIZ] bytes at a time and stops after the first
    read that returns fewer than [BUFSIZ] bytes (zero bytes included); every
    non-empty chunk read with normal status goes to [process_output], tagged
    true when the source is the handle's stdout channel and false otherwise;
    the watch stays registered unless the condition carries a hang-up. *)
Theorem read_channel_drains (source cond proc : Z) (w : World) :
  pid (proc_at w proc) <> 0 ->
  Z.land cond G_IO_IN <> 0 ->
  let reads := reads_until_short (ch_replies (channel_at w source)) in
  let is_stdout := source =? cstdout (proc_at w proc) in
  log (exec (read_channel source cond proc) w)
    = log w ++ flat_map (chunk_events source proc is_stdout) reads
  /\ (exists front last,
        reads = front ++ [last]
        /\ Forall (fun r => rp_len r = BUFSIZ) front
        /\ rp_len last < BUFSIZ)
  /\ eval (read_channel source cond proc) w = (Z.land cond G_IO_HUP =? 0).
Proof.
  intros Hpid Hin reads is_stdout.
  destruct (read_channel_loop_run (ch_replies (channel_at w source)) source proc w eq_refl)
    as (Hlog & Hprocs & _).
  assert (Hrun : read_channel source cond proc w =
                 (Z.land cond G_IO_HUP =? 0,
                  exec (read_channel_loop (ch_replies (channel_at w source)) source proc) w)).
  { unfold read_channel, bind, load.
    apply Z.eqb_neq in Hpid, Hin. rewrite Hpid, Hin. cbn [orb].
    rewrite (run_eta (read_channel_loop _ _ _) w).
    unfold proc_at at 1. rewrite Hprocs. fold (proc_at w proc).
    rewrite Hpid. reflexivity. }
  split; [| split].
  - unfold exec at 1. rewrite Hrun. exact Hlog.
  - apply reads_until_short_shape.
  - unfold eval. rewrite Hrun. reflexivity.
Qed.

Lemma read_channel_drains_witness :
  log (exec (read_channel 7 G_IO_IN Demo.proc) Demo.busy)
  = [EvRead 7 (ReadChars BUFSIZ);
     EvOutput 100 (replicate (Z.to_nat BUFSIZ) "A"%byte) true;
     EvRead 7 (ReadChars BUFSIZ);
     EvOutput 100 ["h"; "i"; LF]%byte true].
Proof.
  refine (eq_trans
    (proj1 (read_channel_drains 7 G_IO_IN Demo.proc Demo.busy _ _)) _).
  - vm_compute. lia.
  - vm_compute. lia.
  - vm_compute. reflexivity.
Defined.

(** C8.  When the handle's [pid] is already 0, [read_channel] returns false
    at once: nothing is read from the channel, nothing reaches the sink, and
    the world is left exactly as it was. *)
Theorem read_channel_dead_handle (source cond proc : Z) (w : World) :
  pid (proc_at w proc) = 0 ->
  read_channel source cond proc w = (false, w).
Proof.
  intros H. unfold read_channel, bind, load. rewrite H. reflexivity.
Qed.

Lemma read_channel_dead_handle_witness :
  pid (proc_at Demo.finished Demo.proc) = 0
  /\ read_channel 7 (Z.lor G_IO_IN G_IO_HUP) Demo.proc Demo.finished = (false, Demo.finished).
Proof.
  split.
  - vm_compute. reflexivity.
  - apply (read_channel_dead_handle 7 (Z.lor G_IO_IN G_IO_HUP) Demo.proc Demo.finished).
    vm_compute. reflexivity.
Defined.

(** ** Sources and the Cleanup Coordinator *)

Lemma take_source_none (f : Source -> bool) (l rest : list Source) :
  take_source f l = (None, rest) -> rest = l /\ Forall (fun s => f s = false) l.
Proof.
  revert rest. induction l as [|s l IH]; intros rest; cbn [take_source].
  - intros [= <-]. split; [reflexivity | constructor].
  - destruct (f s) eqn:E; [discriminate |].
    destruct (take_source f l) as [found rest'] eqn:Et.
    intros [= -> <-]. destruct (IH rest' eq_refl) as [-> Hall].
    split; [reflexivity | constructor; assumption].
Qed.


Lemma remove_source_run (f : Source -> bool) (w : World) :
  let w' := exec (remove_source f) w in
  sources w' = (take_source f (sources w)).2
  /\ procs w' = procs w /\ log w' = log w
  /\ open_fds w' = open_fds w /\ next_id w' = next_id w.
Proof.
  unfold remove_source, exec.
  destruct (take_source f (sources w)) as [[s|] rest] eqn:Et; cbn.
  - unfold finalize_source. destruct (src_kind s); cbn; [| auto 6].
    unfold g_io_channel_unref.
    destruct (channels _ !! channel) as [ch|]; cbn; [| auto 6].
    destruct (ch_refs ch) as [|[|n]]; cbn; auto 6.
  - apply take_source_none in Et as [-> _]. auto 6.
Qed.

(** The body of [cleanup_process], whatever the handle's [pid] is: up to
    three sources of the handle go, the pid is cleared, the three endpoints
    are closed, the status is stored and the exit callback runs. *)
Lemma cleanup_process_run (plat : Platform) (proc status : Z) (w : World) :
  let w' := exec (cleanup_process plat proc status) w in
  let pr := proc_at w proc in
  let by_data := fun s => src_data s =? proc in
  log w' = log w ++
    [EvClosePid (pid pr);
     match plat with Posix => EvClose (fstdin pr) | Win32 => EvCloseHandle (fstdin pr) end;
     EvClose (fstdout pr); EvClose (fstderr pr); EvExited proc status]
  /\ proc_at w' proc = set_exit_status status (set_pid 0 pr)
  /\ sources w' =
     (take_source by_data (take_source by_data (take_source by_data (sources w)).2).2).2
  /\ (forall q, q <> proc -> proc_at w' q = proc_at w q).
Proof.
  cbv zeta. unfold cleanup_process, g_source_remove_by_user_data.
  set (f := fun s => src_data s =? proc).
  do 3 (rewrite exec_bind; cbv beta).
  destruct (remove_source_run f w) as (Hs1 & Hp1 & Hl1 & _).
  destruct (remove_source_run f (exec (remove_source f) w)) as (Hs2 & Hp2 & Hl2 & _).
  destruct (remove_source_run f (exec (remove_source f) (exec (remove_source f) w)))
    as (Hs3 & Hp3 & Hl3 & _).
  set (w3 := exec (remove_source f) (exec (remove_source f) (exec (remove_source f) w))) in *.
  assert (Hpr : forall q, proc_at w3 q = proc_at w q).
  { intros q. unfold proc_at. rewrite Hp3, Hp2, Hp1. reflexivity. }
  assert (Hl : log w3 = log w) by (rewrite Hl3, Hl2, Hl1; reflexivity).
  assert (Hsrc : sources w3 = (take_source f (take_source f (take_source f (sources w)).2).2).2)
    by (rewrite Hs3, Hs2, Hs1; reflexivity).
  clearbody w3. clear Hs1 Hs2 Hs3 Hp1 Hp2 Hp3 Hl1 Hl2 Hl3.
  pose proof Hpr as Hpr'. unfold proc_at in Hpr'.
  destruct plat; unfold exec, bind, load; cbn;
    rewrite ?Hl, <- ?Hsrc, ?(Hpr proc), <- ?app_assoc; cbn;
    (split; [reflexivity | split; [| split; [reflexivity |]]]).
  all: unfold proc_at; cbn; rewrite ?lookup_insert_eq, ?Hpr'; try reflexivity.
  all: intros q Hq; rewrite !lookup_insert_ne by congruence; apply Hpr'.
Qed.

(** ** The Exit Monitor: [proc_exited] and [wait_process] *)

Lemma WIFEXITED_encode (o : WaitStatus.Outcome) :
  WaitStatus.WIFEXITED (WaitStatus.encode o) =
  match o with
  | WaitStatus.Exited _ => true
  | WaitStatus.Signaled s => Z.land s 127 =? 0
  end.
Proof.
  destruct o as [c|s]; unfold WaitStatus.WIFEXITED, WaitStatus.encode.
  - apply Z.eqb_eq. change 127 with (Z.ones 7).
    rewrite Z.land_ones by lia. rewrite Z.shiftl_mul_pow2 by lia.
    change (2 ^ 8) with (2 * 2 ^ 7). rewrite Z.mul_assoc. apply Z.mod_mul. lia.
  - rewrite <- Z.land_assoc. reflexivity.
Qed.

Lemma WEXITSTATUS_encode (c : Z) :
  0 <= c < 256 ->
  WaitStatus.WEXITSTATUS (WaitStatus.encode (WaitStatus.Exited c)) = c.
Proof.
  intros H. unfold WaitStatus.WEXITSTATUS, WaitStatus.encode.
  rewrite Z.shiftr_shiftl_l by lia. change (8 - 8) with 0. rewrite Z.shiftl_0_r.
  rewrite <- Z.land_assoc. change (Z.land 255 255) with (Z.ones 8).
  rewrite Z.land_ones by lia. apply Z.mod_small. lia.
Qed.

(** The synchronous path normalizes: the exit code of a child that exited,
    1 for a child that a signal killed. *)
Lemma wait_process_normalizes (o : WaitStatus.Outcome) (proc : Z) (w : World) :
  match o with
  | WaitStatus.Exited c => 0 <= c < 256
  | WaitStatus.Signaled s => 0 < s < 128
  end ->
  eval (get_process_exit_status proc)
       (exec (wait_process Posix (WaitStatus.encode o) proc) w)
  = match o with WaitStatus.Exited c => c | WaitStatus.Signaled _ => 1 end.
Proof.
  intros H. unfold wait_process. rewrite WIFEXITED_encode.
  unfold get_process_exit_status, eval, bind, load; cbn [fst ret].
  destruct o as [c|s].
  - rewrite WEXITSTATUS_encode by assumption.
    destruct (cleanup_process_run Posix proc c w) as (_ & -> & _). reflexivity.
  - assert (E : (Z.land s 127 =? 0) = false).
    { apply Z.eqb_neq. change 127 with (Z.ones 7). rewrite Z.land_ones by lia.
      rewrite Z.mod_small by (change (2 ^ 7) with 128; lia). lia. }
    rewrite E.
    destruct (cleanup_process_run Posix proc 1 w) as (_ & -> & _). reflexivity.
Qed.

(** C3.  What the code does on the child-watch path: [proc_exited] hands the
    status it receives to [cleanup_process] as it is.  On POSIX that is the
    wait status, so a child that exits with code 3 is reported as 768 and a
    child killed by signal 9 as 9, where [wait_process] reports 3 and 1. *)
Theorem proc_exited_reports_raw_wait_status :
  (forall (plat : Platform) (proc reported : Z) (w : World),
      let w' := exec (proc_exited plat reported proc) w in
      eval (get_process_exit_status proc) w' = reported
      /\ exists before, log w' = before ++ [EvExited proc reported])
  /\ (let exit3 := WaitStatus.encode (WaitStatus.Exited 3) in
      let w' := exec (dispatch Posix [mkReady 11 exit3]) Demo.busy in
      eval (get_process_exit_status Demo.proc) w' = 768
      /\ log w' = [EvClosePid 3; EvClose 4; EvClose 5; EvClose 6; EvExited 100 768]
      /\ eval (get_process_exit_status Demo.proc)
              (exec (wait_process Posix exit3 Demo.proc) Demo.busy) = 3)
  /\ (let kill9 := WaitStatus.encode (WaitStatus.Signaled 9) in
      let w' := exec (dispatch Posix [mkReady 11 kill9]) Demo.busy in
      eval (get_process_exit_status Demo.proc) w' = 9
      /\ eval (get_process_exit_status Demo.proc)
              (exec (wait_process Posix kill9 Demo.proc) Demo.busy) = 1).
Proof.
  split; [| split].
  - intros plat proc reported w. cbv zeta. unfold proc_exited.
    destruct (cleanup_process_run plat proc reported w) as (Hlog & Hpr & _).
    split.
    + unfold get_process_exit_status, eval, bind, load; cbn [fst ret].
      rewrite Hpr. reflexivity.
    + rewrite Hlog.
      eexists (log w ++ [_; _; _; _]). rewrite <- app_assoc. reflexivity.
  - vm_compute. auto.
  - vm_compute. auto.
Qed.

(** ** The Spawner *)

Lemma new_channel_run (host : Host) (fd proc : Z) (watch : bool) (w : World) :
  let c := next_id w in
  let w' := exec (new_channel host fd proc watch) w in
  eval (new_channel host fd proc watch) w = c
  /\ channels w' = <[c := mkChannel fd false 1 0 (incoming host fd)]> (channels w)
  /\ sources w' = sources w ++ (if watch then [mkSource (Z.succ c) (IOWatch c) proc] else [])
  /\ next_id w' = (if watch then Z.succ (Z.succ c) else Z.succ c)
  /\ procs w' = procs w
  /\ open_fds w' = open_fds w
  /\ log w' = log w ++ [EvSetBuffered c false].
Proof.
  cbv zeta. unfold new_channel, eval, exec, bind, g_io_channel_new, fresh; cbn.
  destruct watch; cbn.
  - unfold g_io_channel_unref; world_simpl.
    rewrite !alter_insert_eq, lookup_insert_eq; cbn. world_simpl.
    rewrite ?alter_insert_eq, ?insert_insert_eq. repeat split.
  - world_simpl. rewrite alter_insert_eq, app_nil_r. repeat split.
Qed.

Lemma spawn_monitor_run (host : Host) (proc : Z) (ms me : bool) (w : World) :
  let pr := proc_at w proc in
  let c1 := next_id w in
  let c2 := if ms then Z.succ (Z.succ c1) else Z.succ c1 in
  let id3 := if me then Z.succ (Z.succ c2) else Z.succ c2 in
  let w' := exec (spawn_monitor host proc ms me) w in
  eval (spawn_monitor host proc ms me) w = (true, None)
  /\ proc_at w' proc = set_cstderr c2 (set_cstdout c1 pr)
  /\ channels w' =
     <[c2 := mkChannel (fstderr pr) false 1 0 (incoming host (fstderr pr))]>
       (<[c1 := mkChannel (fstdout pr) false 1 0 (incoming host (fstdout pr))]> (channels w))
  /\ sources w' =
     sources w ++ (if ms then [mkSource (Z.succ c1) (IOWatch c1) proc] else [])
               ++ (if me then [mkSource (Z.succ c2) (IOWatch c2) proc] else [])
               ++ [mkSource id3 (ChildWatch (pid pr)) proc]
  /\ open_fds w' = open_fds w
  /\ log w' = log w ++ [EvSetBuffered c1 false; EvSetBuffered c2 false].
Proof.
  cbv zeta. unfold spawn_monitor, eval, exec, bind, load.
  set (pr := proc_at w proc).
  rewrite (run_eta (new_channel host (fstdout pr) proc ms) w).
  destruct (new_channel_run host (fstdout pr) proc ms w) as (E1 & C1 & S1 & N1 & P1 & O1 & L1).
  rewrite E1. set (w1 := exec (new_channel host (fstdout pr) proc ms) w) in *. clearbody w1.
  unfold store. cbv beta iota.
  set (w2 := set_procs _ w1).
  assert (Hpr2 : proc_at w2 proc = set_cstdout (next_id w) pr).
  { unfold w2, proc_at; cbn. rewrite lookup_insert_eq. cbn.
    unfold pr, proc_at. rewrite ?P1. reflexivity. }
  rewrite ?Hpr2. cbn [fstderr set_cstdout].
  rewrite (run_eta (new_channel host (fstderr pr) proc me) w2).
  destruct (new_channel_run host (fstderr pr) proc me w2) as (E2 & C2 & S2 & N2 & P2 & O2 & L2).
  rewrite E2. set (w3 := exec (new_channel host (fstderr pr) proc me) w2) in *. clearbody w3.
  cbv beta iota.
  unfold g_child_watch_add, bind, fresh, modify, ret. cbv beta iota.
  assert (Hpw3 : default zeroed (procs w3 !! proc) = set_cstdout (next_id w) pr).
  { rewrite P2. exact Hpr2. }
  subst w2.
  cbn [procs channels sources open_fds next_id log set_procs] in C2, S2, N2, O2, L2.
  unfold proc_at. world_simpl. rewrite !lookup_insert_eq. cbn [default].
  rewrite Hpw3, C2, C1, S2, S1, O2, O1, L2, L1, N2, N1.
  cbn [pid set_cstdout set_cstderr fst snd].
  rewrite <- !app_assoc.
  repeat split.
Qed.

(** [spawn] either fails in its platform arm, or reaches [spawn_monitor] in
    the world that arm leaves, which does not depend on the two flags. *)
Lemma spawn_cases (plat : Platform) (host : Host) (proc : Z) (cmd : string)
    (cwd : option string) (envi : option (list string)) (ms me : bool) (w : World) :
  let arm := match plat with
             | Posix => spawn_posix host proc cmd cwd envi
             | Win32 => spawn_win32 host proc cmd cwd envi
             end in
  spawn plat host proc cmd cwd envi ms me w =
  match eval arm w with
  | Some msg => ((false, Some msg), exec arm w)
  | None => spawn_monitor host proc ms me (exec arm w)
  end.
Proof.
  cbv zeta. unfold spawn, bind.
  rewrite (run_eta (match plat with
                    | Posix => spawn_posix host proc cmd cwd envi
                    | Win32 => spawn_win32 host proc cmd cwd envi
                    end) w).
  destruct (eval _ w); reflexivity.
Qed.

(** *** Stepping through a computation

    [bind_run] runs the first action of a sequence; the equations of the
    primitives are in the rewrite database [world]. *)
Lemma bind_run {A B} (m : M A) (k : A -> M B) (w w1 : World) (a : A) (r : B * World) :
  m w = (a, w1) -> k a w1 = r -> bind m k w = r.
Proof. intros H1 H2. unfold bind. rewrite H1. exact H2. Qed.

Lemma fresh_run (w : World) : fresh w = (next_id w, set_next_id Z.succ w).
Proof. reflexivity. Qed.

Lemma modify_run (f : World -> World) (w : World) : modify f w = (tt, f w).
Proof. reflexivity. Qed.

Lemma emit_run (e : Event) (w : World) : emit e w = (tt, set_log (fun l => l ++ [e]) w).
Proof. reflexivity. Qed.

Lemma load_run (p : Z) (w : World) : load p w = (proc_at w p, w).
Proof. reflexivity. Qed.

Lemma store_run (p : Z) (f : Process -> Process) (w : World) :
  store p f w = (tt, set_procs (fun m => <[p := f (proc_at w p)]> m) w).
Proof. reflexivity. Qed.

Lemma open_new_run (w : World) :
  open_new w =
  (next_id w, set_open_fds (fun s => {[next_id w]} ∪ s) (set_next_id Z.succ w)).
Proof. reflexivity. Qed.

Lemma CreatePipe_run (w : World) :
  CreatePipe w =
  ((next_id w, Z.succ (next_id w)),
   set_open_fds (fun s => {[Z.succ (next_id w)]} ∪ s) (set_next_id Z.succ
     (set_open_fds (fun s => {[next_id w]} ∪ s) (set_next_id Z.succ w)))).
Proof. reflexivity. Qed.

Lemma _open_osfhandle_run (h : Z) (w : World) :
  _open_osfhandle h w =
  (next_id w, set_open_fds (fun s => {[next_id w]} ∪ (s ∖ {[h]})) (set_next_id Z.succ w)).
Proof. reflexivity. Qed.

Lemma CloseHandle_run (h : Z) (w : World) :
  CloseHandle h w =
  (tt, set_open_fds (fun s => s ∖ {[h]}) (set_log (fun l => l ++ [EvCloseHandle h]) w)).
Proof. reflexivity. Qed.

Lemma close_run (fd : Z) (w : World) :
  close fd w =
  (tt, set_open_fds (fun s => s ∖ {[fd]}) (set_log (fun l => l ++ [EvClose fd]) w)).
Proof. reflexivity. Qed.

Lemma ret_run {A} (a : A) (w : World) : ret a w = (a, w).
Proof. reflexivity. Qed.

(** Projections of a world through the setters. *)
Lemma procs_set_procs f w : procs (set_procs f w) = f (procs w). Proof. reflexivity. Qed.
Lemma procs_set_channels f w : procs (set_channels f w) = procs w. Proof. reflexivity. Qed.
Lemma procs_set_sources f w : procs (set_sources f w) = procs w. Proof. reflexivity. Qed.
Lemma procs_set_open_fds f w : procs (set_open_fds f w) = procs w. Proof. reflexivity. Qed.
Lemma procs_set_next_id f w : procs (set_next_id f w) = procs w. Proof. reflexivity. Qed.
Lemma procs_set_log f w : procs (set_log f w) = procs w. Proof. reflexivity. Qed.
Lemma channels_set_procs f w : channels (set_procs f w) = channels w. Proof. reflexivity. Qed.
Lemma channels_set_channels f w : channels (set_channels f w) = f (channels w). Proof. reflexivity. Qed.
Lemma channels_set_sources f w : channels (set_sources f w) = channels w. Proof. reflexivity. Qed.
Lemma channels_set_open_fds f w : channels (set_open_fds f w) = channels w. Proof. reflexivity. Qed.
Lemma channels_set_next_id f w : channels (set_next_id f w) = channels w. Proof. reflexivity. Qed.
Lemma channels_set_log f w : channels (set_log f w) = channels w. Proof. reflexivity. Qed.
Lemma sources_set_procs f w : sources (set_procs f w) = sources w. Proof. reflexivity. Qed.
Lemma sources_set_channels f w : sources (set_channels f w) = sources w. Proof. reflexivity. Qed.
Lemma sources_set_sources f w : sources (set_sources f w) = f (sources w). Proof. reflexivity. Qed.
Lemma sources_set_open_fds f w : sources (set_open_fds f w) = sources w. Proof. reflexivity. Qed.
Lemma sources_set_next_id f w : sources (set_next_id f w) = sources w. Proof. reflexivity. Qed.
Lemma sources_set_log f w : sources (set_log f w) = sources w. Proof. reflexivity. Qed.
Lemma open_fds_set_procs f w : open_fds (set_procs f w) = open_fds w. Proof. reflexivity. Qed.
Lemma open_fds_set_channels f w : open_fds (set_channels f w) = open_fds w. Proof. reflexivity. Qed.
Lemma open_fds_set_sources f w : open_fds (set_sources f w) = open_fds w. Proof. reflexivity. Qed.
Lemma open_fds_set_open_fds f w : open_fds (set_open_fds f w) = f (open_fds w). Proof. reflexivity. Qed.
Lemma open_fds_set_next_id f w : open_fds (set_next_id f w) = open_fds w. Proof. reflexivity. Qed.
Lemma open_fds_set_log f w : open_fds (set_log f w) = open_fds w. Proof. reflexivity. Qed.
Lemma next_id_set_procs f w : next_id (set_procs f w) = next_id w. Proof. reflexivity. Qed.
Lemma next_id_set_channels f w : next_id (set_channels f w) = next_id w. Proof. reflexivity. Qed.
Lemma next_id_set_sources f w : next_id (set_sources f w) = next_id w. Proof. reflexivity. Qed.
Lemma next_id_set_open_fds f w : next_id (set_open_fds f w) = next_id w. Proof. reflexivity. Qed.
Lemma next_id_set_next_id f w : next_id (set_next_id f w) = f (next_id w). Proof. reflexivity. Qed.
Lemma next_id_set_log f w : next_id (set_log f w) = next_id w. Proof. reflexivity. Qed.
Lemma log_set_procs f w : log (set_procs f w) = log w. Proof. reflexivity. Qed.
Lemma log_set_channels f w : log (set_channels f w) = log w. Proof. reflexivity. Qed.
Lemma log_set_sources f w : log (set_sources f w) = log w. Proof. reflexivity. Qed.
Lemma log_set_open_fds f w : log (set_open_fds f w) = log w. Proof. reflexivity. Qed.
Lemma log_set_next_id f w : log (set_next_id f w) = log w. Proof. reflexivity. Qed.
Lemma log_set_log f w : log (set_log f w) = f (log w). Proof. reflexivity. Qed.

Lemma proc_at_set_procs p x w :
  proc_at (set_procs (fun m => <[p := x]> m) w) p = x.
Proof. unfold proc_at. rewrite procs_set_procs, lookup_insert_eq. reflexivity. Qed.
Lemma proc_at_set_procs_ne p q x w :
  p <> q -> proc_at (set_procs (fun m => <[p := x]> m) w) q = proc_at w q.
Proof. intros H. unfold proc_at. rewrite procs_set_procs, lookup_insert_ne by exact H. reflexivity. Qed.
Lemma proc_at_set_channels f w p : proc_at (set_channels f w) p = proc_at w p.
Proof. reflexivity. Qed.
Lemma proc_at_set_sources f w p : proc_at (set_sources f w) p = proc_at w p.
Proof. reflexivity. Qed.
Lemma proc_at_set_open_fds f w p : proc_at (set_open_fds f w) p = proc_at w p.
Proof. reflexivity. Qed.
Lemma proc_at_set_next_id f w p : proc_at (set_next_id f w) p = proc_at w p.
Proof. reflexivity. Qed.
Lemma proc_at_set_log f w p : proc_at (set_log f w) p = proc_at w p.
Proof. reflexivity. Qed.

Lemma channel_at_set_procs f w c : channel_at (set_procs f w) c = channel_at w c.
Proof. reflexivity. Qed.
Lemma channel_at_set_sources f w c : channel_at (set_sources f w) c = channel_at w c.
Proof. reflexivity. Qed.
Lemma channel_at_set_open_fds f w c : channel_at (set_open_fds f w) c = channel_at w c.
Proof. reflexivity. Qed.
Lemma channel_at_set_next_id f w c : channel_at (set_next_id f w) c = channel_at w c.
Proof. reflexivity. Qed.
Lemma channel_at_set_log f w c : channel_at (set_log f w) c = channel_at w c.
Proof. reflexivity. Qed.

Create Rewrite HintDb world.
#[local] Hint Rewrite
  procs_set_procs procs_set_channels procs_set_sources procs_set_open_fds procs_set_next_id
  procs_set_log channels_set_procs channels_set_channels channels_set_sources
  channels_set_open_fds channels_set_next_id channels_set_log sources_set_procs
  sources_set_channels sources_set_sources sources_set_open_fds sources_set_next_id
  sources_set_log open_fds_set_procs open_fds_set_channels open_fds_set_sources
  open_fds_set_open_fds open_fds_set_next_id open_fds_set_log next_id_set_procs
  next_id_set_channels next_id_set_sources next_id_set_open_fds next_id_set_next_id
  next_id_set_log log_set_procs log_set_channels log_set_sources log_set_open_fds
  log_set_next_id log_set_log
  proc_at_set_procs proc_at_set_channels proc_at_set_sources proc_at_set_open_fds
  proc_at_set_next_id proc_at_set_log
  channel_at_set_procs channel_at_set_sources channel_at_set_open_fds
  channel_at_set_next_id channel_at_set_log : world.

(** One step: run the first action with the equation of its primitive. *)
Ltac prim :=
  lazymatch goal with
  | |- fresh _ = _ => apply fresh_run
  | |- modify _ _ = _ => apply modify_run
  | |- emit _ _ = _ => apply emit_run
  | |- load _ _ = _ => apply load_run
  | |- store _ _ _ = _ => apply store_run
  | |- open_new _ = _ => apply open_new_run
  | |- CreatePipe _ = _ => apply CreatePipe_run
  | |- _open_osfhandle _ _ = _ => apply _open_osfhandle_run
  | |- CloseHandle _ _ = _ => apply CloseHandle_run
  | |- close _ _ = _ => apply close_run
  | |- ret _ _ = _ => apply ret_run
  end.

Ltac step := eapply bind_run; [ prim | cbv beta iota; autorewrite with world ].

(** Turns [Z.succ] towers over [n] into [n + k]. *)
Ltac succ_to_plus n :=
  replace (Z.succ n) with (n + 1) in * by lia;
  replace (Z.succ (n + 1)) with (n + 2) in * by lia;
  replace (Z.succ (n + 2)) with (n + 3) in * by lia;
  replace (Z.succ (n + 3)) with (n + 4) in * by lia;
  replace (Z.succ (n + 4)) with (n + 5) in * by lia;
  replace (Z.succ (n + 5)) with (n + 6) in * by lia;
  replace (Z.succ (n + 6)) with (n + 7) in * by lia;
  replace (Z.succ (n + 7)) with (n + 8) in * by lia;
  replace (Z.succ (n + 8)) with (n + 9) in * by lia;
  replace (Z.succ (n + 9)) with (n + 10) in * by lia.

(** Runs a straight-line computation on a symbolic world. *)
Ltac run_monad :=
  unfold eval, exec;
  cbn [bind ret when modify emit fresh load store open_new CreatePipe CreateProcessA
       _open_osfhandle CloseHandle close g_spawn_close_pid process_exited process_output
       fst snd
       procs channels sources open_fds next_id log
       set_procs set_channels set_sources set_open_fds set_next_id set_log].

Lemma spawn_posix_run (host : Host) (proc : Z) (cmd : string) (cwd : option string)
    (envi : option (list string)) (w : World) :
  let w1 := exec (spawn_posix host proc cmd cwd envi) w in
  match g_shell_parse_argv host cmd with
  | inr msg => spawn_posix host proc cmd cwd envi w = (Some msg, w)
  | inl argv =>
      match g_spawn_error host cwd argv envi with
      | Some msg => spawn_posix host proc cmd cwd envi w = (Some msg, w)
      | None =>
          let n := next_id w in
          eval (spawn_posix host proc cmd cwd envi) w = None
          /\ proc_at w1 proc =
             set_fstderr (n + 3) (set_fstdout (n + 2) (set_fstdin (n + 1)
               (set_pid n (proc_at w proc))))
          /\ sources w1 = sources w /\ channels w1 = channels w /\ log w1 = log w
          /\ next_id w1 = n + 4
          /\ open_fds w1 = {[n + 3]} ∪ ({[n + 2]} ∪ ({[n + 1]} ∪ open_fds w))
      end
  end.
Proof.
  cbv zeta. unfold spawn_posix.
  destruct (g_shell_parse_argv host cmd) as [argv|msg]; [| reflexivity].
  unfold g_spawn_async_with_pipes.
  destruct (g_spawn_error host cwd argv envi) as [msg|]; [reflexivity |].
  run_monad.
  replace (Z.succ (next_id w)) with (next_id w + 1) by lia.
  replace (Z.succ (next_id w + 1)) with (next_id w + 2) by lia.
  replace (Z.succ (next_id w + 2)) with (next_id w + 3) by lia.
  replace (Z.succ (next_id w + 3)) with (next_id w + 4) by lia.
  repeat (split; [reflexivity |]).
  split; [| repeat (split; [reflexivity |]); reflexivity].
  unfold proc_at. run_monad. rewrite !lookup_insert_eq. reflexivity.
Qed.

Lemma spawn_win32_run (host : Host) (proc : Z) (cmd : string) (cwd : option string)
    (envi : option (list string)) (w : World) :
  let w1 := exec (spawn_win32 host proc cmd cwd envi) w in
  let n := next_id w in
  match CreateProcessA_error host (COMSPEC host ++ " /c " ++ cmd) cwd envi with
  | Some msg =>
      eval (spawn_win32 host proc cmd cwd envi) w = Some msg
      /\ proc_at w1 proc = set_fstdin (n + 1) (proc_at w proc)
      /\ sources w1 = sources w /\ channels w1 = channels w /\ log w1 = log w
      /\ next_id w1 = n + 6
      /\ open_fds w1 =
         {[n + 5]} ∪ ({[n + 4]} ∪ ({[n + 3]} ∪ ({[n + 2]} ∪ ({[n + 1]} ∪ ({[n]} ∪ open_fds w)))))
  | None =>
      eval (spawn_win32 host proc cmd cwd envi) w = None
      /\ proc_at w1 proc =
         set_fstderr (n + 9) (set_fstdout (n + 8) (set_pid (n + 6)
           (set_fstdin (n + 1) (proc_at w proc))))
      /\ sources w1 = sources w /\ channels w1 = channels w
      /\ log w1 = log w ++ [EvCloseHandle (n + 7); EvCloseHandle n;
                            EvCloseHandle (n + 3); EvCloseHandle (n + 5)]
      /\ next_id w1 = n + 10
      /\ open_fds w1 =
         {[n + 1; n + 6; n + 8; n + 9]}
         ∪ (open_fds w ∖ {[n; n + 2; n + 3; n + 4; n + 5; n + 7]})
  end.
Proof.
  cbv zeta. unfold eval, exec, spawn_win32, CreateProcessA.
  destruct (CreateProcessA_error host (COMSPEC host ++ " /c " ++ cmd) cwd envi) as [msg|].
  - erewrite (bind_run _ _ w); [| apply CreatePipe_run | cbv beta iota; do 4 step; prim].
    cbn [fst snd]. autorewrite with world. succ_to_plus (next_id w).
    repeat (split; [reflexivity |]). reflexivity.
  - erewrite (bind_run _ _ w);
      [| apply CreatePipe_run | cbv beta iota; do 3 step; eapply bind_run;
         [do 2 step; prim
         | cbv beta iota; autorewrite with world; do 9 step; prim]].
    cbn [fst snd]. autorewrite with world. succ_to_plus (next_id w).
    split; [reflexivity |].
    split; [reflexivity |]. 
    split; [reflexivity |]. split; [reflexivity |].
    split; [rewrite <- !app_assoc; reflexivity |].
    split; [reflexivity |].
    apply set_eq. intros h. set_unfold. intuition lia.
Qed.

(** The platform arm leaves the sources alone. *)
Lemma spawn_arm_sources (plat : Platform) (host : Host) (proc : Z) (cmd : string)
    (cwd : option string) (envi : option (list string)) (w : World) :
  let arm := match plat with
             | Posix => spawn_posix host proc cmd cwd envi
             | Win32 => spawn_win32 host proc cmd cwd envi
             end in
  sources (exec arm w) = sources w.
Proof.
  cbv zeta. destruct plat.
  - pose proof (spawn_posix_run host proc cmd cwd envi w) as H. cbv zeta in H.
    destruct (g_shell_parse_argv host cmd) as [argv|msg].
    + destruct (g_spawn_error host cwd argv envi) as [msg|].
      * unfold exec. rewrite H. reflexivity.
      * tauto.
    + unfold exec. rewrite H. reflexivity.
  - pose proof (spawn_win32_run host proc cmd cwd envi w) as H. cbv zeta in H.
    destruct (CreateProcessA_error host _ cwd envi); tauto.
Qed.

(** On POSIX a failed [spawn] leaves nothing behind: GLib has closed what it
    opened, and the handle and the world are as before. *)
Lemma spawn_posix_failure_clean (host : Host) (proc : Z) (cmd : string)
    (cwd : option string) (envi : option (list string)) (ms me : bool) (w : World) :
  (eval (spawn Posix host proc cmd cwd envi ms me) w).1 = false ->
  exec (spawn Posix host proc cmd cwd envi ms me) w = w.
Proof.
  unfold eval, exec. rewrite spawn_cases. cbv zeta.
  pose proof (spawn_posix_run host proc cmd cwd envi w) as H. cbv zeta in H.
  destruct (g_shell_parse_argv host cmd) as [argv|msg].
  - destruct (g_spawn_error host cwd argv envi) as [msg|].
    + unfold eval, exec. rewrite H. reflexivity.
    + destruct H as (-> & _).
      destruct (spawn_monitor_run host proc ms me
                  (exec (spawn_posix host proc cmd cwd envi) w)) as (E & _).
      unfold eval in E. rewrite E. discriminate.
  - unfold eval, exec. rewrite H. reflexivity.
Qed.

(** C2.  What the code does when [CreateProcessA] fails: [spawn] returns
    false with the system's message, but the six pipe handles made by the
    three [CreatePipe] calls are all still open, [proc->fstdin] holds one of
    them, and no [CloseHandle] call has been made. *)
Theorem spawn_win32_failure_leaks_pipes (host : Host) (proc : Z) (cmd : string)
    (cwd : option string) (envi : option (list string)) (ms me : bool) (w : World)
    (msg : string) :
  CreateProcessA_error host (COMSPEC host ++ " /c " ++ cmd) cwd envi = Some msg ->
  let n := next_id w in
  let w' := exec (spawn Win32 host proc cmd cwd envi ms me) w in
  eval (spawn Win32 host proc cmd cwd envi ms me) w = (false, Some msg)
  /\ open_fds w' = {[n; n + 1; n + 2; n + 3; n + 4; n + 5]} ∪ open_fds w
  /\ fstdin (proc_at w' proc) = n + 1
  /\ log w' = log w.
Proof.
  intros Hfail. cbv zeta. unfold eval, exec. rewrite spawn_cases. cbv zeta.
  pose proof (spawn_win32_run host proc cmd cwd envi w) as H. cbv zeta in H.
  rewrite Hfail in H. destruct H as (He & Hp & _ & _ & Hl & _ & Ho).
  rewrite He. cbn [fst snd]. rewrite Ho, Hp, Hl.
  split; [reflexivity |]. split; [| split; reflexivity].
  apply set_eq. intros h. set_unfold. intuition lia.
Qed.

Lemma spawn_win32_failure_leaks_pipes_witness :
  let w' := exec (spawn Win32 Demo.failing_host Demo.proc "ls" (Some "Z:\nowhere"%string)
                        None true true) Demo.w0 in
  eval (spawn Win32 Demo.failing_host Demo.proc "ls" (Some "Z:\nowhere"%string)
              None true true) Demo.w0
  = (false, Some "The directory name is invalid."%string)
  /\ open_fds w' = {[3; 4; 5; 6; 7; 8]} ∪ {[0; 1; 2]}
  /\ fstdin (proc_at w' Demo.proc) = 4
  /\ log w' = [].
Proof.
  apply (spawn_win32_failure_leaks_pipes Demo.failing_host Demo.proc "ls"
           (Some "Z:\nowhere"%string) None true true Demo.w0
           "The directory name is invalid.").
  reflexivity.
Defined.

(** The specification's wording of C7 does not hold on Windows: a command
    line that does not tokenize is handed to the command interpreter, and
    [spawn] succeeds. *)
Lemma spawn_win32_does_not_tokenize :
  ~ (forall (plat : Platform) (host : Host) (proc : Z) (cmd : string) (cwd : option string)
            (envi : option (list string)) (ms me : bool) (w : World) (msg : string),
        g_shell_parse_argv host cmd = inr msg ->
        spawn plat host proc cmd cwd envi ms me w = ((false, Some msg), w)).
Proof.
  intros H.
  specialize (H Win32 Demo.host Demo.proc "echo 'hi"%string None None false false Demo.w0
                "unbalanced quote"%string eq_refl).
  apply (f_equal (fun r => r.1.1)) in H. vm_compute in H. discriminate H.
Qed.

(** C7.  On POSIX a command line that [g_shell_parse_argv] rejects makes
    [spawn] return false with the tokenizer's message before anything is
    created: the world is unchanged.  On Windows [spawn] does not consult the
    tokenizer at all. *)
Theorem spawn_posix_rejects_malformed (host : Host) (proc : Z) (cmd : string)
    (cwd : option string) (envi : option (list string)) (ms me : bool) (w : World)
    (msg : string) :
  g_shell_parse_argv host cmd = inr msg ->
  spawn Posix host proc cmd cwd envi ms me w = ((false, Some msg), w)
  /\ forall parse : string -> list string + string,
       spawn Win32 (mkHost parse (g_spawn_error host) (CreateProcessA_error host)
                           (COMSPEC host) (incoming host))
             proc cmd cwd envi ms me w
       = spawn Win32 host proc cmd cwd envi ms me w.
Proof.
  intros Hbad. split.
  - rewrite spawn_cases. cbv zeta.
    pose proof (spawn_posix_run host proc cmd cwd envi w) as H. cbv zeta in H.
    rewrite Hbad in H. unfold eval, exec. rewrite H. reflexivity.
  - intros parse. destruct host. reflexivity.
Qed.

Lemma spawn_posix_rejects_malformed_witness :
  spawn Posix Demo.host Demo.proc "echo 'hi" None None true true Demo.w0
  = ((false, Some "unbalanced quote"%string), Demo.w0).
Proof.
  exact (proj1 (spawn_posix_rejects_malformed Demo.host Demo.proc "echo 'hi" None None
                  true true Demo.w0 "unbalanced quote" eq_refl)).
Defined.

(** ** The Manual Reader: [read_process_output] *)

Lemma get_buffered_run (c : Z) (w : World) :
  g_io_channel_get_buffered c w = (ch_buffered (default no_channel (channels w !! c)), w).
Proof. reflexivity. Qed.

Lemma set_buffered_run (c : Z) (on : bool) (w : World) :
  g_io_channel_set_buffered c on w =
  (tt, set_channels (fun m => alter (set_ch_buffered on) c m)
         (set_log (fun l => l ++ [EvSetBuffered c on]) w)).
Proof. reflexivity. Qed.

Lemma channel_read_lookup (c : Z) (call : ReadCall) (w : World) :
  channel_read c call w =
  (clip call (next_reply (default no_channel (channels w !! c))),
   set_channels (fun m => alter after_read c m) (set_log (fun l => l ++ [EvRead c call]) w)).
Proof. reflexivity. Qed.

Lemma get_buffer_condition_run (c : Z) (w : World) :
  g_io_channel_get_buffer_condition c w =
  (if 0 <? ch_pending (default no_channel (channels w !! c)) then G_IO_IN else 0, w).
Proof. reflexivity. Qed.

Lemma buffer_condition_test (pending : Z) :
  (Z.land (if 0 <? pending then G_IO_IN else 0) G_IO_IN =? 0) = negb (0 <? pending).
Proof. destruct (0 <? pending); reflexivity. Qed.

Ltac chan_prim :=
  lazymatch goal with
  | |- g_io_channel_get_buffered _ _ = _ => apply get_buffered_run
  | |- g_io_channel_set_buffered _ _ _ = _ => apply set_buffered_run
  | |- channel_read _ _ _ = _ => apply channel_read_lookup
  | |- g_io_channel_get_buffer_condition _ _ = _ => apply get_buffer_condition_run
  | |- _ => prim
  end.

Lemma next_reply_set_ch_buffered (on : bool) (ch : Channel) :
  next_reply (set_ch_buffered on ch) = next_reply ch.
Proof. reflexivity. Qed.

(** Simplifies the state of the stdout channel, whose entry in the initial
    world is given by [Hc]. *)
Ltac chan_simpl Hc :=
  cbv beta iota; autorewrite with world;
  rewrite ?lookup_alter_eq, ?Hc;
  cbn [fmap option_fmap option_map default from_option id];
  try change (after_read no_channel) with no_channel;
  try change (next_reply no_channel) with eof_reply;
  cbn [ch_buffered ch_pending set_ch_buffered after_read no_channel rp_left eof_reply];
  rewrite ?next_reply_set_ch_buffered;
  rewrite ?buffer_condition_test.

Lemma bind_step {A B} (m : M A) (k : A -> M B) (w w1 : World) (a : A) :
  m w = (a, w1) -> bind m k w = k a w1.
Proof. intros H. unfold bind. rewrite H. reflexivity. Qed.

(** Runs the first action of the computation in the goal. *)
Ltac chan_step Hc :=
  erewrite bind_step
    by first [ chan_prim | eapply bind_run; [chan_prim | cbv beta iota; chan_prim] ];
  chan_simpl Hc.

(** Everything a manual read does, in terms of the reply its read call
    gets. *)
Lemma read_process_output_run (proc : Z) (opt : ascii) (len : Z)
    (error : option string) (code : Z) (w : World) :
  let c := cstdout (proc_at w proc) in
  let ch := channel_at w c in
  let call := read_call_of opt len in
  let pending :=
    match call with Some _ => rp_left (next_reply ch) | None => ch_pending ch end in
  let w' := exec (read_process_output proc opt len error code) w in
  eval (read_process_output proc opt len error code) w =
    match call with
    | Some k =>
        let r := clip k (next_reply ch) in
        let buf := Block (rp_below r) (rp_data r) in
        read_result (reported_status opt r) buf (strip_line_end opt buf (rp_len r))
                    (rp_err r) error code
    | None =>
        read_result G_IO_STATUS_NORMAL Indeterminate (strip_line_end opt Indeterminate len)
                    None error code
    end
  /\ log w' = log w ++ (if ch_buffered ch then [] else [EvSetBuffered c true])
                    ++ (match call with Some k => [EvRead c k] | None => [] end)
                    ++ (if 0 <? pending then [] else [EvSetBuffered c false])
  /\ ch_buffered (channel_at w' c) = (0 <? pending)
  /\ ch_pending (channel_at w' c) = pending
  /\ procs w' = procs w /\ sources w' = sources w /\ open_fds w' = open_fds w.
Proof.
  cbv zeta. unfold read_process_output, read_call_of, reported_status, eval, exec, channel_at.
  set (c := cstdout (proc_at w proc)).
  destruct (channels w !! c) as [ch|] eqn:Hc; cbn [default from_option id];
    [destruct (ch_buffered ch) eqn:Hb |
     change (ch_buffered no_channel) with false;
     change (ch_pending no_channel) with 0;
     change (rp_left (next_reply no_channel)) with 0];
    (destruct ((opt =? "l")%char || (opt =? "L")%char);
     [| destruct (opt =? "a")%char; [| destruct (opt =? "n")%char]]);
    cbv iota;
    try change (0 <? 0) with false;
    try (lazymatch goal with
         | |- context [0 <? rp_left (next_reply ch)] =>
             destruct (0 <? rp_left (next_reply ch)) eqn:Hp
         | |- context [0 <? ch_pending ch] =>
             destruct (0 <? ch_pending ch) eqn:Hp
         end).
  all: erewrite bind_step by apply load_run; cbv beta iota; fold c.
  all: chan_step Hc; try rewrite Hb; cbn [negb when].
  all: chan_step Hc.
  all: chan_step Hc.
  all: chan_step Hc; try rewrite Hp; try change (0 <? 0) with false; cbn [negb when].
  all: chan_step Hc.
  all: rewrite ret_run.
  all: cbn [fst snd]; autorewrite with world; rewrite ?lookup_alter_eq, ?Hc;
    cbn [fmap option_fmap option_map default from_option id];
    try change (after_read no_channel) with no_channel;
    cbn [ch_buffered ch_pending set_ch_buffered after_read no_channel];
    rewrite ?next_reply_set_ch_buffered;
    rewrite <- ?app_assoc, ?app_nil_r; cbn [app].
  all: repeat (split; [first [reflexivity | assumption] |]); try reflexivity.
Qed.

(** C9.  A manual read first makes the stdout channel buffered (the call is
    made when the channel is not buffered already), then reads, and then
    makes it unbuffered again exactly when no byte is left in the channel's
    buffer: afterwards the channel is buffered if and only if bytes
    remain. *)
Theorem manual_read_buffering (proc : Z) (opt : ascii) (len : Z)
    (error : option string) (code : Z) (w : World) :
  let c := cstdout (proc_at w proc) in
  let ch := channel_at w c in
  let w' := exec (read_process_output proc opt len error code) w in
  let ch' := channel_at w' c in
  log w' = log w ++ (if ch_buffered ch then [] else [EvSetBuffered c true])
                 ++ (match read_call_of opt len with Some k => [EvRead c k] | None => [] end)
                 ++ (if 0 <? ch_pending ch' then [] else [EvSetBuffered c false])
  /\ ch_buffered ch' = (0 <? ch_pending ch').
Proof.
  cbv zeta.
  destruct (read_process_output_run proc opt len error code w)
    as (_ & Hlog & Hbuf & Hpend & _).
  cbv zeta in Hlog, Hbuf, Hpend. rewrite Hpend. split; assumption.
Qed.

(** ** Line ends *)

Lemma byte_eqb_eq (x y : byte) : Byte.eqb x y = true <-> x = y.
Proof.
  split.
  - apply Byte.byte_dec_bl.
  - intros ->. apply Byte.byte_dec_lb. reflexivity.
Qed.

(** The last byte of a buffer, as the code reads it. *)
Lemma buf_at_last (below : byte) (init : list byte) (x : byte) (tail : list byte) :
  Z.of_nat (length (init ++ x :: tail)) <= SIZE_MAX ->
  buf_at (Block below (init ++ x :: tail)) (size_t_wrap (Z.of_nat (length init + 1) - 1)) = x.
Proof.
  intros Hlen. rewrite length_app in Hlen. cbn [length] in Hlen.
  assert (HS : SIZE_MAX = 18446744073709551615) by reflexivity.
  unfold size_t_wrap. rewrite Z.mod_small by lia.
  unfold buf_at.
  destruct (Z.eqb_spec (Z.of_nat (length init + 1) - 1) SIZE_MAX) as [E|_]; [lia |].
  replace (Z.to_nat (Z.of_nat (length init + 1) - 1)) with (length init + 0)%nat by lia.
  rewrite lookup_app_r by lia.
  replace (length init + 0 - length init)%nat with 0%nat by lia. reflexivity.
Qed.

(** The terminator is a suffix of the line. *)
Lemma terminator_suffix (data : list byte) :
  data = take (length data - length (terminator data)) data ++ terminator data.
Proof.
  unfold terminator.
  destruct (rev data) as [|x before] eqn:Hrev.
  { rewrite app_nil_r, Nat.sub_0_r, firstn_all. reflexivity. }
  assert (Hdata : data = rev before ++ [x]).
  { apply (f_equal (@rev byte)) in Hrev. rewrite rev_involutive in Hrev. exact Hrev. }
  subst data. clear Hrev.
  destruct (Byte.eqb x LF) eqn:Ex.
  - apply byte_eqb_eq in Ex. subst x.
    destruct before as [|y before'].
    + reflexivity.
    + cbn [rev]. destruct (Byte.eqb y CR) eqn:Ey.
      * apply byte_eqb_eq in Ey. subst y.
        rewrite <- app_assoc. cbn [app].
        replace (length (rev before' ++ [CR; LF]) - length [CR; LF])%nat
          with (length (rev before')) by (rewrite length_app; cbn [length]; lia).
        rewrite take_app_length. reflexivity.
      * replace (length ((rev before' ++ [y]) ++ [LF]) - length [LF])%nat
          with (length (rev before' ++ [y])) by (rewrite !length_app; cbn [length]; lia).
        rewrite take_app_length. reflexivity.
  - destruct (Byte.eqb x CR) eqn:Ec.
    + apply byte_eqb_eq in Ec. subst x.
      replace (length (rev before ++ [CR]) - length [CR])%nat
        with (length (rev before)) by (rewrite length_app; cbn [length]; lia).
      rewrite take_app_length. reflexivity.
    + rewrite app_nil_r, Nat.sub_0_r, firstn_all. reflexivity.
Qed.

(** What the two decrements cut off a line of at least one byte other than a
    lone line feed: its terminator. *)
Lemma strip_line_end_terminator (below : byte) (data : list byte) :
  data <> [] -> data <> [LF] -> Z.of_nat (length data) <= SIZE_MAX ->
  strip_line_end "l" (Block below data) (Z.of_nat (length data))
  = Z.of_nat (length data) - Z.of_nat (length (terminator data)).
Proof.
  intros Hne Hlf Hlen.
  assert (HS : SIZE_MAX = 18446744073709551615) by reflexivity.
  assert (Hwrap : forall k : nat, Z.of_nat (k + 1) <= SIZE_MAX ->
                                  size_t_wrap (Z.of_nat (k + 1) - 1) = Z.of_nat k).
  { intros k Hk. unfold size_t_wrap. rewrite Z.mod_small by lia. lia. }
  unfold terminator.
  destruct (rev data) as [|x before] eqn:Hrev.
  { apply (f_equal (@rev byte)) in Hrev. rewrite rev_involutive in Hrev.
    cbn in Hrev. contradiction. }
  assert (Hdata : data = rev before ++ [x]).
  { apply (f_equal (@rev byte)) in Hrev. rewrite rev_involutive in Hrev. exact Hrev. }
  subst data. clear Hrev.
  unfold strip_line_end. change (("l" =? "l")%char) with true. cbn [andb].
  rewrite length_app in Hlen |- *. cbn [length] in Hlen |- *.
  rewrite (buf_at_last below (rev before) x []) by (rewrite length_app; exact Hlen).
  destruct (Byte.eqb x LF) eqn:Ex.
  - apply byte_eqb_eq in Ex. subst x.
    rewrite (Hwrap _ Hlen).
    destruct before as [|y before'].
    + cbn in Hlf. contradiction.
    + cbn [rev] in Hlen |- *. rewrite length_app in Hlen |- *. cbn [length] in Hlen |- *.
      rewrite <- app_assoc. cbn [app].
      rewrite (buf_at_last below (rev before') y [LF])
        by (rewrite length_app; cbn [length]; lia).
      destruct (Byte.eqb y CR) eqn:Ey.
      * rewrite Hwrap by lia. cbn [length]. lia.
      * cbn [length]. lia.
  - rewrite (buf_at_last below (rev before) x []) by (rewrite length_app; exact Hlen).
    destruct (Byte.eqb x CR) eqn:Ec.
    + rewrite (Hwrap _ Hlen). cbn [length]. lia.
    + cbn [length]. lia.
Qed.

(** A blank line is outside that lemma: once the line feed is cut off the
    length is 0, and the test for a carriage return looks at the byte below
    the buffer. *)
Lemma strip_line_end_blank_line (below : byte) :
  strip_line_end "l" (Block below [LF]) 1 = if Byte.eqb below CR then SIZE_MAX else 0.
Proof. destruct below; reflexivity. Qed.

Lemma terminator_cases (data : list byte) :
  terminator data = [] \/ terminator data = [LF]
  \/ terminator data = [CR] \/ terminator data = [CR; LF].
Proof.
  unfold terminator. destruct (rev data) as [|x [|y before]]; auto;
    destruct (Byte.eqb x LF); auto; try (destruct (Byte.eqb x CR); auto);
    destruct (Byte.eqb y CR); auto.
Qed.

Lemma terminator_line_feed (init : list byte) :
  terminator (init ++ [LF]) = [LF] \/ terminator (init ++ [LF]) = [CR; LF].
Proof.
  unfold terminator. rewrite rev_app_distr. cbn [rev app].
  change (Byte.eqb LF LF) with true. cbv iota.
  destruct (rev init) as [|y before]; auto. destruct (Byte.eqb y CR); auto.
Qed.

(** The specification's wording of C5 does not hold: a line that ends in a
    lone carriage return loses that carriage return, which is neither a line
    feed nor a carriage return and line feed. *)
Lemma read_line_strips_lone_carriage_return :
  ~ (forall (proc len : Z) (error : option string) (code : Z) (w : World),
        let r := next_reply (channel_at w (cstdout (proc_at w proc))) in
        rp_status r = G_IO_STATUS_NORMAL -> rp_data r <> [] ->
        exists n,
          r_len <$> eval (read_process_output proc "l" len error code) w = Some n
          /\ (rp_data r = take (Z.to_nat n) (rp_data r) ++ [LF]
              \/ rp_data r = take (Z.to_nat n) (rp_data r) ++ [CR; LF])).
Proof.
  intros H.
  destruct (H Demo.proc 0 None 0 (Demo.reading [Demo.line ["a"; "b"; CR]%byte])
              eq_refl ltac:(discriminate)) as (n & Hn & Hd).
  vm_compute in Hn. injection Hn as <-.
  vm_compute in Hd. destruct Hd as [Hd | Hd]; discriminate Hd.
Qed.

(** C5.  For option 'l' and a line of at least one byte other than a lone
    line feed, the returned length is the length of the line minus its
    terminator: a line feed, a carriage return and line feed, a lone carriage
    return, or nothing when the line has no terminator.  The bytes kept are a
    prefix of the line, so nothing inside it is removed, and a line that ends
    in a line feed loses exactly that line feed and the carriage return
    before it, if any.  Option 'L' keeps the whole line. *)
Theorem read_line_strips_terminator (proc len : Z) (error : option string) (code : Z)
    (w : World) :
  let r := next_reply (channel_at w (cstdout (proc_at w proc))) in
  let data := rp_data r in
  let n := Z.of_nat (length data) - Z.of_nat (length (terminator data)) in
  rp_status r = G_IO_STATUS_NORMAL ->
  data <> [] -> data <> [LF] -> Z.of_nat (length data) <= SIZE_MAX ->
  eval (read_process_output proc "l" len error code) w
    = Some (mkReadResult (Some (Block (rp_below r) data)) n error code)
  /\ data = take (Z.to_nat n) data ++ terminator data
  /\ (terminator data = [] \/ terminator data = [LF]
      \/ terminator data = [CR] \/ terminator data = [CR; LF])
  /\ (forall init, data = init ++ [LF] ->
        terminator data = [LF] \/ terminator data = [CR; LF])
  /\ eval (read_process_output proc "L" len error code) w
     = Some (mkReadResult (Some (Block (rp_below r) data)) (Z.of_nat (length data))
                          error code).
Proof.
  cbv zeta. intros Hst Hne Hlf Hlen.
  set (r := next_reply (channel_at w (cstdout (proc_at w proc)))) in *.
  split; [| split; [| split; [| split]]].
  - destruct (read_process_output_run proc "l" len error code w) as (He & _).
    cbv zeta in He. fold r in He.
    change (read_call_of "l" len) with (Some ReadLine) in He. cbv iota in He.
    change (clip ReadLine r) with r in He.
    change (reported_status "l" r) with (rp_status r) in He.
    rewrite He, Hst. unfold rp_len.
    rewrite (strip_line_end_terminator (rp_below r) (rp_data r) Hne Hlf Hlen).
    reflexivity.
  - replace (Z.to_nat (Z.of_nat (length (rp_data r))
                       - Z.of_nat (length (terminator (rp_data r)))))
      with (length (rp_data r) - length (terminator (rp_data r)))%nat by lia.
    apply terminator_suffix.
  - apply terminator_cases.
  - intros init ->. apply terminator_line_feed.
  - destruct (read_process_output_run proc "L" len error code w) as (He & _).
    cbv zeta in He. fold r in He.
    change (read_call_of "L" len) with (Some ReadLine) in He. cbv iota in He.
    change (clip ReadLine r) with r in He.
    change (reported_status "L" r) with (rp_status r) in He.
    rewrite He, Hst. reflexivity.
Qed.

Lemma read_line_strips_terminator_witness :
  eval (read_process_output Demo.proc "l" 0 None 0)
       (Demo.reading [Demo.line ["a"; LF; "b"; CR; LF]%byte])
  = Some (mkReadResult (Some (Block x00 ["a"; LF; "b"; CR; LF]%byte)) 3 None 0).
Proof.
  refine (eq_trans
    (proj1 (read_line_strips_terminator Demo.proc 0 None 0
              (Demo.reading [Demo.line ["a"; LF; "b"; CR; LF]%byte]) _ _ _ _)) _).
  - reflexivity.
  - vm_compute. discriminate.
  - vm_compute. discriminate.
  - vm_compute. discriminate.
  - vm_compute. reflexivity.
Defined.

(** ** End of stream and read errors *)

(** The liveness flag plays no part in a manual read. *)
Lemma read_process_output_ignores_pid (proc : Z) (opt : ascii) (len : Z)
    (error : option string) (code : Z) (w : World) :
  eval (read_process_output proc opt len error code) (exec (store proc (set_pid 0)) w)
  = eval (read_process_output proc opt len error code) w.
Proof.
  destruct (read_process_output_run proc opt len error code w) as (-> & _).
  destruct (read_process_output_run proc opt len error code (exec (store proc (set_pid 0)) w))
    as (-> & _).
  cbv zeta.
  assert (Hc : cstdout (proc_at (exec (store proc (set_pid 0)) w) proc)
               = cstdout (proc_at w proc)).
  { unfold exec. rewrite store_run. cbn [snd]. rewrite proc_at_set_procs. reflexivity. }
  rewrite Hc. reflexivity.
Qed.

(** The specification's wording of C6 does not hold for the read-to-end
    mode: at the end of the stream it returns an empty buffer, not the "no
    more data" result. *)
Lemma read_to_end_returns_buffer_at_eof :
  ~ (forall (proc : Z) (opt : ascii) (len : Z) (error : option string) (code : Z)
            (w : World),
        read_call_of opt len <> None ->
        rp_status (next_reply (channel_at w (cstdout (proc_at w proc)))) = G_IO_STATUS_EOF ->
        exists n, eval (read_process_output proc opt len error code) w
                  = Some (mkReadResult None n None code)).
Proof.
  intros H.
  destruct (H Demo.proc "a"%char 0 None 0 (Demo.reading []) ltac:(discriminate) eq_refl)
    as (n & Hn).
  vm_compute in Hn. discriminate Hn.
Qed.

(** C6.  In the line modes and the n-bytes mode a read that meets the end of
    the stream returns NULL and stores NULL in [*error]; in every mode a read
    that GLib reports as failed returns NULL and stores the message and the
    code of the [GError]; the first leaves [*error] NULL and the second does
    not, so the two cannot be mistaken for each other.  In the read-to-end
    mode an end-of-file status is turned into normal and the buffer is
    returned.  None of this depends on the handle's [pid]. *)
Theorem manual_read_eof_and_error (proc : Z) (opt : ascii) (len : Z)
    (error : option string) (code : Z) (w : World) :
  let r := next_reply (channel_at w (cstdout (proc_at w proc))) in
  let result := eval (read_process_output proc opt len error code) w in
  (opt = "l"%char \/ opt = "L"%char \/ opt = "n"%char ->
   rp_status r = G_IO_STATUS_EOF ->
   exists n, result = Some (mkReadResult None n None code))
  /\ (forall msg c,
        read_call_of opt len <> None ->
        rp_status r = G_IO_STATUS_ERROR ->
        rp_err r = Some (mkGError msg c) ->
        exists n, result = Some (mkReadResult None n (Some msg) c))
  /\ (opt = "a"%char ->
      rp_status r = G_IO_STATUS_EOF ->
      result = Some (mkReadResult (Some (Block (rp_below r) (rp_data r))) (rp_len r)
                                  error code))
  /\ eval (read_process_output proc opt len error code) (exec (store proc (set_pid 0)) w)
     = result.
Proof.
  cbv zeta.
  set (r := next_reply (channel_at w (cstdout (proc_at w proc)))).
  destruct (read_process_output_run proc opt len error code w) as (He & _).
  cbv zeta in He. fold r in He.
  split; [| split; [| split]].
  - intros Hopt Hst. rewrite He.
    destruct Hopt as [-> | [-> | ->]].
    + change (read_call_of "l" len) with (Some ReadLine). cbv iota.
      change (clip ReadLine r) with r. change (reported_status "l" r) with (rp_status r).
      rewrite Hst. eexists. reflexivity.
    + change (read_call_of "L" len) with (Some ReadLine). cbv iota.
      change (clip ReadLine r) with r. change (reported_status "L" r) with (rp_status r).
      rewrite Hst. eexists. reflexivity.
    + change (read_call_of "n" len) with (Some (ReadChars len)). cbv iota.
      change (reported_status "n" (clip (ReadChars len) r)) with (rp_status r).
      rewrite Hst. eexists. reflexivity.
  - intros msg c Hcall Hst Herr. rewrite He.
    destruct (read_call_of opt len) as [k|] eqn:Hk; [| contradiction].
    cbv iota zeta.
    assert (Hs : reported_status opt (clip k r) = G_IO_STATUS_ERROR).
    { unfold reported_status.
      replace (rp_status (clip k r)) with (rp_status r) by (destruct k; reflexivity).
      rewrite Hst. cbn [status_eqb].
      destruct ((opt =? "l")%char || (opt =? "L")%char); [reflexivity |].
      destruct (opt =? "a")%char; reflexivity. }
    rewrite Hs.
    replace (rp_err (clip k r)) with (rp_err r) by (destruct k; reflexivity).
    rewrite Herr. eexists. reflexivity.
  - intros -> Hst. rewrite He.
    change (read_call_of "a" len) with (Some ReadToEnd). cbv iota.
    change (clip ReadToEnd r) with r.
    unfold reported_status. change (("a" =? "l")%char || ("a" =? "L")%char) with false.
    change (("a" =? "a")%char) with true. cbv iota. rewrite Hst.
    reflexivity.
  - apply read_process_output_ignores_pid.
Qed.

Lemma manual_read_eof_and_error_witness :
  (exists n, eval (read_process_output Demo.proc "l" 0 None 0) (Demo.reading [])
             = Some (mkReadResult None n None 0))
  /\ (exists n,
        eval (read_process_output Demo.proc "n" 16 None 0)
             (Demo.reading [mkReply G_IO_STATUS_ERROR []
                                    (Some (mkGError "Input/output error" 5)) 0 x00])
        = Some (mkReadResult None n (Some "Input/output error"%string) 5))
  /\ eval (read_process_output Demo.proc "a" 0 None 0) (Demo.reading [])
     = Some (mkReadResult (Some (Block x00 [])) 0 None 0).
Proof.
  split; [| split].
  - apply (proj1 (manual_read_eof_and_error Demo.proc "l" 0 None 0 (Demo.reading []))).
    + left. reflexivity.
    + reflexivity.
  - apply (proj1 (proj2 (manual_read_eof_and_error Demo.proc "n" 16 None 0
             (Demo.reading [mkReply G_IO_STATUS_ERROR []
                                    (Some (mkGError "Input/output error" 5)) 0 x00])))
             "Input/output error"%string 5).
    + vm_compute. discriminate.
    + reflexivity.
    + reflexivity.
  - apply (proj1 (proj2 (proj2 (manual_read_eof_and_error Demo.proc "a" 0 None 0
             (Demo.reading []))))); reflexivity.
Defined.

(** ** At most one cleanup per loop iteration *)

Lemma exits_of_app (proc : Z) (l1 l2 : list Event) :
  exits_of proc (l1 ++ l2) = (exits_of proc l1 + exits_of proc l2)%nat.
Proof. unfold exits_of. rewrite List.filter_app, length_app. reflexivity. Qed.

Lemma exits_of_chunks (p source proc : Z) (tag : bool) (rs : list Reply) :
  exits_of p (flat_map (chunk_events source proc tag) rs) = 0%nat.
Proof.
  induction rs as [|r rs IH]; [reflexivity |].
  rewrite flat_map_one, exits_of_app, IH. unfold chunk_events.
  destruct (status_eqb (rp_status r) G_IO_STATUS_NORMAL && (0 <? rp_len r)); reflexivity.
Qed.

Lemma sources_of_take (p : Z) (f : Source -> bool) (l : list Source) :
  (sources_of p (take_source f l).2 <= sources_of p l)%nat.
Proof.
  unfold sources_of. induction l as [|s l IH]; cbn [take_source]; [reflexivity |].
  destruct (f s).
  - cbn [snd List.filter]. destruct (src_data s =? p); cbn [length]; lia.
  - destruct (take_source f l) as [found rest]. cbn [snd] in *.
    cbn [List.filter]. destruct (src_data s =? p); cbn [length]; lia.
Qed.

Lemma sources_of_take_same (p : Z) (l : list Source) :
  sources_of p (take_source (fun s => src_data s =? p) l).2 = pred (sources_of p l).
Proof.
  unfold sources_of. induction l as [|s l IH]; cbn [take_source]; [reflexivity |].
  destruct (src_data s =? p) eqn:E.
  - cbn [snd List.filter]. rewrite E. reflexivity.
  - destruct (take_source _ l) as [found rest]. cbn [snd] in *.
    cbn [List.filter]. rewrite E. exact IH.
Qed.

Lemma sources_of_take_other (p q : Z) (l : list Source) :
  p <> q ->
  sources_of p (take_source (fun s => src_data s =? q) l).2 = sources_of p l.
Proof.
  intros Hpq. unfold sources_of. induction l as [|s l IH]; cbn [take_source]; [reflexivity |].
  destruct (src_data s =? q) eqn:E.
  - cbn [snd List.filter]. apply Z.eqb_eq in E.
    destruct (Z.eqb_spec (src_data s) p); [congruence | reflexivity].
  - destruct (take_source _ l) as [found rest]. cbn [snd] in *.
    cbn [List.filter]. destruct (src_data s =? p); cbn [length]; rewrite IH; reflexivity.
Qed.

(** What [cleanup_process] does to the counts of a handle [p]. *)
Lemma cleanup_process_counts (plat : Platform) (proc status p : Z) (w : World) :
  let w' := exec (cleanup_process plat proc status) w in
  exits_of p (log w') = (exits_of p (log w) + (if (proc =? p)%Z then 1 else 0))%nat
  /\ (proc = p -> sources_of p (sources w') = (sources_of p (sources w) - 3)%nat)
  /\ (proc <> p -> sources_of p (sources w') = sources_of p (sources w)).
Proof.
  cbv zeta. destruct (cleanup_process_run plat proc status w) as (Hl & _ & Hs & _).
  cbv zeta in Hl, Hs. rewrite Hl, Hs. split; [| split].
  - rewrite exits_of_app. f_equal. unfold exits_of.
    destruct plat; cbn [List.filter length]; destruct (proc =? p); reflexivity.
  - intros <-. rewrite !sources_of_take_same. lia.
  - intros Hne. rewrite !sources_of_take_other by congruence. reflexivity.
Qed.

Lemma remove_source_counts (f : Source -> bool) (p : Z) (w : World) :
  let w' := exec (remove_source f) w in
  log w' = log w /\ (sources_of p (sources w') <= sources_of p (sources w))%nat.
Proof.
  cbv zeta. destruct (remove_source_run f w) as (Hs & _ & Hl & _).
  cbv zeta in Hs, Hl. rewrite Hs, Hl. split; [reflexivity | apply sources_of_take].
Qed.

Lemma read_channel_exec (source cond proc : Z) (w : World) :
  exec (read_channel source cond proc) w =
  if (pid (proc_at w proc) =? 0) || (Z.land cond G_IO_IN =? 0) then w
  else exec (read_channel_loop (ch_replies (channel_at w source)) source proc) w.
Proof.
  unfold read_channel. rewrite exec_bind.
  change (exec (load proc) w) with w. change (eval (load proc) w) with (proc_at w proc).
  destruct ((pid (proc_at w proc) =? 0) || (Z.land cond G_IO_IN =? 0)).
  - reflexivity.
  - rewrite exec_bind.
    change (exec (fun w0 : World => (ch_replies (channel_at w0 source), w0)) w) with w.
    change (eval (fun w0 : World => (ch_replies (channel_at w0 source), w0)) w)
      with (ch_replies (channel_at w source)).
    rewrite exec_bind, exec_bind, exec_ret. reflexivity.
Qed.

(** [read_channel] never runs the exit callback and never touches the
    sources. *)
Lemma read_channel_counts (source cond proc p : Z) (w : World) :
  let w' := exec (read_channel source cond proc) w in
  exits_of p (log w') = exits_of p (log w) /\ sources w' = sources w.
Proof.
  cbv zeta. rewrite read_channel_exec.
  destruct ((pid (proc_at w proc) =? 0) || (Z.land cond G_IO_IN =? 0)).
  - split; reflexivity.
  - destruct (read_channel_loop_run (ch_replies (channel_at w source)) source proc w eq_refl)
      as (Hl & _ & Hs).
    cbv zeta in Hl, Hs.
    rewrite Hl, Hs, exits_of_app, exits_of_chunks. split; [lia | reflexivity].
Qed.

Lemma find_source_counts (id p : Z) (l : list Source) (s : Source) :
  List.find (fun s => src_id s =? id) l = Some s -> src_data s = p ->
  (1 <= sources_of p l)%nat.
Proof.
  intros Hfind Hdata. unfold sources_of.
  induction l as [|s' l IH]; cbn [List.find] in Hfind; [discriminate |].
  cbn [List.filter]. destruct (src_id s' =? id).
  - injection Hfind as ->. rewrite Hdata, Z.eqb_refl. cbn [length]. lia.
  - destruct (src_data s' =? p); cbn [length]; specialize (IH Hfind); lia.
Qed.

Lemma dispatch_one_exec (plat : Platform) (r : Ready) (w : World) :
  exec (dispatch_one plat r) w =
  match List.find (fun s => src_id s =? rd_id r) (sources w) with
  | None => w
  | Some s =>
      match src_kind s with
      | IOWatch c =>
          if eval (read_channel c (rd_arg r) (src_data s)) w
          then exec (read_channel c (rd_arg r) (src_data s)) w
          else exec (g_source_destroy (rd_id r))
                    (exec (read_channel c (rd_arg r) (src_data s)) w)
      | ChildWatch _ =>
          exec (g_source_destroy (rd_id r))
               (exec (cleanup_process plat (src_data s) (rd_arg r)) w)
      end
  end.
Proof.
  unfold dispatch_one. rewrite exec_bind.
  change (exec (find_source (rd_id r)) w) with w.
  change (eval (find_source (rd_id r)) w)
    with (List.find (fun s => src_id s =? rd_id r) (sources w)).
  destruct (List.find (fun s => src_id s =? rd_id r) (sources w)) as [s|]; [| reflexivity].
  destruct (src_kind s) as [c|child].
  - rewrite exec_bind.
    destruct (eval (read_channel c (rd_arg r) (src_data s)) w); cbn [negb when].
    + reflexivity.
    + rewrite exec_bind, exec_ret. reflexivity.
  - rewrite exec_bind. unfold proc_exited. rewrite exec_bind, exec_ret. reflexivity.
Qed.

(** One dispatched source: either the exit callback of [p] does not run and
    [p] keeps at most the sources it had, or it runs once and [p] has no
    source left. *)
Lemma dispatch_one_counts (plat : Platform) (r : Ready) (p : Z) (w : World) :
  (sources_of p (sources w) <= 3)%nat ->
  let w' := exec (dispatch_one plat r) w in
  (exits_of p (log w') = exits_of p (log w)
   /\ (sources_of p (sources w') <= sources_of p (sources w))%nat)
  \/ ((1 <= sources_of p (sources w))%nat
      /\ exits_of p (log w') = S (exits_of p (log w))
      /\ sources_of p (sources w') = 0%nat).
Proof.
  intros Hle. cbv zeta. rewrite dispatch_one_exec.
  destruct (List.find (fun s => src_id s =? rd_id r) (sources w)) as [s|] eqn:Hfind.
  2: { left. split; reflexivity. }
  destruct (src_kind s) as [c|child].
  - left.
    destruct (read_channel_counts c (rd_arg r) (src_data s) p w) as (He & Hs).
    cbv zeta in He, Hs.
    destruct (eval (read_channel c (rd_arg r) (src_data s)) w).
    + rewrite He, Hs. split; [reflexivity | lia].
    + unfold g_source_destroy.
      destruct (remove_source_counts (fun s0 => src_id s0 =? rd_id r) p
                  (exec (read_channel c (rd_arg r) (src_data s)) w)) as (Hl & Hc).
      cbv zeta in Hl, Hc. rewrite Hl, He. rewrite Hs in Hc. split; [reflexivity | exact Hc].
  - unfold g_source_destroy.
    destruct (cleanup_process_counts plat (src_data s) (rd_arg r) p w) as (He & Hsame & Hother).
    cbv zeta in He, Hsame, Hother.
    destruct (remove_source_counts (fun s0 => src_id s0 =? rd_id r) p
                (exec (cleanup_process plat (src_data s) (rd_arg r)) w)) as (Hl & Hc).
    cbv zeta in Hl, Hc. rewrite Hl, He.
    destruct (Z.eqb_spec (src_data s) p) as [Heq | Hne].
    + right. specialize (Hsame Heq).
      pose proof (find_source_counts (rd_id r) p (sources w) s Hfind Heq).
      split; [assumption |]. split; [lia |]. lia.
    + left. specialize (Hother Hne). split; [lia | lia].
Qed.

Lemma dispatch_counts (plat : Platform) (ready : list Ready) (p : Z) :
  forall w : World,
    (sources_of p (sources w) <= 3)%nat ->
    let w' := exec (dispatch plat ready) w in
    (exits_of p (log w') <= S (exits_of p (log w)))%nat
    /\ (sources_of p (sources w) = 0%nat -> exits_of p (log w') = exits_of p (log w)).
Proof.
  induction ready as [|r ready IH]; intros w Hle; cbv zeta.
  - cbn [dispatch]. rewrite exec_ret. split; [lia | reflexivity].
  - cbn [dispatch]. rewrite exec_bind.
    destruct (dispatch_one_counts plat r p w Hle) as [(He & Hs) | (Hone & He & Hs)];
      cbv zeta in *.
    + destruct (IH (exec (dispatch_one plat r) w) ltac:(lia)) as (IH1 & IH2).
      cbv zeta in IH1, IH2. split; [lia |].
      intros Hz. rewrite IH2 by lia. exact He.
    + destruct (IH (exec (dispatch_one plat r) w) ltac:(lia)) as (_ & IH2).
      cbv zeta in IH2. rewrite (IH2 Hs). split; [lia | intros Hz; lia].
Qed.

Lemma sources_of_app (p : Z) (l1 l2 : list Source) :
  sources_of p (l1 ++ l2) = (sources_of p l1 + sources_of p l2)%nat.
Proof. unfold sources_of. rewrite List.filter_app, length_app. reflexivity. Qed.

(** The specification's wording of C1 does not hold: [cleanup_process] does
    not look at the liveness flag, and a second invocation closes the
    descriptors and runs the exit callback again. *)
Lemma cleanup_process_is_not_guarded :
  ~ (forall (plat : Platform) (proc status : Z) (w : World),
        pid (proc_at w proc) = 0 ->
        exec (cleanup_process plat proc status) w = w).
Proof.
  intros H.
  specialize (H Posix Demo.proc 0 Demo.finished eq_refl).
  apply (f_equal (fun w => exits_of Demo.proc (log w))) in H.
  vm_compute in H. discriminate H.
Qed.

(** C1.  [cleanup_process] runs its body on every invocation, whatever the
    [pid] is.  The body clears the [pid] and removes up to three sources
    registered with the handle; for a handle with at most three such sources
    (what [spawn] leaves) none remains.  The loop does not dispatch removed
    sources, so in one iteration, whatever is ready, the exit callback of the
    handle runs at most once, and not at all when [cleanup_process] has run
    before, from [wait_process] or otherwise. *)
Theorem cleanup_runs_once_per_iteration (plat : Platform) (proc status reported : Z)
    (ready : list Ready) (w : World) :
  (sources_of proc (sources w) <= 3)%nat ->
  let w1 := exec (cleanup_process plat proc status) w in
  exits_of proc (log w1) = S (exits_of proc (log w))
  /\ pid (proc_at w1 proc) = 0
  /\ sources_of proc (sources w1) = 0%nat
  /\ exits_of proc (log (exec (dispatch plat ready) w1)) = exits_of proc (log w1)
  /\ exits_of proc (log (exec (dispatch plat ready)
                              (exec (wait_process plat reported proc) w)))
     = S (exits_of proc (log w))
  /\ (exits_of proc (log (exec (dispatch plat ready) w)) <= S (exits_of proc (log w)))%nat.
Proof.
  intros Hle. cbv zeta.
  assert (Hclean : forall st,
    let w1 := exec (cleanup_process plat proc st) w in
    exits_of proc (log w1) = S (exits_of proc (log w))
    /\ pid (proc_at w1 proc) = 0
    /\ sources_of proc (sources w1) = 0%nat
    /\ exits_of proc (log (exec (dispatch plat ready) w1)) = exits_of proc (log w1)).
  { intros st. cbv zeta.
    destruct (cleanup_process_counts plat proc st proc w) as (He & Hs & _).
    destruct (cleanup_process_run plat proc st w) as (_ & Hp & _).
    cbv zeta in He, Hs, Hp. rewrite Z.eqb_refl in He. specialize (Hs eq_refl).
    assert (Hz : sources_of proc (sources (exec (cleanup_process plat proc st) w)) = 0%nat)
      by lia.
    split; [lia |]. split; [rewrite Hp; reflexivity |]. split; [exact Hz |].
    apply (dispatch_counts plat ready proc); [lia | exact Hz]. }
  destruct (Hclean status) as (H1 & H2 & H3 & H4). cbv zeta in *.
  split; [exact H1 |]. split; [exact H2 |]. split; [exact H3 |]. split; [exact H4 |].
  split.
  - unfold wait_process.
    match goal with |- context [cleanup_process plat proc ?st] =>
      destruct (Hclean st) as (G1 & _ & _ & G4) end.
    cbv zeta in G1, G4. rewrite G4. exact G1.
  - apply (dispatch_counts plat ready proc w Hle).
Qed.

Lemma cleanup_runs_once_per_iteration_witness :
  let ready := [mkReady 8 (Z.lor G_IO_IN G_IO_HUP); mkReady 11 0; mkReady 10 G_IO_HUP;
                mkReady 11 0] in
  exits_of Demo.proc (log (exec (dispatch Posix ready) Demo.busy)) = 1%nat
  /\ exits_of Demo.proc
       (log (exec (dispatch Posix ready) (exec (wait_process Posix 0 Demo.proc) Demo.busy)))
     = 1%nat.
Proof.
  cbv zeta.
  pose proof (cleanup_runs_once_per_iteration Posix Demo.proc 0 0
                [mkReady 8 (Z.lor G_IO_IN G_IO_HUP); mkReady 11 0; mkReady 10 G_IO_HUP;
                 mkReady 11 0]
                Demo.busy ltac:(vm_compute; lia)) as (_ & _ & _ & _ & H5 & _).
  split; [vm_compute; reflexivity | exact H5].
Defined.

(** * Further properties of the code

    What follows goes beyond the statements of the specification: it covers
    how the operations of the process interface compose, and the parts of
    [src/textadept_gtk.c] outside the process code that work on plain data. *)

(** ** The life of a process handle *)

Lemma cleanup_process_frame (plat : Platform) (proc status : Z) (w : World) :
  let w' := exec (cleanup_process plat proc status) w in
  let pr := proc_at w proc in
  let rm := g_source_remove_by_user_data proc in
  channels w' = channels (exec rm (exec rm (exec rm w)))
  /\ open_fds w' =
     match plat with
     | Posix => open_fds w ∖ {[fstdin pr]} ∖ {[fstdout pr]} ∖ {[fstderr pr]}
     | Win32 => open_fds w ∖ {[pid pr]} ∖ {[fstdin pr]} ∖ {[fstdout pr]} ∖ {[fstderr pr]}
     end
  /\ next_id w' = next_id w.
Proof.
  cbv zeta. unfold cleanup_process, g_source_remove_by_user_data.
  set (f := fun s => src_data s =? proc).
  do 3 (rewrite exec_bind; cbv beta).
  destruct (remove_source_run f w) as (_ & Hp1 & _ & Ho1 & Hn1).
  destruct (remove_source_run f (exec (remove_source f) w)) as (_ & Hp2 & _ & Ho2 & Hn2).
  destruct (remove_source_run f (exec (remove_source f) (exec (remove_source f) w)))
    as (_ & Hp3 & _ & Ho3 & Hn3).
  set (w3 := exec (remove_source f) (exec (remove_source f) (exec (remove_source f) w))) in *.
  assert (Hpr : proc_at w3 proc = proc_at w proc).
  { unfold proc_at. rewrite Hp3, Hp2, Hp1. reflexivity. }
  assert (Ho : open_fds w3 = open_fds w) by (rewrite Ho3, Ho2, Ho1; reflexivity).
  assert (Hn : next_id w3 = next_id w) by (rewrite Hn3, Hn2, Hn1; reflexivity).
  clearbody w3. clear Hp1 Hp2 Hp3 Ho1 Ho2 Ho3 Hn1 Hn2 Hn3.
  destruct plat; unfold exec, bind, load; cbn; rewrite ?Hpr, ?Ho, ?Hn; auto.
Qed.
(** What a successful [spawn] leaves behind, by platform: the fields of the
    handle, the two channels, the sources, the open descriptors and the
    calls made. *)
Lemma spawn_success_run (plat : Platform) (host : Host) (proc : Z) (cmd : string)
    (cwd : option string) (envi : option (list string)) (ms me : bool) (w : World) :
  (eval (spawn plat host proc cmd cwd envi ms me) w).1 = true ->
  let w' := exec (spawn plat host proc cmd cwd envi ms me) w in
  let n := next_id w in
  let c1 := match plat with Posix => n + 4 | Win32 => n + 10 end in
  let c2 := if ms then Z.succ (Z.succ c1) else Z.succ c1 in
  let id3 := if me then Z.succ (Z.succ c2) else Z.succ c2 in
  let pr := proc_at w' proc in
  pid pr = match plat with Posix => n | Win32 => n + 6 end
  /\ fstdin pr = n + 1
  /\ fstdout pr = match plat with Posix => n + 2 | Win32 => n + 8 end
  /\ fstderr pr = match plat with Posix => n + 3 | Win32 => n + 9 end
  /\ cstdout pr = c1 /\ cstderr pr = c2
  /\ exit_status pr = exit_status (proc_at w proc)
  /\ channels w' =
     <[c2 := mkChannel (fstderr pr) false 1 0 (incoming host (fstderr pr))]>
       (<[c1 := mkChannel (fstdout pr) false 1 0 (incoming host (fstdout pr))]> (channels w))
  /\ sources w' =
     sources w ++ (if ms then [mkSource (Z.succ c1) (IOWatch c1) proc] else [])
               ++ (if me then [mkSource (Z.succ c2) (IOWatch c2) proc] else [])
               ++ [mkSource id3 (ChildWatch (pid pr)) proc]
  /\ open_fds w' =
     match plat with
     | Posix => {[n + 3]} ∪ ({[n + 2]} ∪ ({[n + 1]} ∪ open_fds w))
     | Win32 => {[n + 1; n + 6; n + 8; n + 9]}
                ∪ (open_fds w ∖ {[n; n + 2; n + 3; n + 4; n + 5; n + 7]})
     end
  /\ log w' =
     log w ++ match plat with
              | Posix => []
              | Win32 => [EvCloseHandle (n + 7); EvCloseHandle n;
                          EvCloseHandle (n + 3); EvCloseHandle (n + 5)]
              end ++ [EvSetBuffered c1 false; EvSetBuffered c2 false].
Proof.
  cbv zeta. unfold eval, exec. rewrite spawn_cases. cbv zeta.
  destruct plat.
  - pose proof (spawn_posix_run host proc cmd cwd envi w) as H. cbv zeta in H.
    destruct (g_shell_parse_argv host cmd) as [argv|msg].
    + destruct (g_spawn_error host cwd argv envi) as [msg|].
      * unfold eval. rewrite H. discriminate.
      * destruct H as (-> & Hp & Hs & Hc & Hl & Hn & Ho). intros _.
        destruct (spawn_monitor_run host proc ms me
                    (exec (spawn_posix host proc cmd cwd envi) w))
          as (_ & Hp' & Hc' & Hs' & Ho' & Hl').
        unfold exec in *. rewrite Hp', Hc', Hs', Ho', Hl', Hp, Hs, Hc, Hl, Hn, Ho.
        cbn. repeat split.
    + unfold eval. rewrite H. discriminate.
  - pose proof (spawn_win32_run host proc cmd cwd envi w) as H. cbv zeta in H.
    destruct (CreateProcessA_error host _ cwd envi) as [msg|].
    + destruct H as (-> & _). discriminate.
    + destruct H as (-> & Hp & Hs & Hc & Hl & Hn & Ho). intros _.
      destruct (spawn_monitor_run host proc ms me
                  (exec (spawn_win32 host proc cmd cwd envi) w))
        as (_ & Hp' & Hc' & Hs' & Ho' & Hl').
      unfold exec in *. rewrite Hp', Hc', Hs', Ho', Hl', Hp, Hs, Hc, Hl, Hn, Ho.
      cbn. rewrite <- !app_assoc. repeat split.
Qed.
(** X1.  The two accessors over the life of a handle.  After a successful
    [spawn] [is_process_running] answers true and [get_process_exit_status]
    still gives what the handle held before; after [cleanup_process] (the
    common end of [proc_exited] and [wait_process]) the first answers false
    and the second gives the status handed to the cleanup.  The system hands
    out positive identifiers. *)
Theorem spawn_then_cleanup_lifecycle (plat : Platform) (host : Host) (proc : Z)
    (cmd : string) (cwd : option string) (envi : option (list string)) (ms me : bool)
    (status : Z) (w : World) :
  0 < next_id w ->
  (eval (spawn plat host proc cmd cwd envi ms me) w).1 = true ->
  let w1 := exec (spawn plat host proc cmd cwd envi ms me) w in
  let w2 := exec (cleanup_process plat proc status) w1 in
  eval (is_process_running proc) w1 = true
  /\ eval (get_process_exit_status proc) w1 = eval (get_process_exit_status proc) w
  /\ eval (is_process_running proc) w2 = false
  /\ eval (get_process_exit_status proc) w2 = status.
Proof.
  intros Hpos Hok. cbv zeta.
  destruct (spawn_success_run plat host proc cmd cwd envi ms me w Hok)
    as (Hpid & _ & _ & _ & _ & _ & Hst & _).
  cbv zeta in Hpid, Hst.
  set (w1 := exec (spawn plat host proc cmd cwd envi ms me) w) in *.
  destruct (cleanup_process_run plat proc status w1) as (_ & Hp2 & _).
  cbv zeta in Hp2.
  unfold is_process_running, get_process_exit_status, eval, bind, load; cbn [fst ret].
  rewrite Hp2, Hpid, Hst. cbn [pid exit_status set_exit_status set_pid].
  split; [destruct plat; apply negb_true_iff, Z.eqb_neq; lia |].
  split; [reflexivity |]. split; reflexivity.
Qed.

Lemma spawn_then_cleanup_lifecycle_witness :
  eval (is_process_running Demo.proc)
       (exec (spawn Posix Demo.host Demo.proc "ls" None None true true) Demo.w0) = true.
Proof.
  exact (proj1 (spawn_then_cleanup_lifecycle Posix Demo.host Demo.proc "ls" None None
                  true true 0 Demo.w0 eq_refl eq_refl)).
Defined.
(** X2.  After a successful [spawn] the process holds, beyond what it had
    open before, exactly the descriptors recorded in the handle: the three
    pipe ends on POSIX, and the process handle with them on Windows, where
    the child's ends of the pipes and the thread handle have been closed.
    Identifiers from the counter on are not in use before the call. *)
Theorem spawn_keeps_only_handle_descriptors (plat : Platform) (host : Host) (proc : Z)
    (cmd : string) (cwd : option string) (envi : option (list string)) (ms me : bool)
    (w : World) :
  (forall h, next_id w <= h -> h ∉ open_fds w) ->
  (eval (spawn plat host proc cmd cwd envi ms me) w).1 = true ->
  let w1 := exec (spawn plat host proc cmd cwd envi ms me) w in
  let pr := proc_at w1 proc in
  open_fds w1 =
    match plat with
    | Posix => {[fstdin pr; fstdout pr; fstderr pr]}
    | Win32 => {[pid pr; fstdin pr; fstdout pr; fstderr pr]}
    end ∪ open_fds w
  /\ (fstdin pr ∉ open_fds w) /\ (fstdout pr ∉ open_fds w) /\ (fstderr pr ∉ open_fds w)
  /\ fstdin pr <> fstdout pr /\ fstdin pr <> fstderr pr /\ fstdout pr <> fstderr pr.
Proof.
  intros Hfresh Hok. cbv zeta.
  destruct (spawn_success_run plat host proc cmd cwd envi ms me w Hok)
    as (Hpid & Hin & Hout & Herr & _ & _ & _ & _ & _ & Hfds & _).
  cbv zeta in Hpid, Hin, Hout, Herr, Hfds.
  rewrite Hfds, Hin, Hout, Herr, Hpid.
  split; [| destruct plat; repeat split; try lia; apply Hfresh; lia].
  destruct plat; apply set_eq; intros h; set_unfold; [intuition lia |].
  split; [intuition lia |].
  intros [H | H]; [left; lia | right; split; [exact H |]].
  intros Hh. apply (Hfresh h); [lia | exact H].
Qed.

Lemma spawn_keeps_only_handle_descriptors_witness :
  open_fds (exec (spawn Win32 Demo.host Demo.proc "dir" None None true false) Demo.w0)
  = {[9; 4; 11; 12]} ∪ {[0; 1; 2]}.
Proof.
  refine (proj1 (spawn_keeps_only_handle_descriptors Win32 Demo.host Demo.proc "dir"
                   None None true false Demo.w0 _ eq_refl)).
  intros h Hh. change (open_fds Demo.w0) with ({[0; 1; 2]} : gset Z).
  change (next_id Demo.w0) with 3 in Hh. set_unfold. lia.
Defined.

(** X3.  No descriptor is lost over the life of a handle: a successful
    [spawn] followed by [cleanup_process] leaves open exactly what was open
    before the spawn, on both platforms. *)
Theorem spawn_then_cleanup_restores_descriptors (plat : Platform) (host : Host)
    (proc : Z) (cmd : string) (cwd : option string) (envi : option (list string))
    (ms me : bool) (status : Z) (w : World) :
  (forall h, next_id w <= h -> h ∉ open_fds w) ->
  (eval (spawn plat host proc cmd cwd envi ms me) w).1 = true ->
  open_fds (exec (cleanup_process plat proc status)
              (exec (spawn plat host proc cmd cwd envi ms me) w))
  = open_fds w.
Proof.
  intros Hfresh Hok.
  destruct (spawn_success_run plat host proc cmd cwd envi ms me w Hok)
    as (Hpid & Hin & Hout & Herr & _ & _ & _ & _ & _ & Hfds & _).
  cbv zeta in Hpid, Hin, Hout, Herr, Hfds.
  set (w1 := exec (spawn plat host proc cmd cwd envi ms me) w) in *.
  destruct (cleanup_process_frame plat proc status w1) as (_ & Ho & _).
  cbv zeta in Ho. rewrite Ho, Hfds, Hin, Hout, Herr, Hpid.
  destruct plat; apply set_eq; intros h; set_unfold;
    (split; [intuition lia | intros H]);
    assert (Hlt : h < next_id w)
      by (destruct (Z.lt_ge_cases h (next_id w)) as [Hc | Hc];
          [exact Hc | exfalso; apply (Hfresh h); [lia | exact H]]);
    intuition lia.
Qed.

Lemma spawn_then_cleanup_restores_descriptors_witness :
  open_fds (exec (cleanup_process Win32 Demo.proc 0)
              (exec (spawn Win32 Demo.host Demo.proc "dir" None None true false) Demo.w0))
  = {[0; 1; 2]}.
Proof.
  refine (spawn_then_cleanup_restores_descriptors Win32 Demo.host Demo.proc "dir"
            None None true false 0 Demo.w0 _ eq_refl).
  intros h Hh. change (open_fds Demo.w0) with ({[0; 1; 2]} : gset Z).
  change (next_id Demo.w0) with 3 in Hh. set_unfold. lia.
Defined.
Lemma take_source_skip (p : Z) (l l' : list Source) :
  sources_of p l = 0%nat ->
  take_source (fun s => src_data s =? p) (l ++ l') =
  ((take_source (fun s => src_data s =? p) l').1,
   l ++ (take_source (fun s => src_data s =? p) l').2).
Proof.
  unfold sources_of. induction l as [|s l IH]; cbn [app take_source List.filter]; intros H.
  - destruct (take_source _ l'); reflexivity.
  - destruct (src_data s =? p); [discriminate |].
    rewrite (IH H). reflexivity.
Qed.

(** What destroying the first source that satisfies [f] does to the sources
    and to the channels. *)
Lemma remove_source_found (f : Source -> bool) (w : World) (s : Source)
    (rest : list Source) :
  take_source f (sources w) = (Some s, rest) ->
  let w' := exec (remove_source f) w in
  sources w' = rest
  /\ channels w' =
     match src_kind s with
     | IOWatch c =>
         match channels w !! c with
         | Some ch =>
             match ch_refs ch with
             | S (S n) => <[c := set_ch_refs (S n) ch]> (channels w)
             | _ => delete c (channels w)
             end
         | None => channels w
         end
     | ChildWatch _ => channels w
     end.
Proof.
  intros Ht. cbv zeta. unfold remove_source, exec. rewrite Ht. cbn [snd].
  unfold finalize_source. destruct (src_kind s) as [c|child]; [| split; reflexivity].
  unfold g_io_channel_unref. cbn [channels set_sources].
  destruct (channels w !! c) as [ch|]; [| split; reflexivity].
  destruct (ch_refs ch) as [|[|n]]; split; reflexivity.
Qed.

Lemma remove_source_absent (f : Source -> bool) (w : World) (rest : list Source) :
  take_source f (sources w) = (None, rest) -> exec (remove_source f) w = w.
Proof. intros Ht. unfold remove_source, exec. rewrite Ht. reflexivity. Qed.

(** Removing by user data in a world whose sources are [l ++ new], where
    nothing in [l] belongs to [p] and [new] starts with a source of [p]. *)
Lemma remove_by_user_data_head (p : Z) (w : World) (l new : list Source) (s : Source) :
  sources w = l ++ s :: new -> sources_of p l = 0%nat -> src_data s = p ->
  let w' := exec (g_source_remove_by_user_data p) w in
  sources w' = l ++ new
  /\ channels w' =
     match src_kind s with
     | IOWatch c =>
         match channels w !! c with
         | Some ch =>
             match ch_refs ch with
             | S (S n) => <[c := set_ch_refs (S n) ch]> (channels w)
             | _ => delete c (channels w)
             end
         | None => channels w
         end
     | ChildWatch _ => channels w
     end.
Proof.
  intros Hs Hl Hd. unfold g_source_remove_by_user_data.
  apply remove_source_found. rewrite Hs, (take_source_skip p l _ Hl).
  cbn [take_source]. rewrite Hd, Z.eqb_refl. reflexivity.
Qed.

Lemma remove_by_user_data_none (p : Z) (w : World) :
  sources_of p (sources w) = 0%nat -> exec (g_source_remove_by_user_data p) w = w.
Proof.
  intros Hl. unfold g_source_remove_by_user_data.
  apply (remove_source_absent _ w (sources w)).
  rewrite <- (app_nil_r (sources w)) at 1. rewrite (take_source_skip p _ _ Hl).
  cbn [take_source fst snd]. rewrite app_nil_r. reflexivity.
Qed.
(** X4.  What [cleanup_process] does to the two channels of a handle that
    was spawned with no source of its own registered before.  A monitored
    channel is owned by its watch alone ([new_channel] drops its own
    reference), so removing the watch frees it; a channel that is not
    monitored keeps the reference [new_channel] created it with and stays
    allocated.  The handle keeps both addresses in either case. *)
Theorem cleanup_frees_monitored_channels (plat : Platform) (host : Host) (proc : Z)
    (cmd : string) (cwd : option string) (envi : option (list string)) (ms me : bool)
    (status : Z) (w : World) :
  sources_of proc (sources w) = 0%nat ->
  (eval (spawn plat host proc cmd cwd envi ms me) w).1 = true ->
  let w1 := exec (spawn plat host proc cmd cwd envi ms me) w in
  let w2 := exec (cleanup_process plat proc status) w1 in
  let pr := proc_at w1 proc in
  cstdout (proc_at w2 proc) = cstdout pr
  /\ cstderr (proc_at w2 proc) = cstderr pr
  /\ channels w2 !! cstdout pr =
     (if ms then None
      else Some (mkChannel (fstdout pr) false 1 0 (incoming host (fstdout pr))))
  /\ channels w2 !! cstderr pr =
     (if me then None
      else Some (mkChannel (fstderr pr) false 1 0 (incoming host (fstderr pr)))).
Proof.
  intros Hnone Hok. cbv zeta.
  destruct (spawn_success_run plat host proc cmd cwd envi ms me w Hok)
    as (_ & _ & _ & _ & Hc1 & Hc2 & _ & Hch & Hsrc & _).
  cbv zeta in Hc1, Hc2, Hch, Hsrc.
  set (w1 := exec (spawn plat host proc cmd cwd envi ms me) w) in *.
  set (pr := proc_at w1 proc) in *.
  set (c1 := match plat with Posix => next_id w + 4 | Win32 => next_id w + 10 end) in *.
  set (c2 := if ms then Z.succ (Z.succ c1) else Z.succ c1) in *.
  assert (Hne : c1 <> c2) by (unfold c2; destruct ms; lia).
  set (ch1 := mkChannel (fstdout pr) false 1 0 (incoming host (fstdout pr))) in *.
  set (ch2 := mkChannel (fstderr pr) false 1 0 (incoming host (fstderr pr))) in *.
  destruct (cleanup_process_frame plat proc status w1) as (Hchan & _).
  destruct (cleanup_process_run plat proc status w1) as (_ & Hp2 & Hs2 & _).
  cbv zeta in Hchan, Hp2, Hs2. fold pr in Hp2.
  rewrite Hp2, Hchan, Hc1, Hc2. cbn [cstdout cstderr set_exit_status set_pid].
  rewrite Hc1, Hc2.
  assert (H1 : channels w1 !! c1 = Some ch1)
    by (rewrite Hch, lookup_insert_ne, lookup_insert_eq by congruence; reflexivity).
  assert (H2 : channels w1 !! c2 = Some ch2) by (rewrite Hch, lookup_insert_eq; reflexivity).
  split; [reflexivity |]. split; [reflexivity |].
  split.
  all: clear Hp2 Hs2 Hchan.
  all: destruct ms, me; cbn [app] in Hsrc.
  all: repeat
    match goal with
    | |- context [exec (g_source_remove_by_user_data ?p) ?v] =>
        lazymatch v with
        | context [g_source_remove_by_user_data] => fail
        | _ => idtac
        end;
        let Hs := fresh "Hs" in
        let Hc := fresh "Hc" in
        let v' := fresh "v" in
        lazymatch goal with
        | Hv : sources v = ?l ++ ?s :: ?new |- _ =>
            destruct (remove_by_user_data_head p v (sources w) new s Hv Hnone eq_refl)
              as (Hs & Hc);
            cbv zeta in Hs, Hc; cbn [src_kind] in Hc;
            set (v' := exec (g_source_remove_by_user_data p) v) in *; clearbody v'
        | Hv : sources v = ?l ++ [] |- _ =>
            rewrite (remove_by_user_data_none p v) by (rewrite Hv, app_nil_r; exact Hnone)
        end
    end.
  all: clear Hch.
  all: repeat match goal with
              | H : channels ?v = _ |- context [channels ?v] => rewrite H; clear H
              end.
  all: subst ch1 ch2.
  all: repeat (first [ rewrite H1 | rewrite H2 | rewrite lookup_delete_eq
                     | rewrite lookup_delete_ne by congruence ];
               cbn [ch_refs]).
  all: reflexivity.
Qed.

Lemma cleanup_frees_monitored_channels_witness :
  let w1 := exec (spawn Posix Demo.host Demo.proc "ls" None None true false) Demo.w0 in
  let w2 := exec (cleanup_process Posix Demo.proc 0) w1 in
  channels w2 !! cstdout (proc_at w1 Demo.proc) = None.
Proof.
  exact (proj1 (proj2 (proj2
           (cleanup_frees_monitored_channels Posix Demo.host Demo.proc "ls" None None
              true false 0 Demo.w0 eq_refl eq_refl)))).
Defined.
Lemma filter_take_other (p q : Z) (l : list Source) :
  p <> q ->
  List.filter (fun s => src_data s =? p) (take_source (fun s => src_data s =? q) l).2
  = List.filter (fun s => src_data s =? p) l.
Proof.
  intros Hpq. induction l as [|s l IH]; cbn [take_source]; [reflexivity |].
  destruct (src_data s =? q) eqn:E.
  - cbn [snd List.filter]. apply Z.eqb_eq in E.
    destruct (Z.eqb_spec (src_data s) p); [congruence | reflexivity].
  - destruct (take_source _ l) as [found rest]. cbn [snd] in *.
    cbn [List.filter]. rewrite IH. reflexivity.
Qed.

(** X5.  [cleanup_process] for one handle leaves every other handle alone:
    the other [struct Process] is unchanged, the sources registered for it
    stay registered in the same order, and its exit callback does not
    run. *)
Theorem cleanup_process_leaves_other_handles (plat : Platform) (proc status q : Z)
    (w : World) :
  q <> proc ->
  let w' := exec (cleanup_process plat proc status) w in
  proc_at w' q = proc_at w q
  /\ List.filter (fun s => src_data s =? q) (sources w')
     = List.filter (fun s => src_data s =? q) (sources w)
  /\ exits_of q (log w') = exits_of q (log w).
Proof.
  intros Hq. cbv zeta.
  destruct (cleanup_process_run plat proc status w) as (_ & _ & Hs & Hp).
  destruct (cleanup_process_counts plat proc status q w) as (He & _).
  cbv zeta in Hs, Hp, He.
  split; [apply Hp; exact Hq |]. split.
  - rewrite Hs, !filter_take_other by exact Hq. reflexivity.
  - rewrite He. destruct (Z.eqb_spec proc q); [congruence | lia].
Qed.

Lemma cleanup_process_leaves_other_handles_witness :
  proc_at (exec (cleanup_process Posix Demo.proc 0) Demo.busy) 101 = proc_at Demo.busy 101.
Proof.
  refine (proj1 (cleanup_process_leaves_other_handles Posix Demo.proc 0 101 Demo.busy _)).
  unfold Demo.proc. lia.
Defined.

(** X6.  On POSIX the status [wait_process] stores and reports is always in
    the range 0..255, whatever [waitpid] stored: it is the low byte of the
    exit code, or 1. *)
Theorem wait_process_status_range (reported proc : Z) (w : World) :
  0 <= eval (get_process_exit_status proc) (exec (wait_process Posix reported proc) w) <= 255.
Proof.
  unfold wait_process, get_process_exit_status, eval, bind, load; cbn [fst ret].
  match goal with
  | |- context [cleanup_process Posix proc ?s] =>
      destruct (cleanup_process_run Posix proc s w) as (_ & -> & _)
  end.
  cbn [exit_status set_exit_status].
  destruct (WaitStatus.WIFEXITED reported); [| lia].
  unfold WaitStatus.WEXITSTATUS.
  assert (Hb : 0 <= Z.land (Z.shiftr reported 8) 255 < 256).
  { change 255 with (Z.ones 8). rewrite Z.land_ones by lia.
    apply (Z.mod_pos_bound _ (2 ^ 8)). lia. }
  lia.
Qed.

(** X7.  [wait_process] on POSIX, for a wait status as the system encodes
    it: a child that exited with code [c] is reported with [c], a child
    killed by a signal with 1; the exit callback gets the same number. *)
Theorem wait_process_reports_exit_code (o : WaitStatus.Outcome) (proc : Z) (w : World) :
  match o with
  | WaitStatus.Exited c => 0 <= c < 256
  | WaitStatus.Signaled s => 0 < s < 128
  end ->
  let w' := exec (wait_process Posix (WaitStatus.encode o) proc) w in
  let status := match o with WaitStatus.Exited c => c | WaitStatus.Signaled _ => 1 end in
  eval (get_process_exit_status proc) w' = status
  /\ exists before, log w' = before ++ [EvExited proc status].
Proof.
  intros H. cbv zeta. split; [apply wait_process_normalizes; exact H |].
  unfold wait_process. rewrite WIFEXITED_encode.
  match goal with
  | |- context [cleanup_process Posix proc ?s] =>
      destruct (cleanup_process_run Posix proc s w) as (-> & _)
  end.
  eexists (log w ++ [_; _; _; _]). rewrite <- app_assoc. cbn [app].
  destruct o as [c|s].
  - rewrite WEXITSTATUS_encode by exact H. reflexivity.
  - assert (E : (Z.land s 127 =? 0) = false).
    { apply Z.eqb_neq. change 127 with (Z.ones 7). rewrite Z.land_ones by lia.
      rewrite Z.mod_small by (change (2 ^ 7) with 128; lia). lia. }
    rewrite E. reflexivity.
Qed.

Lemma wait_process_reports_exit_code_witness :
  eval (get_process_exit_status Demo.proc)
       (exec (wait_process Posix (WaitStatus.encode (WaitStatus.Signaled 15)) Demo.proc)
             Demo.busy) = 1.
Proof.
  refine (proj1 (wait_process_reports_exit_code (WaitStatus.Signaled 15) Demo.proc
                   Demo.busy _)).
  lia.
Defined.
(** X8.  A manual read works on the stdout channel only: it changes no
    [struct Process], registers and removes no source, opens and closes no
    descriptor, and runs no exit callback. *)
Theorem manual_read_frame (proc : Z) (opt : ascii) (len : Z) (error : option string)
    (code : Z) (w : World) :
  let w' := exec (read_process_output proc opt len error code) w in
  procs w' = procs w /\ sources w' = sources w /\ open_fds w' = open_fds w
  /\ forall p, exits_of p (log w') = exits_of p (log w).
Proof.
  cbv zeta.
  destruct (read_process_output_run proc opt len error code w)
    as (_ & Hlog & _ & _ & Hp & Hs & Ho).
  cbv zeta in Hlog, Hp, Hs, Ho.
  split; [exact Hp |]. split; [exact Hs |]. split; [exact Ho |].
  intros p. rewrite Hlog, !exits_of_app.
  destruct (ch_buffered _), (read_call_of opt len), (0 <? _); cbn; lia.
Qed.

Lemma read_call_of_none (opt : ascii) (len : Z) :
  opt <> "l"%char -> opt <> "L"%char -> opt <> "a"%char -> opt <> "n"%char ->
  read_call_of opt len = None /\ (opt =? "l")%char = false.
Proof.
  intros Hl HL Ha Hn. unfold read_call_of.
  apply Ascii.eqb_neq in Hl, HL, Ha, Hn. rewrite Hl, HL, Ha, Hn. split; reflexivity.
Qed.

(** X9.  An option other than l, L, a and n makes no read call at all, and
    the function returns its local [buf] as it is, never assigned, with the
    length, the error and the code as the caller passed them. *)
Theorem manual_read_unknown_option (proc : Z) (opt : ascii) (len : Z)
    (error : option string) (code : Z) (w : World) :
  opt <> "l"%char -> opt <> "L"%char -> opt <> "a"%char -> opt <> "n"%char ->
  let c := cstdout (proc_at w proc) in
  let ch := channel_at w c in
  let w' := exec (read_process_output proc opt len error code) w in
  eval (read_process_output proc opt len error code) w
  = Some (mkReadResult (Some Indeterminate) len error code)
  /\ log w' = log w ++ (if ch_buffered ch then [] else [EvSetBuffered c true])
                    ++ (if 0 <? ch_pending ch then [] else [EvSetBuffered c false]).
Proof.
  intros Hl HL Ha Hn. cbv zeta.
  destruct (read_call_of_none opt len Hl HL Ha Hn) as (Hcall & Hopt).
  destruct (read_process_output_run proc opt len error code w) as (He & Hlog & _).
  cbv zeta in He, Hlog. rewrite Hcall in He, Hlog.
  split; [| exact Hlog].
  rewrite He. unfold strip_line_end. rewrite Hopt. reflexivity.
Qed.

Lemma manual_read_unknown_option_witness :
  eval (read_process_output Demo.proc "x" 5 None 0) Demo.busy
  = Some (mkReadResult (Some Indeterminate) 5 None 0).
Proof.
  refine (proj1 (manual_read_unknown_option Demo.proc "x" 5 None 0 Demo.busy _ _ _ _));
    discriminate.
Defined.

(** X10.  In the modes that do not strip a line end (L, a and n), a read
    that ends with normal status returns exactly the bytes the read call
    stored, the length is their number, and [*error] and [*code] are left as
    the caller passed them. *)
Theorem manual_read_returns_bytes_read (proc : Z) (opt : ascii) (len : Z)
    (error : option string) (code : Z) (k : ReadCall) (w : World) :
  opt <> "l"%char ->
  read_call_of opt len = Some k ->
  let r := clip k (next_reply (channel_at w (cstdout (proc_at w proc)))) in
  reported_status opt r = G_IO_STATUS_NORMAL ->
  eval (read_process_output proc opt len error code) w
  = Some (mkReadResult (Some (Block (rp_below r) (rp_data r)))
                       (Z.of_nat (length (rp_data r))) error code).
Proof.
  intros Hl Hcall. cbv zeta. intros Hst.
  destruct (read_process_output_run proc opt len error code w) as (He & _).
  cbv zeta in He. rewrite Hcall in He. rewrite He, Hst.
  unfold strip_line_end. apply Ascii.eqb_neq in Hl. rewrite Hl. reflexivity.
Qed.

Lemma manual_read_returns_bytes_read_witness :
  eval (read_process_output Demo.proc "n" 2 None 0)
       (Demo.reading [Demo.line ["a"; "b"; "c"]%byte])
  = Some (mkReadResult (Some (Block x00 ["a"; "b"]%byte)) 2 None 0).
Proof.
  refine (manual_read_returns_bytes_read Demo.proc "n" 2 None 0 (ReadChars 2)
            (Demo.reading [Demo.line ["a"; "b"; "c"]%byte]) _ eq_refl eq_refl).
  discriminate.
Defined.
Lemma take_source_app (f : Source -> bool) (l l' : list Source) :
  (forall s, In s l -> f s = false) ->
  take_source f (l ++ l') = ((take_source f l').1, l ++ (take_source f l').2).
Proof.
  induction l as [|s l IH]; cbn [app take_source]; intros H.
  - destruct (take_source f l'); reflexivity.
  - rewrite (H s (or_introl eq_refl)), IH by (intros s' Hs'; apply H; right; exact Hs').
    reflexivity.
Qed.

Lemma find_app_skip (f : Source -> bool) (l l' : list Source) :
  (forall s, In s l -> f s = false) -> List.find f (l ++ l') = List.find f l'.
Proof.
  induction l as [|s l IH]; cbn [app List.find]; intros H; [reflexivity |].
  rewrite (H s (or_introl eq_refl)). apply IH. intros s' Hs'. apply H. right. exact Hs'.
Qed.

(** The value [read_channel] returns to GLib. *)
Lemma read_channel_eval (source cond proc : Z) (w : World) :
  eval (read_channel source cond proc) w = watch_stays (proc_at w proc) cond.
Proof.
  unfold read_channel, watch_stays. rewrite eval_bind.
  change (exec (load proc) w) with w. change (eval (load proc) w) with (proc_at w proc).
  destruct (pid (proc_at w proc) =? 0) eqn:Hpid; [reflexivity |].
  destruct (Z.land cond G_IO_IN =? 0) eqn:Hin; [reflexivity |].
  cbn [orb negb andb].
  rewrite eval_bind.
  change (exec (fun w0 : World => (ch_replies (channel_at w0 source), w0)) w) with w.
  change (eval (fun w0 : World => (ch_replies (channel_at w0 source), w0)) w)
    with (ch_replies (channel_at w source)).
  rewrite eval_bind, eval_bind.
  destruct (read_channel_loop_run (ch_replies (channel_at w source)) source proc w eq_refl)
    as (_ & Hp & _).
  cbv zeta in Hp.
  set (w' := exec (read_channel_loop _ source proc) w) in *.
  change (exec (load proc) w') with w'. change (eval (load proc) w') with (proc_at w' proc).
  unfold proc_at. rewrite Hp. fold (proc_at w proc). rewrite Hpid. reflexivity.
Qed.

(** X11.  One dispatch of an output watch.  The watch stays registered
    exactly when the handle is live, input was flagged and no hang-up was;
    otherwise GLib removes this watch, and only this one: every other
    source, the other stream's watch and the child watch among them, stays
    registered in its place.  No [struct Process] changes and no exit
    callback runs. *)
Theorem output_watch_dispatch (plat : Platform) (id cond c p : Z)
    (before after : list Source) (w : World) :
  sources w = before ++ mkSource id (IOWatch c) p :: after ->
  (forall s, In s before -> src_id s <> id) ->
  let w' := exec (dispatch_one plat (mkReady id cond)) w in
  sources w' = (if watch_stays (proc_at w p) cond then sources w else before ++ after)
  /\ procs w' = procs w
  /\ forall q, exits_of q (log w') = exits_of q (log w).
Proof.
  intros Hsrc Hfresh. cbv zeta. rewrite dispatch_one_exec. cbn [rd_id rd_arg].
  assert (Hf : forall s, In s before -> (src_id s =? id) = false)
    by (intros s Hs; apply Z.eqb_neq, Hfresh, Hs).
  rewrite Hsrc, (find_app_skip _ _ _ Hf). cbn [List.find src_id]. rewrite Z.eqb_refl.
  cbn [src_kind src_data]. rewrite read_channel_eval.
  assert (Hp : procs (exec (read_channel c cond p) w) = procs w).
  { rewrite read_channel_exec.
    destruct ((pid (proc_at w p) =? 0) || (Z.land cond G_IO_IN =? 0)); [reflexivity |].
    apply (read_channel_loop_run _ c p w eq_refl). }
  destruct (watch_stays (proc_at w p) cond).
  - destruct (read_channel_counts c cond p 0 w) as (_ & Hs). cbv zeta in Hs.
    rewrite Hs. split; [exact Hsrc |]. split; [exact Hp |].
    intros q. apply (read_channel_counts c cond p q w).
  - set (w1 := exec (read_channel c cond p) w) in *.
    assert (Hs1 : sources w1 = sources w) by apply (read_channel_counts c cond p 0 w).
    unfold g_source_destroy.
    assert (Ht : take_source (fun s => src_id s =? id) (sources w1)
                 = (Some (mkSource id (IOWatch c) p), before ++ after)).
    { rewrite Hs1, Hsrc, (take_source_app _ _ _ Hf). cbn [take_source src_id].
      rewrite Z.eqb_refl. reflexivity. }
    destruct (remove_source_found _ w1 _ _ Ht) as (Hs2 & _). cbv zeta in Hs2.
    destruct (remove_source_run (fun s => src_id s =? id) w1) as (_ & Hp2 & Hl2 & _).
    cbv zeta in Hp2, Hl2.
    split; [exact Hs2 |]. split; [rewrite Hp2; exact Hp |].
    intros q. rewrite Hl2. apply (read_channel_counts c cond p q w).
Qed.

Lemma output_watch_dispatch_witness :
  sources (exec (dispatch_one Posix (mkReady 8 (Z.lor G_IO_IN G_IO_HUP))) Demo.busy)
  = [mkSource 10 (IOWatch 9) 100; mkSource 11 (ChildWatch 3) 100].
Proof.
  refine (proj1 (output_watch_dispatch Posix 8 (Z.lor G_IO_IN G_IO_HUP) 7 100 [] _
                   Demo.busy eq_refl _)).
  intros s [].
Defined.

(** ** Who owns the stdout channel *)

(** A handle that had no source has at most three after [spawn]. *)
Lemma spawn_registers_at_most_three (plat : Platform) (host : Host) (proc : Z)
    (cmd : string) (cwd : option string) (envi : option (list string)) (ms me : bool)
    (w : World) :
  (eval (spawn plat host proc cmd cwd envi ms me) w).1 = true ->
  sources_of proc (sources w) = 0%nat ->
  (sources_of proc (sources (exec (spawn plat host proc cmd cwd envi ms me) w)) <= 3)%nat.
Proof.
  intros Hok Hnone.
  destruct (spawn_success_run plat host proc cmd cwd envi ms me w Hok)
    as (_ & _ & _ & _ & _ & _ & _ & _ & Hsrc & _).
  cbv zeta in Hsrc. rewrite Hsrc, !sources_of_app, Hnone. unfold sources_of.
  destruct ms, me; cbn [List.filter src_data length app]; rewrite ?Z.eqb_refl;
    cbn [length]; lia.
Qed.

(** Reading from a channel leaves every reference count as it is. *)
Lemma read_channel_loop_refs (script : list Reply) :
  forall (source proc c : Z) (w : World),
    ch_refs <$> (channels (exec (read_channel_loop script source proc) w) !! c)
    = ch_refs <$> (channels w !! c).
Proof.
  assert (Hstep : forall (source proc c : Z) (w : World),
    let r := eval (channel_read source (ReadChars BUFSIZ)) w in
    let w1 := exec (channel_read source (ReadChars BUFSIZ)) w in
    let w2 := exec (when (status_eqb (rp_status r) G_IO_STATUS_NORMAL && (0 <? rp_len r))
                         (process_output proc (rp_data r)
                            (source =? cstdout (proc_at w1 proc)))) w1 in
    ch_refs <$> (channels w2 !! c) = ch_refs <$> (channels w !! c)).
  { intros source proc c w. cbv zeta.
    rewrite exec_when.
    assert (H1 : ch_refs <$> (channels (exec (channel_read source (ReadChars BUFSIZ)) w) !! c)
                 = ch_refs <$> (channels w !! c)).
    { unfold exec. rewrite channel_read_run. cbn [snd].
      rewrite channels_set_channels, channels_set_log.
      destruct (decide (source = c)) as [-> | Hne].
      - rewrite lookup_alter_eq. destruct (channels w !! c); reflexivity.
      - rewrite lookup_alter_ne by exact Hne. reflexivity. }
    destruct (status_eqb _ _ && _); [| exact H1].
    unfold process_output, exec. rewrite emit_run. cbn [snd].
    rewrite channels_set_log.
    exact H1. }
  cbv zeta in Hstep.
  induction script as [|r0 rest IH]; intros source proc c w;
    unfold exec at 1; rewrite read_channel_loop_step; cbv zeta.
  - cbn [snd]. apply Hstep.
  - destruct (_ =? BUFSIZ); [| cbn [snd]; apply Hstep].
    fold (exec (read_channel_loop rest source proc)
            (exec (when (status_eqb (rp_status (eval (channel_read source (ReadChars BUFSIZ)) w))
                           G_IO_STATUS_NORMAL
                         && (0 <? rp_len (eval (channel_read source (ReadChars BUFSIZ)) w)))
                        (process_output proc
                           (rp_data (eval (channel_read source (ReadChars BUFSIZ)) w))
                           (source =? cstdout
                              (proc_at (exec (channel_read source (ReadChars BUFSIZ)) w) proc))))
                  (exec (channel_read source (ReadChars BUFSIZ)) w))).
    rewrite IH. apply Hstep.
Qed.

Lemma read_channel_refs (source cond proc c : Z) (w : World) :
  ch_refs <$> (channels (exec (read_channel source cond proc) w) !! c)
  = ch_refs <$> (channels w !! c).
Proof.
  rewrite read_channel_exec.
  destruct ((pid (proc_at w proc) =? 0) || (Z.land cond G_IO_IN =? 0)); [reflexivity |].
  apply read_channel_loop_refs.
Qed.

(** C10.  What the code does with the monitor flag.  Right after a
    successful [spawn] both channels exist whatever the flags are.  But the
    flag for stdout decides more than the watch: [new_channel] gives up its
    own reference to a monitored channel, so the watch is its only owner.
    When the watch is notified of a hang-up, [read_channel] returns false,
    GLib removes the watch and the channel is freed, while the handle is
    still live and [cstdout] still holds the address: a manual read would
    use a freed channel.  Without monitoring the channel stays, and the
    manual read returns what the child wrote.  The second part runs both
    cases for a child that wrote the line hi and closed its stdout. *)
Theorem monitored_channel_freed_with_watch :
  (forall (plat : Platform) (host : Host) (proc : Z) (cmd : string) (cwd : option string)
          (envi : option (list string)) (ms me : bool) (cond : Z) (w : World),
      0 < next_id w ->
      (forall s, In s (sources w) -> src_id s < next_id w) ->
      (eval (spawn plat host proc cmd cwd envi ms me) w).1 = true ->
      Z.land cond G_IO_HUP <> 0 ->
      let w1 := exec (spawn plat host proc cmd cwd envi ms me) w in
      let pr := proc_at w1 proc in
      let stdout_channel := mkChannel (fstdout pr) false 1 0 (incoming host (fstdout pr)) in
      let w2 := exec (dispatch_one plat (mkReady (Z.succ (cstdout pr)) cond)) w1 in
      channels w1 !! cstdout pr = Some stdout_channel
      /\ channels w1 !! cstderr pr
         = Some (mkChannel (fstderr pr) false 1 0 (incoming host (fstderr pr)))
      /\ proc_at w2 proc = pr
      /\ eval (is_process_running proc) w2 = true
      /\ channels w2 !! cstdout pr = if ms then None else Some stdout_channel)
  /\ (let run := fun monitor_stdout =>
        exec (dispatch Posix [mkReady 8 (Z.lor G_IO_IN G_IO_HUP)])
             (exec (spawn Posix talking_host Demo.proc "ls" None None monitor_stdout false)
                   Demo.w0) in
      eval (is_process_running Demo.proc) (run true) = true
      /\ cstdout (proc_at (run true) Demo.proc) = 7
      /\ channels (run true) !! 7 = None
      /\ channels (run false) !! 7
         = Some (mkChannel 5 false 1 0 [Demo.line ["h"; "i"; LF]%byte])
      /\ eval (read_process_output Demo.proc "l" 0 None 0) (run false)
         = Some (mkReadResult (Some (Block x00 ["h"; "i"; LF]%byte)) 2 None 0)).
Proof.
  split; [| vm_compute; repeat split; reflexivity].
  intros plat host proc cmd cwd envi ms me cond w Hpos Hold Hok Hhup. cbv zeta.
  destruct (spawn_success_run plat host proc cmd cwd envi ms me w Hok)
    as (Hpid & _ & _ & _ & Hc1 & Hc2 & _ & Hch & Hsrc & _).
  cbv zeta in Hpid, Hc1, Hc2, Hch, Hsrc.
  set (w1 := exec (spawn plat host proc cmd cwd envi ms me) w) in *.
  set (pr := proc_at w1 proc) in *.
  set (c1 := match plat with Posix => next_id w + 4 | Win32 => next_id w + 10 end) in *.
  set (c2 := if ms then Z.succ (Z.succ c1) else Z.succ c1) in *.
  assert (Hge : next_id w <= c1) by (unfold c1; destruct plat; lia).
  assert (Hne : c1 <> c2) by (unfold c2; destruct ms; lia).
  set (ch1 := mkChannel (fstdout pr) false 1 0 (incoming host (fstdout pr))) in *.
  assert (H1 : channels w1 !! c1 = Some ch1)
    by (rewrite Hch, lookup_insert_ne, lookup_insert_eq by congruence; reflexivity).
  assert (H2 : channels w1 !! c2
               = Some (mkChannel (fstderr pr) false 1 0 (incoming host (fstderr pr))))
    by (rewrite Hch, lookup_insert_eq; reflexivity).
  assert (Hlive : negb (pid pr =? 0) = true)
    by (rewrite Hpid; destruct plat; apply negb_true_iff, Z.eqb_neq; lia).
  rewrite Hc1, Hc2. split; [exact H1 |]. split; [exact H2 |].
  assert (Hf : forall s, In s (sources w) -> (src_id s =? Z.succ c1) = false)
    by (intros s Hs; apply Z.eqb_neq; specialize (Hold s Hs); lia).
  rewrite dispatch_one_exec. cbn [rd_id rd_arg].
  rewrite Hsrc, (find_app_skip _ _ _ Hf).
  destruct ms.
  - cbn [app List.find src_id]. rewrite Z.eqb_refl. cbn [src_kind src_data].
    rewrite read_channel_eval. fold pr.
    assert (Hstay : watch_stays pr cond = false).
    { unfold watch_stays. apply Z.eqb_neq in Hhup. rewrite Hhup.
      apply andb_false_r. }
    rewrite Hstay.
    set (w1r := exec (read_channel c1 cond proc) w1).
    assert (Hpr : procs w1r = procs w1).
    { unfold w1r. rewrite read_channel_exec.
      destruct ((pid (proc_at w1 proc) =? 0) || (Z.land cond G_IO_IN =? 0)); [reflexivity |].
      apply (read_channel_loop_run _ c1 proc w1 eq_refl). }
    assert (Hsr : sources w1r = sources w1) by apply (read_channel_counts c1 cond proc 0 w1).
    assert (Hrefs : ch_refs <$> (channels w1r !! c1) = Some 1%nat)
      by (unfold w1r; rewrite read_channel_refs, H1; reflexivity).
    unfold g_source_destroy.
    assert (Ht : take_source (fun s => src_id s =? Z.succ c1) (sources w1r)
                 = (Some (mkSource (Z.succ c1) (IOWatch c1) proc),
                    sources w ++ (if me then [mkSource (Z.succ c2) (IOWatch c2) proc] else [])
                              ++ [mkSource (if me then Z.succ (Z.succ c2) else Z.succ c2)
                                    (ChildWatch (pid pr)) proc])).
    { rewrite Hsr, Hsrc, (take_source_app _ _ _ Hf). cbn [app take_source src_id].
      rewrite Z.eqb_refl. reflexivity. }
    destruct (remove_source_found _ w1r _ _ Ht) as (_ & Hc). cbv zeta in Hc.
    cbn [src_kind] in Hc.
    destruct (remove_source_run (fun s => src_id s =? Z.succ c1) w1r) as (_ & Hp2 & _).
    cbv zeta in Hp2.
    assert (Hproc : proc_at (exec (remove_source (fun s => src_id s =? Z.succ c1)) w1r) proc
                    = pr).
    { unfold proc_at. rewrite Hp2, Hpr. reflexivity. }
    split; [exact Hproc |].
    split.
    { unfold is_process_running, eval, bind, load; cbn [fst ret].
      rewrite Hproc. exact Hlive. }
    rewrite Hc. destruct (channels w1r !! c1) as [ch|]; [| discriminate Hrefs].
    cbn in Hrefs. injection Hrefs as Hrefs. rewrite Hrefs. apply lookup_delete_eq.
  - assert (Hnone : List.find (fun s => src_id s =? Z.succ c1)
                      ([] ++ (if me then [mkSource (Z.succ c2) (IOWatch c2) proc] else [])
                          ++ [mkSource (if me then Z.succ (Z.succ c2) else Z.succ c2)
                                (ChildWatch (pid pr)) proc]) = None).
    { unfold c2. destruct me; cbn [app List.find src_id];
        repeat match goal with
               | |- context [?a =? ?b] =>
                   replace (a =? b) with false by (symmetry; apply Z.eqb_neq; lia)
               end; reflexivity. }
    rewrite Hnone.
    split; [reflexivity |].
    split; [| exact H1].
    unfold is_process_running, eval, bind, load; cbn [fst ret]. exact Hlive.
Qed.

Lemma monitored_channel_freed_with_watch_witness :
  let w1 := exec (spawn Posix talking_host Demo.proc "ls" None None true false) Demo.w0 in
  let w2 := exec (dispatch_one Posix (mkReady 8 (Z.lor G_IO_IN G_IO_HUP))) w1 in
  channels w1 !! 7 = Some (mkChannel 5 false 1 0 [Demo.line ["h"; "i"; LF]%byte])
  /\ eval (is_process_running Demo.proc) w2 = true
  /\ channels w2 !! 7 = None.
Proof.
  pose proof (proj1 monitored_channel_freed_with_watch Posix talking_host Demo.proc "ls"
                None None true false (Z.lor G_IO_IN G_IO_HUP) Demo.w0 eq_refl
                ltac:(intros s []) eq_refl ltac:(discriminate))
    as (H1 & _ & _ & H4 & H5).
  cbv zeta. split; [exact H1 | split; [exact H4 | exact H5]].
Defined.

(** X12.  [close_process_input] closes the write end of the stdin pipe but
    leaves the number in the handle, and [cleanup_process] closes whatever
    number is there: after both, the same descriptor has been closed twice.
    The three descriptors of the handle are distinct. *)
Theorem stdin_closed_again_at_cleanup (plat : Platform) (proc status : Z) (w : World) :
  let pr := proc_at w proc in
  fstdin pr <> fstdout pr -> fstdin pr <> fstderr pr ->
  let w1 := exec (close_process_input plat proc) w in
  let w2 := exec (cleanup_process plat proc status) w1 in
  proc_at w1 proc = pr
  /\ stdin_closes plat (fstdin pr) (log w1) = S (stdin_closes plat (fstdin pr) (log w))
  /\ stdin_closes plat (fstdin pr) (log w2) = S (S (stdin_closes plat (fstdin pr) (log w))).
Proof.
  cbv zeta. intros Hout Herr.
  assert (Hw1 : proc_at (exec (close_process_input plat proc) w) proc = proc_at w proc
                /\ log (exec (close_process_input plat proc) w)
                   = log w ++ [match plat with
                               | Posix => EvClose (fstdin (proc_at w proc))
                               | Win32 => EvCloseHandle (fstdin (proc_at w proc))
                               end]).
  { unfold close_process_input, exec, bind, load. destruct plat; split; reflexivity. }
  destruct Hw1 as (Hp1 & Hl1).
  set (w1 := exec (close_process_input plat proc) w) in *.
  destruct (cleanup_process_run plat proc status w1) as (Hl2 & _). cbv zeta in Hl2.
  rewrite Hl2, Hl1, Hp1. split; [reflexivity |].
  unfold stdin_closes. rewrite !List.filter_app, !length_app.
  apply Z.eqb_neq in Hout, Herr. rewrite (Z.eqb_sym (fstdin _) (fstdout _)) in Hout.
  rewrite (Z.eqb_sym (fstdin _) (fstderr _)) in Herr.
  destruct plat; cbn [List.filter length]; rewrite ?Z.eqb_refl, ?Hout, ?Herr;
    cbn [length]; lia.
Qed.

Lemma stdin_closed_again_at_cleanup_witness :
  stdin_closes Posix 4
    (log (exec (cleanup_process Posix Demo.proc 0)
            (exec (close_process_input Posix Demo.proc) Demo.busy))) = 2%nat.
Proof.
  refine (proj2 (proj2 (stdin_closed_again_at_cleanup Posix Demo.proc 0 Demo.busy _ _)));
    discriminate.
Defined.
(** X13.  A failed [spawn] always stores a message in [*error], registers
    no source and creates no channel; on POSIX it leaves the handle and
    everything else exactly as they were, whichever step refused (the
    tokenizer or the spawn itself). *)
Theorem spawn_failure_leaves_no_monitor (plat : Platform) (host : Host) (proc : Z)
    (cmd : string) (cwd : option string) (envi : option (list string)) (ms me : bool)
    (w : World) :
  (eval (spawn plat host proc cmd cwd envi ms me) w).1 = false ->
  let w' := exec (spawn plat host proc cmd cwd envi ms me) w in
  (exists msg, (eval (spawn plat host proc cmd cwd envi ms me) w).2 = Some msg)
  /\ sources w' = sources w
  /\ channels w' = channels w
  /\ (plat = Posix -> w' = w).
Proof.
  intros Hfail. cbv zeta.
  split; [| split; [| split]].
  4: { intros ->. apply spawn_posix_failure_clean. exact Hfail. }
  all: revert Hfail; unfold eval, exec; rewrite spawn_cases; cbv zeta.
  all: destruct plat.
  all: try (pose proof (spawn_posix_run host proc cmd cwd envi w) as H; cbv zeta in H;
            destruct (g_shell_parse_argv host cmd) as [argv|msg];
            [destruct (g_spawn_error host cwd argv envi) as [msg|] |];
            [unfold eval, exec; rewrite H; cbn [fst snd]; intros _; eauto
            | destruct H as (-> & _);
              destruct (spawn_monitor_run host proc ms me
                          (exec (spawn_posix host proc cmd cwd envi) w)) as (E & _);
              unfold eval in E; rewrite E; discriminate
            | unfold eval, exec; rewrite H; cbn [fst snd]; intros _; eauto]).
  all: pose proof (spawn_win32_run host proc cmd cwd envi w) as H; cbv zeta in H;
       destruct (CreateProcessA_error host _ cwd envi) as [msg|];
       [destruct H as (-> & _ & Hs & Hc & _); cbn [fst snd]; intros _; eauto
       | destruct H as (-> & _);
         destruct (spawn_monitor_run host proc ms me
                     (exec (spawn_win32 host proc cmd cwd envi) w)) as (E & _);
         unfold eval in E; rewrite E; discriminate].
Qed.

Lemma spawn_failure_leaves_no_monitor_witness :
  sources (exec (spawn Win32 Demo.failing_host Demo.proc "ls" None None true true) Demo.w0)
  = sources Demo.w0.
Proof.
  exact (proj1 (proj2 (spawn_failure_leaves_no_monitor Win32 Demo.failing_host Demo.proc
                         "ls" None None true true Demo.w0 eq_refl))).
Defined.
(** ** No output after the exit *)

Lemma outputs_of_app (proc : Z) (l1 l2 : list Event) :
  outputs_of proc (l1 ++ l2) = (outputs_of proc l1 + outputs_of proc l2)%nat.
Proof. unfold outputs_of. rewrite List.filter_app, length_app. reflexivity. Qed.

Lemma outputs_of_chunks (p source proc : Z) (tag : bool) (rs : list Reply) :
  proc <> p -> outputs_of p (flat_map (chunk_events source proc tag) rs) = 0%nat.
Proof.
  intros Hne. induction rs as [|r rs IH]; [reflexivity |].
  rewrite flat_map_one, outputs_of_app, IH. unfold chunk_events, outputs_of.
  destruct (status_eqb (rp_status r) G_IO_STATUS_NORMAL && (0 <? rp_len r));
    cbn [List.filter length]; [| reflexivity].
  destruct (Z.eqb_spec proc p); [contradiction | reflexivity].
Qed.

(** [read_channel] calls the sink for its own handle only. *)
Lemma read_channel_outputs (source cond proc p : Z) (w : World) :
  proc <> p ->
  outputs_of p (log (exec (read_channel source cond proc) w)) = outputs_of p (log w).
Proof.
  intros Hne. rewrite read_channel_exec.
  destruct ((pid (proc_at w proc) =? 0) || (Z.land cond G_IO_IN =? 0)); [reflexivity |].
  destruct (read_channel_loop_run (ch_replies (channel_at w source)) source proc w eq_refl)
    as (Hl & _).
  cbv zeta in Hl. rewrite Hl, outputs_of_app, outputs_of_chunks by exact Hne. lia.
Qed.

Lemma cleanup_process_outputs (plat : Platform) (proc status p : Z) (w : World) :
  outputs_of p (log (exec (cleanup_process plat proc status) w)) = outputs_of p (log w).
Proof.
  destruct (cleanup_process_run plat proc status w) as (Hl & _). cbv zeta in Hl.
  rewrite Hl, outputs_of_app. destruct plat; cbn; lia.
Qed.

(** A handle without sources gets no output from a dispatched source, and
    stays without sources. *)
Lemma dispatch_one_outputs (plat : Platform) (r : Ready) (p : Z) (w : World) :
  sources_of p (sources w) = 0%nat ->
  let w' := exec (dispatch_one plat r) w in
  outputs_of p (log w') = outputs_of p (log w) /\ sources_of p (sources w') = 0%nat.
Proof.
  intros Hnone. cbv zeta.
  assert (Hsrc : sources_of p (sources (exec (dispatch_one plat r) w)) = 0%nat).
  { destruct (dispatch_one_counts plat r p w ltac:(lia)) as [(_ & Hle) | (Hone & _)];
      cbv zeta in *; lia. }
  split; [| exact Hsrc]. clear Hsrc.
  rewrite dispatch_one_exec.
  destruct (List.find (fun s => src_id s =? rd_id r) (sources w)) as [s|] eqn:Hfind;
    [| reflexivity].
  assert (Hne : src_data s <> p).
  { intros Heq. pose proof (find_source_counts (rd_id r) p (sources w) s Hfind Heq). lia. }
  destruct (src_kind s) as [c|child].
  - destruct (eval (read_channel c (rd_arg r) (src_data s)) w).
    + apply read_channel_outputs. exact Hne.
    + unfold g_source_destroy.
      destruct (remove_source_run (fun s0 => src_id s0 =? rd_id r)
                  (exec (read_channel c (rd_arg r) (src_data s)) w)) as (_ & _ & Hl & _).
      cbv zeta in Hl. rewrite Hl. apply read_channel_outputs. exact Hne.
  - unfold g_source_destroy.
    destruct (remove_source_run (fun s0 => src_id s0 =? rd_id r)
                (exec (cleanup_process plat (src_data s) (rd_arg r)) w)) as (_ & _ & Hl & _).
    cbv zeta in Hl. rewrite Hl. apply cleanup_process_outputs.
Qed.

Lemma dispatch_outputs (plat : Platform) (ready : list Ready) (p : Z) :
  forall w : World,
    sources_of p (sources w) = 0%nat ->
    outputs_of p (log (exec (dispatch plat ready) w)) = outputs_of p (log w).
Proof.
  induction ready as [|r ready IH]; intros w Hnone; cbn [dispatch].
  - rewrite exec_ret. reflexivity.
  - rewrite exec_bind.
    destruct (dispatch_one_outputs plat r p w Hnone) as (Ho & Hs). cbv zeta in Ho, Hs.
    rewrite (IH _ Hs). exact Ho.
Qed.

(** X14.  No output after the exit.  Once [cleanup_process] has run for a
    handle with at most three registered sources (what [spawn] leaves), the
    output sink is never called for that handle again by the main loop,
    whatever sources are ready in whatever order in the iterations that
    follow; the cleanup itself calls the exit callback and not the sink. *)
Theorem no_output_after_cleanup (plat : Platform) (proc status : Z)
    (iterations : list (list Ready)) (w : World) :
  (sources_of proc (sources w) <= 3)%nat ->
  let w1 := exec (cleanup_process plat proc status) w in
  outputs_of proc (log w1) = outputs_of proc (log w)
  /\ outputs_of proc (log (exec (dispatch plat (concat iterations)) w1))
     = outputs_of proc (log w).
Proof.
  intros Hle. cbv zeta.
  destruct (cleanup_process_counts plat proc status proc w) as (_ & Hs & _).
  cbv zeta in Hs. specialize (Hs eq_refl).
  split; [apply cleanup_process_outputs |].
  rewrite dispatch_outputs by lia. apply cleanup_process_outputs.
Qed.

Lemma no_output_after_cleanup_witness :
  outputs_of Demo.proc
    (log (exec (dispatch Posix (concat [[mkReady 8 G_IO_IN]; [mkReady 10 G_IO_IN]]))
               (exec (cleanup_process Posix Demo.proc 0) Demo.busy)))
  = outputs_of Demo.proc (log Demo.busy).
Proof.
  refine (proj2 (no_output_after_cleanup Posix Demo.proc 0
                   [[mkReady 8 G_IO_IN]; [mkReady 10 G_IO_IN]] Demo.busy _)).
  vm_compute. lia.
Defined.
(** ** The find and replace history *)

Lemma adjacent_distinct_tail (l : list string) :
  adjacent_distinct l -> adjacent_distinct (tail l).
Proof. destruct l as [|x [|y l]]; cbn; tauto. Qed.

Lemma adjacent_distinct_snoc (l : list string) (x : string) :
  adjacent_distinct l -> (forall y, last l = Some y -> y <> x) ->
  adjacent_distinct (l ++ [x]).
Proof.
  induction l as [|a [|b l] IH]; intros Hl Hlast.
  - exact I.
  - cbn. split; [apply Hlast; reflexivity | exact I].
  - destruct Hl as (Hab & Hl). split; [exact Hab |].
    apply IH; [exact Hl |]. intros y Hy. apply Hlast. exact Hy.
Qed.

Lemma lookup_last_index (l : list string) :
  (if 0 <? Z.of_nat (length l) then l !! Z.to_nat (Z.of_nat (length l) - 1) else None)
  = last l.
Proof.
  destruct (0 <? Z.of_nat (length l)) eqn:E.
  - rewrite last_lookup. f_equal.
    destruct l as [|x l]; [reflexivity |]. cbn [length Init.Nat.pred]. lia.
  - destruct l as [|x l]; [reflexivity |]. exfalso. apply Z.ltb_ge in E.
    change (length (x :: l)) with (S (length l)) in E. lia.
Qed.

(** [add_to_history], with the reads of the store spelled out. *)
Lemma add_to_history_run (store : list string) (text : string) :
  let kept := if 9 <? Z.of_nat (length store) then tail store else store in
  add_to_history store text =
  if decide (last kept = Some text) then kept else kept ++ [text].
Proof.
  cbv zeta. unfold add_to_history.
  destruct (Z.ltb_spec 9 (Z.of_nat (length store))) as [E | E].
  - replace (Z.of_nat (length store) - 1) with (Z.of_nat (length (tail store)))
      by (destruct store; cbn [length tail] in *; lia).
    rewrite lookup_last_index.
    destruct (last (tail store)) as [t|]; [| rewrite decide_False by discriminate; reflexivity].
    destruct (String.eqb_spec text t) as [-> | Hne].
    + rewrite decide_True by reflexivity. reflexivity.
    + rewrite decide_False by congruence. reflexivity.
  - rewrite lookup_last_index.
    destruct (last store) as [t|]; [| rewrite decide_False by discriminate; reflexivity].
    destruct (String.eqb_spec text t) as [-> | Hne].
    + rewrite decide_True by reflexivity. reflexivity.
    + rewrite decide_False by congruence. reflexivity.
Qed.

Lemma add_to_history_invariant (store : list string) (text : string) :
  (length store <= 10)%nat -> adjacent_distinct store ->
  (length (add_to_history store text) <= 10)%nat
  /\ adjacent_distinct (add_to_history store text).
Proof.
  intros Hlen Hadj. rewrite add_to_history_run. cbv zeta.
  set (kept := if 9 <? Z.of_nat (length store) then tail store else store).
  assert (Hk : (length kept <= 9)%nat /\ adjacent_distinct kept).
  { unfold kept. destruct (Z.ltb_spec 9 (Z.of_nat (length store))) as [E | E].
    - split; [| apply adjacent_distinct_tail, Hadj].
      destruct store; cbn [length tail] in *; lia.
    - split; [lia | exact Hadj]. }
  destruct Hk as (Hk & Ha).
  destruct (decide (last kept = Some text)) as [Hl | Hl]; [split; [lia | exact Ha] |].
  split; [rewrite length_app; cbn [length]; lia |].
  apply adjacent_distinct_snoc; [exact Ha |]. intros y Hy ->. exact (Hl Hy).
Qed.

(** X15.  The history that [add_to_history] builds, from an empty store
    and whatever texts are added in whatever order, never holds more than
    ten entries and never holds the same text twice in a row. *)
Theorem history_bounded_without_repeats (texts : list string) :
  let store := fold_left add_to_history texts [] in
  (length store <= 10)%nat /\ adjacent_distinct store.
Proof.
  cbv zeta.
  assert (H : forall store,
             (length store <= 10)%nat -> adjacent_distinct store ->
             (length (fold_left add_to_history texts store) <= 10)%nat
             /\ adjacent_distinct (fold_left add_to_history texts store)).
  { induction texts as [|t texts IH]; intros store Hlen Hadj; cbn [fold_left].
    - split; assumption.
    - destruct (add_to_history_invariant store t Hlen Hadj) as (Hlen' & Hadj').
      apply IH; assumption. }
  apply H; [cbn; lia | exact I].
Qed.

(** X16.  After [add_to_history] the newest entry is the text that was
    added, whatever the store held, and the rest of the store is what was
    there before, in the same order, with at most the oldest entry gone. *)
Theorem add_to_history_newest_last (store : list string) (text : string) :
  let store' := add_to_history store text in
  last store' = Some text
  /\ (store' = store ++ [text] \/ store' = tail store ++ [text]
      \/ store' = store \/ store' = tail store).
Proof.
  cbv zeta. rewrite add_to_history_run. cbv zeta.
  destruct (9 <? Z.of_nat (length store));
    (destruct (decide (last _ = Some text)) as [Hl | Hl];
     [split; [exact Hl | tauto] | split; [apply last_snoc | tauto]]).
Qed.

(** X17.  The store is trimmed before the text is compared: adding the text
    that is already the newest entry of a full history of ten drops the
    oldest entry and adds nothing, so nine entries are left. *)
Theorem add_to_history_repeat_on_full_store (store : list string) (text : string) :
  length store = 10%nat -> last store = Some text ->
  add_to_history store text = tail store
  /\ length (add_to_history store text) = 9%nat.
Proof.
  intros Hlen Hlast. rewrite add_to_history_run. cbv zeta.
  replace (9 <? Z.of_nat (length store)) with true by (rewrite Hlen; reflexivity).
  assert (Ht : last (tail store) = Some text).
  { destruct store as [|a [|b l]]; cbn [length] in Hlen; try discriminate.
    exact Hlast. }
  rewrite decide_True by exact Ht.
  split; [reflexivity |]. destruct store; cbn [length tail] in *; lia.
Qed.

Lemma add_to_history_repeat_on_full_store_witness :
  add_to_history ["a"; "b"; "c"; "d"; "e"; "f"; "g"; "h"; "i"; "j"]%string "j"
  = ["b"; "c"; "d"; "e"; "f"; "g"; "h"; "i"; "j"]%string.
Proof.
  exact (proj1 (add_to_history_repeat_on_full_store
                  ["a"; "b"; "c"; "d"; "e"; "f"; "g"; "h"; "i"; "j"]%string "j"
                  eq_refl eq_refl)).
Defined.
(** ** The search of the list dialog *)

Lemma byte_eqb_neq (x y : byte) : Byte.eqb x y = false <-> x <> y.
Proof.
  rewrite <- byte_eqb_eq. destruct (Byte.eqb x y); split; congruence.
Qed.

Lemma uchar_inj (a b : byte) : uchar a = uchar b -> a = b.
Proof.
  unfold uchar. intros H. apply N2Z.inj in H.
  pose proof (Byte.of_to_N a) as Ha. pose proof (Byte.of_to_N b) as Hb.
  rewrite H in Ha. congruence.
Qed.

Lemma uchar_diff (a b : byte) : uchar a - uchar b = 0 <-> a = b.
Proof.
  split; [intros H; apply uchar_inj; lia | intros ->; lia].
Qed.

Lemma c_string_app (a b : list byte) : c_string (a ++ b) <-> c_string a /\ c_string b.
Proof. unfold c_string. apply Forall_app. Qed.

Lemma c_string_cons (c : byte) (s : list byte) :
  c_string (c :: s) <-> c <> x00 /\ c_string s.
Proof.
  unfold c_string. split.
  - intros H. inversion H; subst. split; assumption.
  - intros (H1 & H2). constructor; assumption.
Qed.

(** The first word of a C string and what [word_end] leaves of it. *)
Lemma word_end_split (s : list byte) :
  c_string s ->
  exists word,
    s = word ++ word_end s
    /\ (length s - length (word_end s))%nat = length word
    /\ ((word_end s = [] /\ split_words s = [word])
        \/ exists rest, word_end s = SPACE :: rest
                        /\ split_words s = word :: split_words rest).
Proof.
  induction s as [|c s IH]; intros Hs.
  - exists []. split; [reflexivity |]. split; [reflexivity |]. left. split; reflexivity.
  - apply c_string_cons in Hs as (Hc & Hs). unfold split_words in *. cbn [word_end pieces].
    apply byte_eqb_neq in Hc. rewrite Hc. cbn [orb].
    destruct (Byte.eqb c SPACE) eqn:Esp.
    + apply byte_eqb_eq in Esp as ->. exists [].
      split; [reflexivity |]. split; [cbn [length app]; lia |].
      right. exists s. split; reflexivity.
    + destruct (IH Hs) as (word & Heq & Hlen & Hcase). exists (c :: word).
      split; [cbn [app]; congruence |].
      split.
      { cbn [length]. rewrite <- Hlen.
        assert (length (word_end s) <= length s)%nat
          by (rewrite Heq at 2; rewrite length_app; lia).
        lia. }
      destruct Hcase as [(He & Hw) | (rest & He & Hw)].
      * left. rewrite Hw. split; [exact He | reflexivity].
      * right. exists rest. rewrite Hw. split; [exact He | reflexivity].
Qed.

Section MatchesProofs.

Variable lower : byte -> byte.

(** [g_strncasecmp] gives 0 for a word exactly when the other string
    starts with the word, up to case. *)
Lemma g_strncasecmp_zero (word rest p : list byte) :
  c_string word -> c_string p ->
  g_strncasecmp lower (word ++ rest) p (length word) = 0
  <-> exists found after, p = found ++ after /\ same_fold lower found word.
Proof.
  revert p. induction word as [|c word IH]; intros p Hw Hp.
  - cbn. split; [intros _; exists [], p; split; reflexivity | reflexivity].
  - apply c_string_cons in Hw as (Hc & Hw).
    cbn [length app g_strncasecmp]. unfold deref. cbn [hd tail].
    pose proof (proj2 (byte_eqb_neq _ _) Hc) as Hc'. rewrite Hc'. cbn [orb].
    destruct p as [|d p].
    + cbn [hd]. change (Byte.eqb x00 x00) with true. cbv iota.
      split.
      * intros H. apply uchar_diff in H. congruence.
      * intros (found & after & Heq & Hf). destruct found; discriminate.
    + apply c_string_cons in Hp as (Hd & Hp).
      cbn [hd tail]. pose proof (proj2 (byte_eqb_neq _ _) Hd) as Hd'. rewrite Hd'.
      destruct (Byte.eqb (lower c) (lower d)) eqn:El.
      * apply byte_eqb_eq in El. rewrite (IH p Hw Hp). split.
        -- intros (found & after & -> & Hf). exists (d :: found), after.
           split; [reflexivity |]. unfold same_fold in *. cbn [map]. congruence.
        -- intros (found & after & Heq & Hf). destruct found as [|d' found]; [discriminate |].
           injection Heq as -> ->. exists found, after. split; [reflexivity |].
           unfold same_fold in *. cbn [map] in Hf. congruence.
      * apply byte_eqb_neq in El. split.
        -- intros H. apply uchar_diff in H. congruence.
        -- intros (found & after & Heq & Hf). destruct found as [|d' found]; [discriminate |].
           injection Heq as -> ->. unfold same_fold in Hf. cbn [map] in Hf. congruence.
Qed.

Lemma same_fold_length (a b : list byte) : same_fold lower a b -> length a = length b.
Proof.
  unfold same_fold. intros H. apply (f_equal length) in H. rewrite !length_map in H. exact H.
Qed.

(** What [find_word] finds is an occurrence of the word, and [match_pos]
    moves to its end. *)
Lemma find_word_sound (word rest p pos : list byte) :
  c_string word -> c_string p ->
  find_word lower (word ++ rest) (length word) p = Some pos ->
  exists before found,
    p = before ++ found ++ pos /\ found ++ pos <> [] /\ same_fold lower found word.
Proof.
  intros Hw. induction p as [|d p IH]; intros Hp Hfind; [discriminate |].
  cbn [find_word] in Hfind.
  pose proof Hp as Hp'. apply c_string_cons in Hp' as (Hd & Hp').
  pose proof (proj2 (byte_eqb_neq _ _) Hd) as Hd'. rewrite Hd' in Hfind.
  destruct (g_strncasecmp lower (word ++ rest) (d :: p) (length word) =? 0) eqn:Ez.
  - apply Z.eqb_eq in Ez. apply (g_strncasecmp_zero word rest _ Hw Hp) in Ez.
    destruct Ez as (found & after & Heq & Hf). injection Hfind as <-.
    exists [], found. rewrite Heq, <- (same_fold_length _ _ Hf), drop_app_length.
    split; [reflexivity |]. split; [| exact Hf].
    rewrite <- Heq. discriminate.
  - destruct (IH Hp' Hfind) as (before & found & -> & Hne & Hf).
    exists (d :: before), found. split; [reflexivity |]. split; assumption.
Qed.

(** [find_word] finds the first occurrence: wherever else the word occurs,
    the text after that occurrence is still ahead of [match_pos]. *)
Lemma find_word_first (word rest p before found after : list byte) :
  c_string word -> c_string p ->
  p = before ++ found ++ after -> found ++ after <> [] -> same_fold lower found word ->
  exists pos skipped,
    find_word lower (word ++ rest) (length word) p = Some pos /\ pos = skipped ++ after.
Proof.
  intros Hw. revert p. induction before as [|b before IH]; intros p Hp Heq Hne Hf.
  - cbn [app] in Heq. destruct p as [|d p]; [symmetry in Heq; contradiction |].
    cbn [find_word].
    pose proof Hp as Hp'. apply c_string_cons in Hp' as (Hd & _).
    apply byte_eqb_neq in Hd. rewrite Hd.
    assert (Ez : g_strncasecmp lower (word ++ rest) (d :: p) (length word) = 0)
      by (apply (g_strncasecmp_zero word rest _ Hw Hp); exists found, after; split; assumption).
    rewrite Ez. cbn [Z.eqb]. exists (drop (length word) (d :: p)), [].
    split; [reflexivity |].
    rewrite Heq, <- (same_fold_length _ _ Hf), drop_app_length. reflexivity.
  - subst p. cbn [app find_word].
    pose proof Hp as Hp'. cbn [app] in Hp'. apply c_string_cons in Hp' as (Hd & Hp').
    apply byte_eqb_neq in Hd. rewrite Hd.
    destruct (g_strncasecmp lower (word ++ rest) (b :: before ++ found ++ after)
                (length word) =? 0) eqn:Ez.
    + apply Z.eqb_eq in Ez. apply (g_strncasecmp_zero word rest _ Hw Hp) in Ez.
      destruct Ez as (found' & after' & Heq' & Hf').
      exists (drop (length word) (b :: before ++ found ++ after)).
      assert (Hl : length found' = length found)
        by (rewrite (same_fold_length _ _ Hf), (same_fold_length _ _ Hf'); reflexivity).
      exists (drop (length word) (b :: before ++ found)).
      split; [reflexivity |].
      change (b :: before ++ found ++ after) with ((b :: before) ++ found ++ after).
      change (b :: before ++ found) with ((b :: before) ++ found).
      rewrite (app_assoc (b :: before) found after).
      rewrite drop_app_le; [reflexivity |].
      rewrite length_app, <- (same_fold_length _ _ Hf). lia.
    + destruct (IH (before ++ found ++ after) Hp' eq_refl Hne Hf) as (pos & skipped & Hfind & ->).
      exists (skipped ++ after), skipped. split; [exact Hfind | reflexivity].
Qed.

Lemma in_order_further (ws : list (list byte)) (skipped after : list byte) :
  in_order lower ws after -> in_order lower ws (skipped ++ after).
Proof.
  destruct ws as [|word ws]; [intros _; exact I |].
  intros (before & found & after' & -> & Hne & Hf & Hrest).
  exists (skipped ++ before), found, after'.
  split; [rewrite <- app_assoc; reflexivity |]. split; [exact Hne |]. split; assumption.
Qed.

(** The outer loop, with enough passes allowed, decides whether the words
    of the key occur in order. *)
Lemma matches_loop_decides (fuel : nat) :
  forall s match_pos : list byte,
    c_string s -> c_string match_pos -> (length s < fuel)%nat ->
    (matches_loop lower fuel s match_pos = Some 0
     /\ in_order lower (split_words s) match_pos)
    \/ (matches_loop lower fuel s match_pos = Some 1
        /\ ~ in_order lower (split_words s) match_pos).
Proof.
  induction fuel as [|fuel IH]; intros s mp Hs Hmp Hfuel; [lia |].
  cbn [matches_loop].
  destruct (word_end_split s Hs) as (word & Heq & Hlen & Hcase).
  rewrite Hlen.
  assert (Hw : c_string word) by (rewrite Heq in Hs; apply c_string_app in Hs; tauto).
  assert (He : c_string (word_end s)) by (rewrite Heq in Hs; apply c_string_app in Hs; tauto).
  replace (find_word lower s (length word) mp)
    with (find_word lower (word ++ word_end s) (length word) mp) by congruence.
  destruct (find_word lower (word ++ word_end s) (length word) mp) as [pos|] eqn:Hfind.
  - destruct (find_word_sound word (word_end s) mp pos Hw Hmp Hfind)
      as (before & found & Hmpeq & Hne & Hf).
    assert (Hpos : c_string pos).
    { rewrite Hmpeq in Hmp. apply c_string_app in Hmp as (_ & Hmp).
      apply c_string_app in Hmp. tauto. }
    destruct Hcase as [(Hend & Hwords) | (rest & Hend & Hwords)].
    + rewrite Hend. change (Byte.eqb (deref []) x00) with true. cbv iota.
      left. split; [reflexivity |]. rewrite Hwords.
      exists before, found, pos. repeat (split; [assumption |]). exact I.
    + rewrite Hend. change (Byte.eqb (deref (SPACE :: rest)) x00) with false. cbv iota.
      cbn [tail]. rewrite Hwords.
      assert (Hrest : c_string rest) by (rewrite Hend in He; apply c_string_cons in He; tauto).
      assert (Hrl : (length rest < fuel)%nat).
      { rewrite Heq, Hend, length_app in Hfuel. cbn [length] in Hfuel. lia. }
      destruct (IH rest pos Hrest Hpos Hrl) as [(Hr & Hin) | (Hr & Hin)].
      * left. split; [exact Hr |].
        exists before, found, pos. repeat (split; [assumption |]). exact Hin.
      * right. split; [exact Hr |].
        intros (before' & found' & after' & Hmpeq' & Hne' & Hf' & Hin').
        destruct (find_word_first word (word_end s) mp before' found' after' Hw Hmp
                    Hmpeq' Hne' Hf') as (pos' & skipped & Hfind' & Hpos').
        rewrite Hfind in Hfind'. injection Hfind' as <-. subst pos.
        apply Hin. apply in_order_further. exact Hin'.
  - right. split; [reflexivity |].
    assert (Hwords : exists ws, split_words s = word :: ws).
    { destruct Hcase as [(_ & ->) | (rest & _ & ->)]; eexists; reflexivity. }
    destruct Hwords as (ws & ->).
    intros (before' & found' & after' & Hmpeq' & Hne' & Hf' & Hin').
    destruct (find_word_first word (word_end s) mp before' found' after' Hw Hmp
                Hmpeq' Hne' Hf') as (pos' & skipped & Hfind' & _).
    congruence.
Qed.


End MatchesProofs.

(** ** Command lines of further instances *)

Lemma rawseti_lookup (k k' : Z) (s : option (list byte)) (t : LuaTable) :
  rawseti k s t !! k' = if decide (k = k') then s else t !! k'.
Proof.
  unfold rawseti. destruct s as [v|]; destruct (decide (k = k')) as [-> | Hne].
  - apply lookup_insert_eq.
  - apply lookup_insert_ne. exact Hne.
  - apply lookup_delete_eq.
  - apply lookup_delete_ne. exact Hne.
Qed.

(** The loop of [process] stores [argv[i]] at key [i] for every [i] from 1
    to [argc - 1], and touches no other key. *)
Lemma store_arguments_lookup (argc : nat) (argv : list (list byte)) :
  forall (t : LuaTable) (k : Z),
    store_arguments argc argv t !! k =
    if decide (1 <= k < Z.of_nat argc) then argv !! Z.to_nat k else t !! k.
Proof.
  induction argc as [|argc IH]; intros t k.
  - cbn [store_arguments]. rewrite decide_False by lia. reflexivity.
  - cbn [store_arguments]. destruct argc as [|argc'].
    + rewrite decide_False by lia. reflexivity.
    + rewrite IH, rawseti_lookup.
      destruct (decide (1 <= k < Z.of_nat (S argc'))) as [Hin | Hout].
      * rewrite decide_True by lia. reflexivity.
      * destruct (decide (Z.of_nat (S argc') = k)) as [<- | Hne].
        -- rewrite decide_True by lia. rewrite Nat2Z.id. reflexivity.
        -- rewrite decide_False by lia. reflexivity.
Qed.

(** X19.  [process] does nothing before the Lua state exists.  After that
    it always presents the window, and it emits "command_line" exactly when
    there is an argument besides the program name; the table of the event
    then holds the working directory at key -1 and argument [i] at key [i]
    for every [i] from 1 on, and nothing else: the program name is left
    out. *)
Theorem process_builds_argument_table (plat : Platform) (argv : list (list byte))
    (cwd : option (list byte)) (line : CommandLine) (buf : list byte) :
  process plat false line buf = (None, false)
  /\ (process Posix true (mkCommandLine argv cwd) buf).2 = true
  /\ match (process Posix true (mkCommandLine argv cwd) buf).1 with
     | Some t =>
         (1 < length argv)%nat
         /\ forall k : Z,
              t !! k = if decide (k = -1) then cwd
                       else if decide (1 <= k < Z.of_nat (length argv))
                            then argv !! Z.to_nat k else None
     | None => (length argv <= 1)%nat
     end.
Proof.
  split; [reflexivity |]. split; [reflexivity |].
  unfold process. cbn [negb cl_arguments cl_cwd fst].
  destruct (Z.ltb_spec 1 (Z.of_nat (length argv))) as [Hlt | Hge]; [| lia].
  split; [lia |]. intros k. rewrite store_arguments_lookup, rawseti_lookup.
  destruct (decide (k = -1)) as [-> | Hk].
  - rewrite decide_False by lia. rewrite decide_True by reflexivity. reflexivity.
  - destruct (decide (1 <= k < Z.of_nat (length argv))); [reflexivity |].
    rewrite decide_False by congruence. apply lookup_empty.
Qed.
Lemma c_str_c_string (s rest : list byte) :
  c_string s -> c_str (s ++ x00 :: rest) = s.
Proof.
  induction s as [|c s IH]; intros Hs; [reflexivity |].
  apply c_string_cons in Hs as (Hc & Hs). cbn [app c_str].
  apply byte_eqb_neq in Hc. rewrite Hc, (IH Hs). reflexivity.
Qed.

Lemma c_str_id (s : list byte) : c_string s -> c_str s = s.
Proof.
  induction s as [|c s IH]; intros Hs; [reflexivity |].
  apply c_string_cons in Hs as (Hc & Hs). cbn [c_str].
  apply byte_eqb_neq in Hc. rewrite Hc, (IH Hs). reflexivity.
Qed.

Lemma map_nul_to_newline (s : list byte) : c_string s -> map nul_to_newline s = s.
Proof.
  induction s as [|c s IH]; intros Hs; [reflexivity |].
  apply c_string_cons in Hs as (Hc & Hs). cbn [map]. unfold nul_to_newline at 1.
  apply byte_eqb_neq in Hc. rewrite Hc, (IH Hs). reflexivity.
Qed.

(** The pipe gives back what was written to it when it all fits. *)
Lemma read_pipe_all (reads : list (list byte)) :
  forall room : nat,
    Forall (fun r => r <> []) reads -> (length (concat reads) <= room)%nat ->
    read_pipe reads room = concat reads.
Proof.
  induction reads as [|r reads IH]; intros room Hne Hlen; [reflexivity |].
  inversion Hne as [|? ? Hr Hrest]; subst.
  cbn [concat] in Hlen. rewrite length_app in Hlen.
  cbn [read_pipe concat]. rewrite take_ge by lia.
  destruct r as [|c r]; [contradiction |].
  rewrite IH by (try assumption; lia). reflexivity.
Qed.

(** What the sending instance writes: the directory and the arguments,
    each followed by a NUL. *)
Lemma g_application_run_bytes (cwd : list byte) (args : list (list byte)) :
  concat ((cwd ++ [x00]) :: map (fun arg => arg ++ [x00]) args)
  = (cwd ++ flat_map (fun arg => x00 :: arg) args) ++ [x00].
Proof.
  cbn [concat]. rewrite <- !app_assoc. f_equal.
  induction args as [|a args IH]; [reflexivity |].
  cbn [map concat flat_map]. rewrite <- !app_assoc. cbn [app].
  f_equal. f_equal. exact IH.
Qed.

Lemma map_c_str_id (args : list (list byte)) :
  Forall c_string args ->
  map (fun arg => c_str arg ++ [x00]) args = map (fun arg => arg ++ [x00]) args.
Proof.
  induction 1 as [|a args Ha _ IH]; [reflexivity |].
  cbn [map]. rewrite (c_str_id a Ha), IH. reflexivity.
Qed.

Lemma nul_to_newline_joined (args : list (list byte)) :
  Forall c_string args ->
  map nul_to_newline (flat_map (fun arg => x00 :: arg) args)
  = flat_map (fun arg => LF :: arg) args.
Proof.
  induction 1 as [|a args Ha _ IH]; [reflexivity |].
  cbn [flat_map app map]. rewrite map_app, IH, (map_nul_to_newline a Ha). reflexivity.
Qed.

Lemma c_string_joined (args : list (list byte)) :
  Forall c_string args -> c_string (flat_map (fun arg => LF :: arg) args).
Proof.
  induction 1 as [|a args Ha _ IH]; [constructor |].
  cbn [flat_map app]. apply c_string_cons. split; [discriminate |].
  apply c_string_app. split; assumption.
Qed.

Lemma pieces_nonempty (d : byte) (s : list byte) : pieces d s <> [].
Proof.
  destruct s as [|c s]; cbn [pieces]; [discriminate |].
  destruct (Byte.eqb c d); [discriminate |]. destruct (pieces d s); discriminate.
Qed.

(** Splitting at line feeds gives back strings that hold none. *)
Lemma pieces_joined (first : list byte) (args : list (list byte)) :
  LF ∉ first -> Forall (fun arg => LF ∉ arg) args ->
  pieces LF (first ++ flat_map (fun arg => LF :: arg) args) = first :: args.
Proof.
  intros Hfirst Hargs. revert first Hfirst.
  induction Hargs as [|a args Ha _ IH]; intros first Hfirst.
  - cbn [flat_map]. rewrite app_nil_r.
    induction first as [|c first IHf]; [reflexivity |].
    cbn [pieces]. apply not_elem_of_cons in Hfirst as (Hc & Hfirst).
    assert (E : Byte.eqb c LF = false) by (apply byte_eqb_neq; congruence).
    rewrite E, (IHf Hfirst). reflexivity.
  - induction first as [|c first IHf].
    + cbn [flat_map app pieces]. change (Byte.eqb LF LF) with true. cbv iota.
      rewrite (IH a Ha). reflexivity.
    + cbn [app pieces]. apply not_elem_of_cons in Hfirst as (Hc & Hfirst).
      assert (E : Byte.eqb c LF = false) by (apply byte_eqb_neq; congruence).
      rewrite E, (IHf Hfirst). reflexivity.
Qed.

(** What [pipe_listener] makes of a message that ends in a NUL: every NUL
    but the last becomes a line feed. *)
Lemma pipe_listener_converts (reads : list (list byte)) (body : list byte) :
  Forall (fun r => r <> []) reads ->
  concat reads = body ++ [x00] ->
  Z.of_nat (length (concat reads)) <= 65535 ->
  pipe_listener reads = Some (map nul_to_newline body ++ [x00; x00]).
Proof.
  intros Hreads Hsent Hfit. unfold pipe_listener.
  rewrite read_pipe_all by (try assumption; lia). rewrite Hsent. clear Hsent Hfit.
  destruct (body ++ [x00]) as [|c data] eqn:Hd; [destruct body; discriminate |].
  rewrite <- Hd. clear Hd c data.
  rewrite length_app. cbn [length].
  replace (length body + 1 - 1)%nat with (length body) by lia.
  rewrite take_app_length, drop_app_length. reflexivity.
Qed.

(** What the Windows arm of [process] makes of the converted message: the
    same as the POSIX arm makes of the directory and the arguments. *)
Lemma process_splits (cwd : list byte) (args __argv : list (list byte))
    (line : CommandLine) :
  c_string cwd -> Forall c_string args ->
  LF ∉ cwd -> Forall (fun arg => LF ∉ arg) args ->
  drop 1 __argv = args ->
  process Win32 true line ((cwd ++ flat_map (fun arg => LF :: arg) args) ++ [x00; x00])
  = process Posix true (mkCommandLine __argv (Some cwd)) [].
Proof.
  intros Hcwd Hargs Hlf Hlfa Hdrop.
  set (joined := cwd ++ flat_map (fun arg => LF :: arg) args).
  assert (Hj : c_string joined)
    by (apply c_string_app; split; [exact Hcwd | apply c_string_joined, Hargs]).
  unfold process. cbn [negb cl_arguments cl_cwd].
  unfold g_strsplit. rewrite (c_str_c_string joined [x00] Hj).
  assert (Hsplit : match joined with [] => [] | c :: j => pieces LF (c :: j) end
                   = if decide (joined = []) then [] else cwd :: args).
  { destruct joined as [|c j] eqn:Ej; [reflexivity |].
    rewrite decide_False by discriminate. rewrite <- Ej.
    apply pieces_joined; assumption. }
  rewrite Hsplit. clear Hsplit.
  destruct (decide (joined = [])) as [Hnil | Hnn].
  - apply app_eq_nil in Hnil as (-> & Hnil).
    assert (Ha : args = []) by (destruct args; [reflexivity | discriminate]).
    cbn [length]. change (1 <? Z.of_nat 0) with false. cbv iota.
    destruct (Z.ltb_spec 1 (Z.of_nat (length __argv))) as [Hlt | Hge]; [| reflexivity].
    exfalso. rewrite <- Hdrop in Ha. apply (f_equal length) in Ha.
    rewrite length_drop in Ha. cbn [length] in Ha. lia.
  - cbn [lookup]. change ((cwd :: args) !! 0%nat) with (Some cwd).
    assert (Hlen : length (cwd :: args) = Nat.max 1 (length __argv)).
    { cbn [length]. rewrite <- Hdrop, length_drop. lia. }
    destruct (Z.ltb_spec 1 (Z.of_nat (length (cwd :: args)))) as [Hlt | Hge];
      destruct (Z.ltb_spec 1 (Z.of_nat (length __argv))) as [Hlt' | Hge'];
      try lia; [| reflexivity].
    f_equal. f_equal. apply map_eq. intros k.
    rewrite !store_arguments_lookup.
    replace (length (cwd :: args)) with (length __argv) by lia.
    destruct (decide (1 <= k < Z.of_nat (length __argv))) as [Hk | Hk]; [| reflexivity].
    rewrite <- Hdrop. destruct __argv as [|prog rest]; [cbn [length] in Hlt'; lia |].
    cbn [drop]. rewrite drop_0.
    destruct (Z.to_nat k) as [|i] eqn:Ei; [lia | reflexivity].
Qed.

(** X20.  The framing between two instances on Windows.  What the second
    instance writes to the pipe ([g_application_run]) and the first one reads,
    converts ([pipe_listener]) and splits ([process]) yields the same event as
    [process] gives on POSIX for the same working directory and argument
    vector, provided that no string holds a line feed, the pipe delivers the
    bytes written, in whatever portions, and they fit the buffer of 65535
    bytes. *)
Theorem second_instance_round_trip (cwd : list byte) (__argv reads : list (list byte))
    (line : CommandLine) :
  c_string cwd -> Forall c_string __argv ->
  LF ∉ cwd -> Forall (fun arg => LF ∉ arg) __argv ->
  Forall (fun r => r <> []) reads ->
  concat reads = concat (g_application_run cwd __argv) ->
  Z.of_nat (length (concat reads)) <= 65535 ->
  exists buf,
    pipe_listener reads = Some buf
    /\ process Win32 true line buf = process Posix true (mkCommandLine __argv (Some cwd)) [].
Proof.
  intros Hcwd Hargv Hlf Hlfs Hreads Hsent Hfit.
  set (args := drop 1 __argv).
  assert (Hargs : Forall c_string args) by (apply Forall_drop; exact Hargv).
  assert (Hlfa : Forall (fun arg => LF ∉ arg) args) by (apply Forall_drop; exact Hlfs).
  assert (Hbody : concat reads = (cwd ++ flat_map (fun arg => x00 :: arg) args) ++ [x00]).
  { rewrite Hsent. unfold g_application_run. fold args.
    rewrite (c_str_id cwd Hcwd), (map_c_str_id args Hargs).
    apply g_application_run_bytes. }
  eexists. split; [apply (pipe_listener_converts reads _ Hreads Hbody Hfit) |].
  rewrite map_app, (map_nul_to_newline cwd Hcwd), (nul_to_newline_joined args Hargs).
  apply process_splits; try assumption. reflexivity.
Qed.
Lemma second_instance_round_trip_witness :
  exists buf,
    pipe_listener [["C"; ":"; x00; "a"]; [x00; "-"; "f"; x00]]%byte = Some buf
    /\ process Win32 true (mkCommandLine [] None) buf
       = process Posix true
           (mkCommandLine [["t"; "a"]; ["a"]; ["-"; "f"]]%byte (Some ["C"; ":"]%byte)) [].
Proof.
  refine (second_instance_round_trip ["C"; ":"]%byte [["t"; "a"]; ["a"]; ["-"; "f"]]%byte
            [["C"; ":"; x00; "a"]; [x00; "-"; "f"; x00]]%byte (mkCommandLine [] None)
            _ _ _ _ _ eq_refl _).
  - repeat (constructor; [discriminate |]); constructor.
  - repeat (constructor; [repeat (constructor; [discriminate |]); constructor |]); constructor.
  - set_unfold. intuition discriminate.
  - repeat (constructor; [set_unfold; intuition discriminate |]); constructor.
  - repeat (constructor; [discriminate |]); constructor.
  - vm_compute. discriminate.
Defined.
(** X21.  The line feed is the separator on the pipe, so an argument that
    holds one does not survive the framing: the first instance gets the
    text before it and the text after it as two arguments, exactly as if
    the second instance had been started with the two. *)
Theorem line_feed_splits_argument (cwd prog before after : list byte)
    (line : CommandLine) :
  c_string cwd -> c_string before -> c_string after ->
  LF ∉ cwd -> LF ∉ before -> LF ∉ after ->
  Z.of_nat (length cwd + length before + length after) + 3 <= 65535 ->
  exists buf,
    pipe_listener (g_application_run cwd [prog; before ++ LF :: after]) = Some buf
    /\ process Win32 true line buf
       = process Posix true (mkCommandLine [prog; before; after] (Some cwd)) [].
Proof.
  intros Hcwd Hb Ha Hlc Hlb Hla Hfit.
  assert (Harg : c_string (before ++ LF :: after)).
  { apply c_string_app. split; [exact Hb |].
    apply c_string_cons. split; [discriminate | exact Ha]. }
  set (body := cwd ++ x00 :: before ++ LF :: after).
  assert (Hsent : concat (g_application_run cwd [prog; before ++ LF :: after])
                  = body ++ [x00]).
  { unfold g_application_run. cbn [drop map concat].
    rewrite (c_str_id cwd Hcwd), (c_str_id _ Harg), app_nil_r.
    unfold body. rewrite <- !app_assoc. cbn [app]. rewrite <- !app_assoc. reflexivity. }
  assert (Hreads : Forall (fun r : list byte => r <> [])
                     (g_application_run cwd [prog; before ++ LF :: after])).
  { unfold g_application_run. cbn [drop map].
    repeat (constructor; [intros H; apply app_eq_nil in H as (_ & H); discriminate |]).
    constructor. }
  assert (Hlen : Z.of_nat (length (concat (g_application_run cwd
                                             [prog; before ++ LF :: after]))) <= 65535).
  { rewrite Hsent. unfold body. rewrite !length_app. cbn [length].
    rewrite !length_app. cbn [length]. lia. }
  eexists. split; [apply (pipe_listener_converts _ _ Hreads Hsent Hlen) |].
  unfold body. rewrite map_app. cbn [map]. rewrite map_app. cbn [map].
  rewrite (map_nul_to_newline cwd Hcwd), (map_nul_to_newline before Hb),
    (map_nul_to_newline after Ha).
  change (nul_to_newline x00) with LF. change (nul_to_newline LF) with LF.
  pose proof (process_splits cwd [before; after] [prog; before; after] line Hcwd) as H.
  cbn [flat_map app] in H. rewrite app_nil_r in H.
  apply H; [| exact Hlc | | reflexivity].
  - repeat (constructor; [assumption |]). constructor.
  - repeat (constructor; [assumption |]). constructor.
Qed.

Lemma line_feed_splits_argument_witness :
  exists buf,
    pipe_listener (g_application_run ["C"; ":"] [["t"; "a"]; ["a"; LF; "b"]])%byte
    = Some buf
    /\ process Win32 true (mkCommandLine [] None) buf
       = process Posix true
           (mkCommandLine [["t"; "a"]; ["a"]; ["b"]]%byte (Some ["C"; ":"]%byte)) [].
Proof.
  refine (line_feed_splits_argument ["C"; ":"]%byte ["t"; "a"]%byte ["a"]%byte ["b"]%byte
            (mkCommandLine [] None) _ _ _ _ _ _ _).
  - repeat (constructor; [discriminate |]); constructor.
  - repeat (constructor; [discriminate |]); constructor.
  - repeat (constructor; [discriminate |]); constructor.
  - set_unfold. intuition discriminate.
  - set_unfold. intuition discriminate.
  - set_unfold. intuition discriminate.
  - vm_compute. discriminate.
Defined.
